(** * Shape-algebra lowering of torch_xla/csrc/data_ops.cpp

    A shallow embedding of the lowering functions of [data_ops.cpp]
    (GetCompleteShape, SqueezeTrivialDimension, BuildUnsqueeze, BuildCat,
    BuildRepeat, ComputeSplitCount, BuildSplit, BuildResize, BuildUnselect)
    together with a model of the part of the XLA client they drive.

    Conventions.
    - [xla::int64] extents, offsets and element counts are integers of [Z],
      and the arithmetic of the model is exact.  Signed overflow has no
      defined behaviour in C++, so a statement that depends on a product or a
      sum the program computes carries the hypothesis that every value the
      program holds on the way is an [xla::int64] ([fits_int64],
      [Multiply_fits], [completion_fits], [INT64_MAX]): on these runs the
      exact value is the value of the program.  The one arithmetic fault
      that small inputs reach, a zero divisor, is kept as an explicit
      outcome.
    - [size_t] positions are [nat]; a negative [xla::int64] used as a position
      is out of range, as it is after the conversion to [size_t].
    - A failed [XLA_CHECK] aborts the lowering: it is an [Err] outcome, named
      after the error taxonomy of the specification.
    - An [XlaOp] handle is represented by the expression of the operation
      that was requested from the builder.  The builder keeps the list of the
      instructions it accepted, in order, and its first error; a request it
      rejects yields a handle without a shape ([GetShape] fails on it). *)

From stdpp Require Import base numbers list.

Local Open Scope Z_scope.

(** ** Outcomes *)

Inductive Error : Set :=
  (* failed XLA_CHECK assertions *)
  | MultipleIncompleteDimensions
  | ShapeElementCountMismatch
  | RankMismatch
  | ShapeMismatch
  | DimensionOutOfRange
  | EmptyInputList
  | FullCoverageWindowMismatch
  (* a status of the graph builder, fatal once its value is demanded *)
  | InvalidArgument
  (* faults of the C++ run itself *)
  | IntegerDivideByZero
  | VectorIndexOutOfRange
  | VectorLengthError.

Inductive Result (A : Type) : Type :=
  | Ok (a : A)
  | Err (e : Error).

Arguments Ok {A} a.
Arguments Err {A} e.

Definition bindR {A B} (r : Result A) (k : A -> Result B) : Result B :=
  match r with
  | Ok a => k a
  | Err e => Err e
  end.

(** [XLA_CHECK(c)]: continue when [c] holds, abort with [e] otherwise. *)
Definition XLA_CHECK (c : bool) (e : Error) : Result unit :=
  if c then Ok tt else Err e.

#[global] Instance Result_bind : MBind Result := fun A B k r => bindR r k.
#[global] Instance Result_ret : MRet Result := @Ok.

(** ** xla::int64 arithmetic that can fault *)

(** C++ [a % b] and [a / b]: truncating, no value for a zero divisor. *)
Definition rem64 (a b : Z) : Result Z :=
  if b =? 0 then Err IntegerDivideByZero else Ok (Z.rem a b).

Definition div64 (a b : Z) : Result Z :=
  if b =? 0 then Err IntegerDivideByZero else Ok (Z.quot a b).

(** ** xla::util *)

(** Modelled from the spec: [xla::util::Multiply] (xla_client/util.h) is the
    product of the entries, accumulated from 1 in sequence order. *)
Definition Multiply (sizes : list Z) : Z := fold_left Z.mul sizes 1.

(** Modelled from the spec: [xla::util::ToVector] copies a slice into a
    vector. *)
Definition ToVector (sizes : list Z) : list Z := sizes.

(** ** The range of xla::int64 *)

Definition INT64_MIN : Z := - 2 ^ 63.
Definition INT64_MAX : Z := 2 ^ 63 - 1.

Definition fits_int64 (z : Z) : bool := (INT64_MIN <=? z) && (z <=? INT64_MAX).

(** The values an accumulation of products holds, one per factor, starting
    from [acc]. *)
Fixpoint running_products (acc : Z) (sizes : list Z) : list Z :=
  match sizes with
  | [] => []
  | size :: rest => acc * size :: running_products (acc * size) rest
  end.

(** The entries are [xla::int64] values and [Multiply] overflows on none of
    its steps. *)
Definition Multiply_fits (sizes : list Z) : bool :=
  forallb fits_int64 sizes && forallb fits_int64 (running_products 1 sizes).

(** The same for the three products GetCompleteShape takes: of the
    non-negative entries of [output_sizes] (the loop, and [Multiply] when no
    entry is negative) and of [input_sizes]. *)
Definition completion_fits (output_sizes input_sizes : list Z) : bool :=
  forallb fits_int64 output_sizes &&
  Multiply_fits (filter (Z.le 0) output_sizes) &&
  Multiply_fits input_sizes.

(** ** GetCompleteShape *)

Record ScanState := mkScan {
  incomplete_dim : option nat;
  incomplete_element_count : Z
}.

(** The loop over [output_sizes], from position [dim] on.  The product is
    exact: it is the program's [incomplete_element_count] on the runs
    [completion_fits] describes. *)
Fixpoint scan_output_sizes (output_sizes : list Z) (dim : nat) (st : ScanState)
  : Result ScanState :=
  match output_sizes with
  | [] => Ok st
  | dim_size :: rest =>
      if dim_size <? 0 then
        XLA_CHECK (bool_decide (incomplete_dim st = None))
                  MultipleIncompleteDimensions ;;
        scan_output_sizes rest (S dim)
          (mkScan (Some dim) (incomplete_element_count st))
      else
        scan_output_sizes rest (S dim)
          (mkScan (incomplete_dim st) (incomplete_element_count st * dim_size))
  end.

(** data_ops.cpp, lines 17-49.  Exact products, as in [scan_output_sizes]:
    the program's values under [completion_fits]. *)
Definition GetCompleteShape (output_sizes input_sizes : list Z)
  : Result (list Z) :=
  st ← scan_output_sizes output_sizes 0%nat (mkScan None 1);
  let total_element_count := Multiply input_sizes in
  match incomplete_dim st with
  | None =>
      XLA_CHECK (total_element_count =? Multiply output_sizes)
                ShapeElementCountMismatch ;;
      Ok (ToVector output_sizes)
  | Some d =>
      r ← rem64 total_element_count (incomplete_element_count st);
      XLA_CHECK (r =? 0) ShapeElementCountMismatch ;;
      let complete_output_sizes := ToVector output_sizes in
      q ← div64 total_element_count (incomplete_element_count st);
      Ok (<[d := q]> complete_output_sizes)
  end.

(** ** XLA shapes, literals and nodes *)

Inductive PrimitiveType : Set :=
  PRED | S8 | S16 | S32 | S64 | U8 | U16 | U32 | U64.

#[global] Instance PrimitiveType_eq_dec : EqDecision PrimitiveType.
Proof. solve_decision. Defined.

Record Shape := mkShape {
  element_type : PrimitiveType;
  dimensions : list Z
}.

#[global] Instance Shape_eq_dec : EqDecision Shape.
Proof. solve_decision. Defined.

Definition rank (s : Shape) : nat := length (dimensions s).

(** Modelled from the spec: [xla::ShapeUtil::ElementsIn] is the product of
    the extents. *)
Definition ElementsIn (s : Shape) : Z := Multiply (dimensions s).

(** [Shape::dimensions(int)] and [std::vector::at]: a checked read. *)
Definition vector_at (v : list Z) (i : Z) : Result Z :=
  if i <? 0 then Err VectorIndexOutOfRange
  else match v !! Z.to_nat i with
       | Some x => Ok x
       | None => Err VectorIndexOutOfRange
       end.

Record PaddingConfigDimension := mkPadding {
  edge_padding_low : Z;
  edge_padding_high : Z;
  interior_padding : Z
}.

Abbreviation PaddingConfig := (list PaddingConfigDimension).

(** The value of a node: its shape and its elements in row-major order.
    Elements of every integral type and of PRED (0 is false) are integers. *)
Record Literal := mkLiteral {
  shape : Shape;
  data : list Z
}.

#[warnings="-register-all"]
Inductive XlaOp :=
  | OpConstant (literal : Literal)
  | OpReshape (operand : XlaOp) (new_sizes : list Z)
  | OpBroadcast (operand : XlaOp) (broadcast_sizes : list Z)
  | OpPad (operand padding_value : XlaOp) (padding_config : PaddingConfig)
  | OpSliceInDim (operand : XlaOp) (start_index limit_index stride dimno : Z)
  | OpConcatInDim (operands : list XlaOp) (dimension : Z)
  | OpSelect (pred on_true on_false : XlaOp).

(** ** Contracts of the XLA primitives

    The primitives (reshape, broadcast, pad, slice, concatenate, select)
    belong to the XLA client (tensorflow/compiler/xla); the lowering layer
    consumes them through their documented contracts.  Each is given here by
    its shape rule, after xla::ShapeInference, and by its meaning on
    row-major elements. *)

(** A condition of a shape rule; its failure is an InvalidArgument status. *)
Definition require (c : bool) : Result unit :=
  if c then Ok tt else Err InvalidArgument.

Definition valid_dimensions (dims : list Z) : bool := forallb (Z.leb 0) dims.

(** A literal holds one element per position of its shape. *)
Definition valid_literal (l : Literal) : bool :=
  valid_dimensions (dimensions (shape l)) &&
  (Z.of_nat (length (data l)) =? ElementsIn (shape l)).

(** Row [j] of row-major [data] whose rows hold [k] elements each. *)
Definition row (k : nat) (data : list Z) (j : nat) : list Z :=
  take k (drop (j * k) data).

(** *** Reshape *)

(** Modelled from the spec: a reshape keeps the element count and the
    row-major order of the elements. *)
Definition InferReshapeShape (operand : Shape) (new_sizes : list Z)
  : Result Shape :=
  require (valid_dimensions new_sizes) ;;
  require (ElementsIn operand =? Multiply new_sizes) ;;
  Ok (mkShape (element_type operand) new_sizes).

Definition EvalReshape (l : Literal) (new_sizes : list Z) : Result Literal :=
  s ← InferReshapeShape (shape l) new_sizes;
  Ok (mkLiteral s (data l)).

(** *** Broadcast *)

(** Modelled from the spec: a broadcast introduces new leading dimensions of
    the given sizes and replicates the operand along them. *)
Definition InferBroadcastShape (operand : Shape) (broadcast_sizes : list Z)
  : Result Shape :=
  require (valid_dimensions broadcast_sizes) ;;
  Ok (mkShape (element_type operand) (broadcast_sizes ++ dimensions operand)).

Definition EvalBroadcast (l : Literal) (broadcast_sizes : list Z)
  : Result Literal :=
  s ← InferBroadcastShape (shape l) broadcast_sizes;
  Ok (mkLiteral s
        (concat (replicate (Z.to_nat (Multiply broadcast_sizes)) (data l)))).

(** *** Pad *)

(** Modelled from the spec: a pad puts [edge_padding_low] fill elements
    before, [edge_padding_high] after and [interior_padding] between the
    elements of each dimension; negative edge padding removes elements. *)
Definition padded_extent (n : Z) (c : PaddingConfigDimension) : Z :=
  n + edge_padding_low c + edge_padding_high c
  + Z.max (n - 1) 0 * interior_padding c.

Fixpoint InferPadDimensions (dims : list Z) (cfg : PaddingConfig)
  : Result (list Z) :=
  match dims, cfg with
  | [], [] => Ok []
  | n :: dims', c :: cfg' =>
      require (0 <=? interior_padding c) ;;
      require (0 <=? padded_extent n c) ;;
      rest ← InferPadDimensions dims' cfg';
      Ok (padded_extent n c :: rest)
  | _, _ => Err InvalidArgument
  end.

(** The padding value is a scalar of the operand's element type. *)
Definition InferPadShape (operand padding_value : Shape) (cfg : PaddingConfig)
  : Result Shape :=
  require (bool_decide (dimensions padding_value = [])) ;;
  require (bool_decide (element_type operand = element_type padding_value)) ;;
  dims ← InferPadDimensions (dimensions operand) cfg;
  Ok (mkShape (element_type operand) dims).

(** The operand position that lands on position [j] of the padded
    dimension, if any: operand position [i] goes to
    [low + i * (interior + 1)]; positions that fall outside are dropped
    (negative edge padding). *)
Definition pad_source_index (c : PaddingConfigDimension) (n j : Z) : option Z :=
  let p := j - edge_padding_low c in
  let step := interior_padding c + 1 in
  if (0 <=? p) && (p `mod` step =? 0) && (p `div` step <? n)
  then Some (p `div` step) else None.

Fixpoint pad_data (dims : list Z) (cfg : PaddingConfig) (fill : Z)
    (elems : list Z) : list Z :=
  match dims, cfg with
  | n :: dims', c :: cfg' =>
      let k := Z.to_nat (Multiply dims') in
      let k' := Z.to_nat (Multiply (zip_with padded_extent dims' cfg')) in
      concat
        (map (fun j : nat =>
                match pad_source_index c n (Z.of_nat j) with
                | Some i => pad_data dims' cfg' fill (row k elems (Z.to_nat i))
                | None => replicate k' fill
                end)
             (seq 0 (Z.to_nat (padded_extent n c))))
  | _, _ => elems
  end.

Definition EvalPad (l padding_value : Literal) (cfg : PaddingConfig)
  : Result Literal :=
  s ← InferPadShape (shape l) (shape padding_value) cfg;
  Ok (mkLiteral s
        (pad_data (dimensions (shape l)) cfg
                  (default 0 (head (data padding_value))) (data l))).

(** *** SliceInDim *)

(** Modelled from the spec: a slice in one dimension keeps the positions
    start, start + stride, ... below limit of that dimension and every other
    dimension whole.  Its extent is the ceiling of (limit - start) / stride. *)
Definition slice_extent (start limit stride : Z) : Z :=
  (limit - start + stride - 1) `div` stride.

Definition InferSliceInDimShape (operand : Shape)
    (start limit stride dimno : Z) : Result Shape :=
  require (0 <=? dimno) ;;
  match dimensions operand !! Z.to_nat dimno with
  | None => Err InvalidArgument
  | Some n =>
      require (0 <=? start) ;;
      require (start <=? limit) ;;
      require (limit <=? n) ;;
      require (0 <? stride) ;;
      Ok (mkShape (element_type operand)
            (<[Z.to_nat dimno := slice_extent start limit stride]>
               (dimensions operand)))
  end.

Fixpoint slice_data (d : nat) (dims : list Z) (start stride : Z) (count : nat)
    (elems : list Z) : list Z :=
  match dims with
  | [] => elems
  | n :: dims' =>
      let k := Z.to_nat (Multiply dims') in
      match d with
      | O =>
          concat (map (fun j : nat =>
                         row k elems (Z.to_nat (start + Z.of_nat j * stride)))
                      (seq 0 count))
      | S d' =>
          concat (map (fun j : nat =>
                         slice_data d' dims' start stride count (row k elems j))
                      (seq 0 (Z.to_nat n)))
      end
  end.

Definition EvalSliceInDim (l : Literal) (start limit stride dimno : Z)
  : Result Literal :=
  s ← InferSliceInDimShape (shape l) start limit stride dimno;
  Ok (mkLiteral s
        (slice_data (Z.to_nat dimno) (dimensions (shape l)) start stride
                    (Z.to_nat (slice_extent start limit stride)) (data l))).

(** *** ConcatInDim *)

(** Modelled from the spec: a concatenation takes one operand at least, all
    of one element type and rank and of the same extents away from the
    concatenated dimension, whose extent is the sum of the operands'. *)
Definition extent_at (d : nat) (dims : list Z) : Z := default 0 (dims !! d).

Definition dimension_at (d : nat) (s : Shape) : Z :=
  extent_at d (dimensions s).

Definition concat_compatible (d : nat) (first s : Shape) : bool :=
  bool_decide (element_type s = element_type first) &&
  bool_decide (rank s = rank first) &&
  bool_decide (delete d (dimensions s) = delete d (dimensions first)).

Definition InferConcatOpShape (operands : list Shape) (dimension : Z)
  : Result Shape :=
  match operands with
  | [] => Err InvalidArgument
  | first :: rest =>
      require ((0 <=? dimension) && (dimension <? Z.of_nat (rank first))) ;;
      let d := Z.to_nat dimension in
      require (forallb (concat_compatible d first) rest) ;;
      Ok (mkShape (element_type first)
            (<[d := foldr Z.add 0 (map (dimension_at d) operands)]>
               (dimensions first)))
  end.

(** Row [j] of an operand, as an array of one rank less. *)
Definition inner_row (j : nat) (o : list Z * list Z) : list Z * list Z :=
  (tail o.1, row (Z.to_nat (Multiply (tail o.1))) o.2 j).

Definition outer_extent (operands : list (list Z * list Z)) : Z :=
  match operands with
  | (n :: _, _) :: _ => n
  | _ => 0
  end.

Fixpoint concat_data (d : nat) (operands : list (list Z * list Z)) : list Z :=
  match d with
  | O => concat (map snd operands)
  | S d' =>
      concat (map (fun j : nat => concat_data d' (map (inner_row j) operands))
                  (seq 0 (Z.to_nat (outer_extent operands))))
  end.

Definition EvalConcatInDim (ls : list Literal) (dimension : Z)
  : Result Literal :=
  s ← InferConcatOpShape (map shape ls) dimension;
  Ok (mkLiteral s
        (concat_data (Z.to_nat dimension)
           (map (fun l => (dimensions (shape l), data l)) ls))).

(** *** Select *)

(** Modelled from the spec: an element-wise select takes each element from
    [on_true] where the predicate holds and from [on_false] elsewhere; the
    predicate has the shape of the branches or is a scalar. *)
Definition InferSelectShape (pred on_true on_false : Shape) : Result Shape :=
  require (bool_decide (on_true = on_false)) ;;
  require (bool_decide (element_type pred = PRED)) ;;
  require (bool_decide (dimensions pred = dimensions on_true)
           || bool_decide (dimensions pred = [])) ;;
  Ok on_true.

Definition select_data (pred on_true on_false : Literal) : list Z :=
  if bool_decide (dimensions (shape pred) = dimensions (shape on_true)) then
    zip_with (fun p tf => if p =? 0 then tf.2 else tf.1)
             (data pred) (zip (data on_true) (data on_false))
  else if default 0 (head (data pred)) =? 0 then data on_false
  else data on_true.

Definition EvalSelect (pred on_true on_false : Literal) : Result Literal :=
  s ← InferSelectShape (shape pred) (shape on_true) (shape on_false);
  Ok (mkLiteral s (select_data pred on_true on_false)).

(** *** The value of a node *)

Fixpoint collect {A} (rs : list (Result A)) : Result (list A) :=
  match rs with
  | [] => Ok []
  | r :: rs' => a ← r; as' ← collect rs'; Ok (a :: as')
  end.

Fixpoint Evaluate (op : XlaOp) : Result Literal :=
  match op with
  | OpConstant l => require (valid_literal l) ;; Ok l
  | OpReshape x new_sizes => l ← Evaluate x; EvalReshape l new_sizes
  | OpBroadcast x sizes => l ← Evaluate x; EvalBroadcast l sizes
  | OpPad x v cfg => l ← Evaluate x; f ← Evaluate v; EvalPad l f cfg
  | OpSliceInDim x start limit stride dimno =>
      l ← Evaluate x; EvalSliceInDim l start limit stride dimno
  | OpConcatInDim xs dimension =>
      ls ← collect (map Evaluate xs); EvalConcatInDim ls dimension
  | OpSelect p t f =>
      lp ← Evaluate p; lt ← Evaluate t; lf ← Evaluate f; EvalSelect lp lt lf
  end.

(** Modelled from the spec: [XlaBuilder::GetShape] is the shape of the value
    of a node, an error status for a node without one. *)
Definition GetShape (op : XlaOp) : Result Shape :=
  l ← Evaluate op; Ok (shape l).

(** ** The builder *)

Record XlaBuilder := mkBuilder {
  instructions : list XlaOp;
  first_error : option Error
}.

(** A lowering step runs against the builder that owns the nodes. *)
Definition Lowering (A : Type) : Type := XlaBuilder -> Result A * XlaBuilder.

#[global] Instance Lowering_ret : MRet Lowering := fun A a b => (Ok a, b).

#[global] Instance Lowering_bind : MBind Lowering := fun A B k m b =>
  match m b with
  | (Ok a, b') => k a b'
  | (Err e, b') => (Err e, b')
  end.

(** A pure outcome inside a lowering; an [Err] aborts it. *)
Definition liftR {A} (r : Result A) : Lowering A := fun b => (r, b).

(** Modelled from the spec: every primitive goes through
    [XlaBuilder::ReportErrorOrReturn]; an accepted request is appended to the
    graph, a rejected one leaves the builder's first error. *)
Definition AddInstruction (op : XlaOp) : Lowering XlaOp := fun b =>
  match Evaluate op with
  | Ok _ => (Ok op, mkBuilder (instructions b ++ [op]) (first_error b))
  | Err e =>
      (Ok op, mkBuilder (instructions b)
                (Some (default e (first_error b))))
  end.

Module xla.
Definition ConstantLiteral (l : Literal) : Lowering XlaOp :=
  AddInstruction (OpConstant l).
Definition Reshape (operand : XlaOp) (new_sizes : list Z) : Lowering XlaOp :=
  AddInstruction (OpReshape operand new_sizes).
Definition Broadcast (operand : XlaOp) (broadcast_sizes : list Z)
  : Lowering XlaOp :=
  AddInstruction (OpBroadcast operand broadcast_sizes).
Definition Pad (operand padding_value : XlaOp) (cfg : PaddingConfig)
  : Lowering XlaOp :=
  AddInstruction (OpPad operand padding_value cfg).
Definition SliceInDim (operand : XlaOp) (start limit stride dimno : Z)
  : Lowering XlaOp :=
  AddInstruction (OpSliceInDim operand start limit stride dimno).
Definition ConcatInDim (operands : list XlaOp) (dimension : Z)
  : Lowering XlaOp :=
  AddInstruction (OpConcatInDim operands dimension).
Definition Select (pred on_true on_false : XlaOp) : Lowering XlaOp :=
  AddInstruction (OpSelect pred on_true on_false).
End xla.

(** ** XlaHelpers (torch_xla/csrc/helpers.h) *)

Module XlaHelpers.
(** Modelled from the spec: [ShapeOfXlaOp] queries the shape of a handle,
    fatally when the handle has none. *)
Definition ShapeOfXlaOp (op : XlaOp) : Lowering Shape := liftR (GetShape op).

(** Modelled from the spec: [SizesOfXlaOp] is the dimension list of that
    shape. *)
Definition SizesOfXlaOp (op : XlaOp) : Lowering (list Z) :=
  s ← ShapeOfXlaOp op; mret (dimensions s).

(** Modelled from the spec: [ScalarValue] emits a rank-0 constant of the
    given element type. *)
Definition ScalarValue (v : Z) (type : PrimitiveType) : Lowering XlaOp :=
  xla.ConstantLiteral (mkLiteral (mkShape type []) [v]).

(** Modelled from the spec: [ScalarBroadcast] broadcasts such a constant
    to the given dimensions. *)
Definition ScalarBroadcast (v : Z) (type : PrimitiveType)
    (dims : list Z) : Lowering XlaOp :=
  scalar_op ← ScalarValue v type; xla.Broadcast scalar_op dims.
End XlaHelpers.

(** Modelled from the spec: [GetDevicePrimitiveType] (tensor_util.h) keeps
    the boolean element type for the mask. *)
Definition GetDevicePrimitiveType (type : PrimitiveType) : PrimitiveType :=
  type.

(** ** ReshapeFamily *)

(** data_ops.cpp, lines 51-57. *)
Definition BuildView (input : XlaOp) (output_sizes : list Z) : Lowering XlaOp :=
  input_sizes ← XlaHelpers.SizesOfXlaOp input;
  complete_output_sizes ← liftR (GetCompleteShape output_sizes input_sizes);
  xla.Reshape input complete_output_sizes.

(** data_ops.cpp, lines 59-67. *)
Definition SqueezeTrivialDimension (input : XlaOp) (dim : nat)
  : Lowering XlaOp :=
  input_sizes ← XlaHelpers.SizesOfXlaOp input;
  liftR (XLA_CHECK (bool_decide (dim < length input_sizes)%nat)
                   DimensionOutOfRange) ;;
  if bool_decide (input_sizes !! dim ≠ Some 1) then mret input
  else xla.Reshape input (delete dim input_sizes).

(** data_ops.cpp, lines 69-77: the extents other than 1 are copied in
    order.  The predicate reads each extent as a [size_t], which tells 1 from
    the other values just as the [xla::int64] does. *)
Definition SqueezeAllTrivialDimensions (input : XlaOp) : Lowering XlaOp :=
  input_sizes ← XlaHelpers.SizesOfXlaOp input;
  let non_singleton_dimensions :=
    filter (fun dim_size : Z => dim_size <> 1) input_sizes in
  xla.Reshape input non_singleton_dimensions.

(** data_ops.cpp, lines 92-98: the new extent 1 goes before position
    [dim]. *)
Definition BuildUnsqueezeDimensions (dimensions : list Z) (dim : nat)
  : Result (list Z) :=
  XLA_CHECK (bool_decide (dim <= length dimensions)%nat) DimensionOutOfRange ;;
  let unsqueeze_dimensions := ToVector dimensions in
  Ok (take dim unsqueeze_dimensions ++ 1 :: drop dim unsqueeze_dimensions).

(** data_ops.cpp, lines 100-104. *)
Definition BuildUnsqueeze (input : XlaOp) (dim : nat) : Lowering XlaOp :=
  input_sizes ← XlaHelpers.SizesOfXlaOp input;
  dimensions ← liftR (BuildUnsqueezeDimensions input_sizes dim);
  xla.Reshape input dimensions.

(** ** ConcatFamily *)

(** [std::vector::insert] at [begin() + pos].  A position outside the
    vector has no defined behaviour in C++; it is kept as a fault. *)
Definition vector_insert (v : list Z) (pos : Z) (x : Z) : Result (list Z) :=
  if (pos <? 0) || (Z.of_nat (length v) <? pos)
  then Err VectorIndexOutOfRange
  else Ok (take (Z.to_nat pos) v ++ x :: drop (Z.to_nat pos) v).

(** The loop of BuildStack, with the reshaped inputs collected so far. *)
Fixpoint stack_loop (inputs : list XlaOp) (dim : Z)
    (reshaped_inputs : list XlaOp) : Lowering (list XlaOp) :=
  match inputs with
  | [] => mret reshaped_inputs
  | input :: rest =>
      sizes ← XlaHelpers.SizesOfXlaOp input;
      input_size ← liftR (vector_insert sizes dim 1);
      reshaped ← xla.Reshape input input_size;
      stack_loop rest dim (reshaped_inputs ++ [reshaped])
  end.

(** data_ops.cpp, lines 106-117. *)
Definition BuildStack (inputs : list XlaOp) (dim : Z) : Lowering XlaOp :=
  liftR (XLA_CHECK (bool_decide (0 < length inputs)%nat) EmptyInputList) ;;
  reshaped_inputs ← stack_loop inputs dim [];
  xla.ConcatInDim reshaped_inputs dim.

(** data_ops.cpp, lines 119-123. *)
Definition BuildCat (inputs : list XlaOp) (dim : Z) : Lowering XlaOp :=
  liftR (XLA_CHECK (bool_decide (0 < length inputs)%nat) EmptyInputList) ;;
  xla.ConcatInDim inputs dim.

(** [std::vector<T>(count, value)]: the count is a [size_t], so a negative
    [xla::int64] asks for more than a vector can hold. *)
Definition vector_fill {A} (count : Z) (value : A) : Result (list A) :=
  if count <? 0 then Err VectorLengthError
  else Ok (replicate (Z.to_nat count) value).

(** The loop of BuildRepeat over the dimensions [dims] still to tile. *)
Fixpoint repeat_loop (repeats : list Z) (broadcast_dims : nat)
    (dims : list nat) (repeated : XlaOp) : Lowering XlaOp :=
  match dims with
  | [] => mret repeated
  | dim :: rest =>
      count ← liftR (vector_at repeats (Z.of_nat (broadcast_dims + dim)));
      repeated_inputs ← liftR (vector_fill count repeated);
      repeated' ← xla.ConcatInDim repeated_inputs (Z.of_nat dim);
      repeat_loop repeats broadcast_dims rest repeated'
  end.

(** data_ops.cpp, lines 125-144. *)
Definition BuildRepeat (input : XlaOp) (repeats : list Z) : Lowering XlaOp :=
  input_sizes ← XlaHelpers.SizesOfXlaOp input;
  liftR (XLA_CHECK (bool_decide (length input_sizes <= length repeats)%nat)
                   RankMismatch) ;;
  let broadcast_dims := (length repeats - length input_sizes)%nat in
  repeated ← repeat_loop repeats broadcast_dims
               (seq 0 (length input_sizes)) input;
  if bool_decide (length input_sizes < length repeats)%nat then
    let remaining_repeats := take broadcast_dims repeats in
    xla.Broadcast repeated remaining_repeats
  else mret repeated.

(** The loop of ComputeSplitCount, with its two variables. *)
Fixpoint split_count_loop (split_sizes : list Z) (dim_size : Z) (count : nat)
  : nat :=
  match split_sizes with
  | [] => count
  | size :: rest =>
      if size >? dim_size then count
      else split_count_loop rest (dim_size - size) (S count)
  end.

(** data_ops.cpp, lines 146-158. *)
Definition ComputeSplitCount (dim_size : Z) (split_sizes : list Z) : nat :=
  split_count_loop split_sizes dim_size 0%nat.

(** The loop of BuildSplit, with [index] and the chunks emitted so far.
    The sum [index + size] is exact: it is the program's where it does not
    exceed [INT64_MAX]. *)
Fixpoint split_loop (input : XlaOp) (dim dim_size : Z) (split_sizes : list Z)
    (index : Z) (splits : list XlaOp) : Lowering (list XlaOp) :=
  match split_sizes with
  | [] => mret splits
  | size :: rest =>
      if index + size >? dim_size then mret splits
      else
        chunk ← xla.SliceInDim input index (index + size) 1 dim;
        split_loop input dim dim_size rest (index + size) (splits ++ [chunk])
  end.

(** data_ops.cpp, lines 160-175; [input_sizes.at(dim)] is a checked read. *)
Definition BuildSplit (input : XlaOp) (split_sizes : list Z) (dim : Z)
  : Lowering (list XlaOp) :=
  input_sizes ← XlaHelpers.SizesOfXlaOp input;
  dim_size ← liftR (vector_at input_sizes dim);
  split_loop input dim dim_size split_sizes 0 [].

(** ** SliceFamily *)

(** data_ops.cpp, lines 204-224.  [Multiply size] is exact: it is the
    program's [new_num_elements] under [Multiply_fits]. *)
Definition BuildResize (input : XlaOp) (size : list Z) : Lowering XlaOp :=
  input_shape ← XlaHelpers.ShapeOfXlaOp input;
  let num_elements := ElementsIn input_shape in
  r1_input ← xla.Reshape input [num_elements];
  let new_num_elements := Multiply size in
  resized_input ←
    (if num_elements >? new_num_elements then
       xla.SliceInDim r1_input 0 new_num_elements 1 0
     else if new_num_elements >? num_elements then
       zero ← XlaHelpers.ScalarValue 0 (element_type input_shape);
       let padding_config :=
         [mkPadding 0 (new_num_elements - num_elements) 0] in
       xla.Pad r1_input zero padding_config
     else mret input);
  xla.Reshape resized_input size.

(** ** MaskedOverwrite *)

(** The loop of BuildUnselect that fills the padding configuration, over the
    [positions] of the target's dimensions. *)
Fixpoint unselect_padding (target_shape source_shape : Shape)
    (dim start stride : Z) (positions : list Z) : Result PaddingConfig :=
  match positions with
  | [] => Ok []
  | i :: rest =>
      dims ←
        (if i =? dim then
           source_i ← vector_at (dimensions source_shape) i;
           let size := start + source_i + (source_i - 1) * (stride - 1) in
           target_i ← vector_at (dimensions target_shape) i;
           Ok (mkPadding start (target_i - size) (stride - 1))
         else
           target_i ← vector_at (dimensions target_shape) i;
           source_i ← vector_at (dimensions source_shape) i;
           XLA_CHECK (target_i =? source_i) ShapeMismatch ;;
           Ok (mkPadding 0 0 0));
      cfg ← unselect_padding target_shape source_shape dim start stride rest;
      Ok (dims :: cfg)
  end.

(** data_ops.cpp, lines 226-268; [end_] is the parameter [end]. *)
Definition BuildUnselect (target source : XlaOp) (dim start end_ stride : Z)
  : Lowering XlaOp :=
  target_shape ← XlaHelpers.ShapeOfXlaOp target;
  source_shape ← XlaHelpers.ShapeOfXlaOp source;
  target_dim ← liftR (vector_at (dimensions target_shape) dim);
  source_dim ← liftR (vector_at (dimensions source_shape) dim);
  if target_dim =? source_dim then
    liftR (XLA_CHECK (start =? 0) FullCoverageWindowMismatch) ;;
    liftR (XLA_CHECK (stride =? 1) FullCoverageWindowMismatch) ;;
    liftR (XLA_CHECK (end_ =? target_dim) FullCoverageWindowMismatch) ;;
    mret source
  else
    let pred_type := GetDevicePrimitiveType PRED in
    source_true ← XlaHelpers.ScalarBroadcast 1 pred_type
                    (dimensions source_shape);
    pred_zero ← XlaHelpers.ScalarValue 0 pred_type;
    zero ← XlaHelpers.ScalarValue 0 (element_type target_shape);
    padding_config ←
      liftR (unselect_padding target_shape source_shape dim start stride
               (seqZ 0 (Z.of_nat (rank target_shape))));
    padded_source ← xla.Pad source zero padding_config;
    mask ← xla.Pad source_true pred_zero padding_config;
    xla.Select mask padded_source target.

(** ** Documented outcomes of GetCompleteShape *)

(** The errors the specification documents for shape completion. *)
Definition completion_error (e : Error) : bool :=
  match e with
  | MultipleIncompleteDimensions | ShapeElementCountMismatch => true
  | _ => false
  end.

(** The outcome promised for shape completion: a shape with the element
    count of the source, or a documented error. *)
Definition completion_outcome (sourceSizes : list Z) (r : Result (list Z))
  : Prop :=
  match r with
  | Ok out => Multiply out = Multiply sourceSizes
  | Err e => completion_error e = true
  end.

(** ** Well-formed values *)

(** A literal is well formed when its extents are non-negative and it holds
    one element per position. *)
Definition wf_literal (l : Literal) : Prop :=
  Forall (Z.le 0) (dimensions (shape l)) /\
  length (data l) = Z.to_nat (ElementsIn (shape l)).

(** The same for an array given as its extents and its elements. *)
Definition wf_array (o : list Z * list Z) : Prop :=
  Forall (Z.le 0) o.1 /\ length o.2 = Z.to_nat (Multiply o.1).

(** Operands that may be concatenated along [d] with an array of extents
    [dims0]: same rank, same extents away from [d]. *)
Definition concat_operand (d : nat) (dims0 : list Z) (o : list Z * list Z)
  : Prop :=
  length o.1 = length dims0 /\ delete d o.1 = delete d dims0.

(** ** Sample nodes *)

Definition empty_builder : XlaBuilder := mkBuilder [] None.

(** A constant of the given extents holding the given elements. *)
Definition constant (type : PrimitiveType) (dims : list Z) (elems : list Z)
  : XlaOp :=
  OpConstant (mkLiteral (mkShape type dims) elems).

(** The padding configuration Unselect builds for a target of rank [r]:
    only dimension [dim] is padded. *)
Definition unselect_config (r : nat) (dim start stride target_dim source_dim : Z)
  : PaddingConfig :=
  <[Z.to_nat dim :=
      mkPadding start
        (target_dim - (start + source_dim + (source_dim - 1) * (stride - 1)))
        (stride - 1)]>
    (replicate r (mkPadding 0 0 0)).

(** ** Chunks laid end to end *)

Definition sum_sizes (sizes : list Z) : Z := foldr Z.add 0 sizes.

(** The stride-1 sub-ranges of lengths [sizes] along [dim], the first one at
    offset [index], each next one where the previous one ends. *)
Fixpoint split_chunks (input : XlaOp) (dim index : Z) (sizes : list Z)
  : list XlaOp :=
  match sizes with
  | [] => []
  | size :: rest =>
      OpSliceInDim input index (index + size) 1 dim
      :: split_chunks input dim (index + size) rest
  end.

(** The arrays held by the chunks [split_chunks] emits for an input of
    extents [dims] and elements [elems]. *)
Fixpoint chunk_arrays (d : nat) (dims elems : list Z) (index : Z)
    (sizes : list Z) : list (list Z * list Z) :=
  match sizes with
  | [] => []
  | size :: rest =>
      (<[d := size]> dims, slice_data d dims index 1 (Z.to_nat size) elems)
      :: chunk_arrays d dims elems (index + size) rest
  end.

(** * Properties *)

(** ** Running the monads *)

Ltac unfold_monad :=
  unfold mbind, mret, Lowering_bind, Lowering_ret, Result_bind, Result_ret,
    liftR, bindR, XLA_CHECK, require in *.

Lemma bindR_Ok {A B} (r : Result A) (k : A -> Result B) (b : B) :
  bindR r k = Ok b -> exists a, r = Ok a /\ k a = Ok b.
Proof. destruct r as [a|e]; simpl; [eauto | discriminate]. Qed.

(** ** Products of extents *)

Lemma fold_left_mul (l : list Z) (a : Z) :
  fold_left Z.mul l a = a * Multiply l.
Proof.
  unfold Multiply. revert a.
  induction l as [|x l IH]; intros a; simpl; [lia|].
  rewrite (IH (a * x)), (IH (1 * x)). lia.
Qed.

Lemma Multiply_nil : Multiply [] = 1.
Proof. reflexivity. Qed.

Lemma Multiply_cons (x : Z) (l : list Z) : Multiply (x :: l) = x * Multiply l.
Proof. unfold Multiply at 1. simpl. rewrite fold_left_mul. lia. Qed.

Lemma Multiply_app (l1 l2 : list Z) :
  Multiply (l1 ++ l2) = Multiply l1 * Multiply l2.
Proof.
  induction l1 as [|x l1 IH]; simpl.
  - rewrite Multiply_nil. lia.
  - rewrite !Multiply_cons, IH. lia.
Qed.

Lemma Multiply_nonneg (l : list Z) : Forall (Z.le 0) l -> 0 <= Multiply l.
Proof.
  induction 1 as [|x l Hx _ IH]; [rewrite Multiply_nil; lia|].
  rewrite Multiply_cons. lia.
Qed.

Lemma Multiply_delete_one (l : list Z) (i : nat) :
  l !! i = Some 1 -> Multiply (delete i l) = Multiply l.
Proof.
  intros Hi. rewrite <- (take_drop_middle l i 1 Hi) at 2.
  rewrite delete_take_drop, !Multiply_app, Multiply_cons. lia.
Qed.

Lemma Multiply_unsqueeze (l : list Z) (i : nat) :
  Multiply (take i l ++ 1 :: drop i l) = Multiply l.
Proof.
  rewrite <- (take_drop i l) at 3.
  rewrite !Multiply_app, Multiply_cons. lia.
Qed.

Lemma valid_dimensions_Forall (dims : list Z) :
  valid_dimensions dims = true <-> Forall (Z.le 0) dims.
Proof.
  unfold valid_dimensions. rewrite forallb_forall, Forall_forall.
  split; intros H x Hx.
  - apply Z.leb_le, H, list_elem_of_In, Hx.
  - apply Z.leb_le, H, list_elem_of_In, Hx.
Qed.

(** ** GetCompleteShape *)

Lemma scan_output_sizes_complete (sizes : list Z) (dim : nat) (st : ScanState) :
  Forall (Z.le 0) sizes ->
  scan_output_sizes sizes dim st =
    Ok (mkScan (incomplete_dim st) (incomplete_element_count st * Multiply sizes)).
Proof.
  intros H. revert dim st.
  induction H as [|x l Hx _ IH]; intros dim st; simpl.
  - rewrite Multiply_nil, Z.mul_1_r. destruct st; reflexivity.
  - destruct (Z.ltb_spec x 0); [lia|].
    rewrite IH. simpl. rewrite Multiply_cons. do 2 f_equal. lia.
Qed.

Lemma scan_output_sizes_incomplete (pre post : list Z) (x : Z) (dim : nat)
    (st : ScanState) :
  Forall (Z.le 0) pre -> x < 0 -> Forall (Z.le 0) post ->
  incomplete_dim st = None ->
  scan_output_sizes (pre ++ x :: post) dim st =
    Ok (mkScan (Some (dim + length pre)%nat)
          (incomplete_element_count st * Multiply (pre ++ post))).
Proof.
  intros Hpre Hx Hpost. revert dim st.
  induction Hpre as [|y l Hy _ IH]; intros dim st Hst; simpl.
  - destruct (Z.ltb_spec x 0); [|lia].
    rewrite Hst. unfold_monad. simpl.
    rewrite scan_output_sizes_complete by assumption. simpl.
    do 3 f_equal. lia.
  - destruct (Z.ltb_spec y 0); [lia|].
    rewrite IH by assumption. simpl. rewrite !Multiply_cons.
    do 2 f_equal; [f_equal; lia | lia].
Qed.

Lemma filter_nonneg_all (l : list Z) :
  Forall (Z.le 0) l -> filter (Z.le 0) l = l.
Proof.
  induction 1 as [|x l Hx _ IH]; [reflexivity|].
  rewrite filter_cons_True by assumption. by rewrite IH.
Qed.

Lemma one_negative_split (sizes : list Z) (i : nat) (x : Z) :
  sizes !! i = Some x ->
  (forall j y, j <> i -> sizes !! j = Some y -> 0 <= y) ->
  sizes = take i sizes ++ x :: drop (S i) sizes /\
  Forall (Z.le 0) (take i sizes) /\ Forall (Z.le 0) (drop (S i) sizes).
Proof.
  intros Hi Hothers. split; [by rewrite take_drop_middle|]. split.
  - apply Forall_lookup_2. intros j y Hj.
    apply lookup_take_Some in Hj as [Hj Hlt]. apply (Hothers j); [lia | done].
  - apply Forall_lookup_2. intros j y Hj.
    rewrite lookup_drop in Hj. apply (Hothers (S i + j)%nat); [lia | done].
Qed.

(** The completion of a view of 12 elements as (-1, 4), and the node
    BuildView returns for it. *)
Example BuildView_infers_dimension :
  GetCompleteShape [-1; 4] [12] = Ok [3; 4] /\
  (BuildView (constant S32 [12] (replicate 12 0)) [-1; 4] empty_builder).1 =
    Ok (OpReshape (constant S32 [12] (replicate 12 0)) [3; 4]).
Proof. split; reflexivity. Qed.

Lemma GetCompleteShape_complete (targetSizes sourceSizes : list Z) :
  Forall (Z.le 0) targetSizes ->
  GetCompleteShape targetSizes sourceSizes =
    if Multiply sourceSizes =? Multiply targetSizes then Ok targetSizes
    else Err ShapeElementCountMismatch.
Proof.
  intros H. unfold GetCompleteShape.
  rewrite scan_output_sizes_complete by assumption.
  unfold_monad. simpl. unfold ToVector.
  destruct (Multiply sourceSizes =? Multiply targetSizes); reflexivity.
Qed.

Lemma GetCompleteShape_incomplete (targetSizes sourceSizes : list Z)
    (i : nat) (x : Z) :
  targetSizes !! i = Some x -> x < 0 ->
  (forall j y, j <> i -> targetSizes !! j = Some y -> 0 <= y) ->
  GetCompleteShape targetSizes sourceSizes =
    (r ← rem64 (Multiply sourceSizes) (Multiply (filter (Z.le 0) targetSizes));
     if r =? 0 then
       q ← div64 (Multiply sourceSizes)
             (Multiply (filter (Z.le 0) targetSizes));
       Ok (<[i := q]> targetSizes)
     else Err ShapeElementCountMismatch).
Proof.
  intros Hi Hx Hothers.
  destruct (one_negative_split _ _ _ Hi Hothers) as (Hsplit & Hpre & Hpost).
  assert (Hlen : length (take i targetSizes) = i).
  { apply length_take_le. apply lookup_lt_Some in Hi. lia. }
  assert (Hknown : filter (Z.le 0) targetSizes =
                   take i targetSizes ++ drop (S i) targetSizes).
  { rewrite Hsplit at 1. rewrite filter_app, filter_cons_False by lia.
    by rewrite !filter_nonneg_all. }
  rewrite Hknown. unfold GetCompleteShape. rewrite Hsplit at 1.
  rewrite scan_output_sizes_incomplete by done.
  rewrite Hlen. unfold_monad. simpl. rewrite Z.mul_1_l. unfold ToVector.
  destruct (rem64 _ _) as [r|e]; [|reflexivity].
  destruct (r =? 0); reflexivity.
Qed.

(** C2. The second case does not hold where the product of the non-negative
    entries is zero.  The target sizes [0, -1] have one negative entry, at
    index 1, and the source sizes [5] have the product 5; the program then
    evaluates 5 % 0: it neither raises ShapeElementCountMismatch nor returns
    the target sizes with entry 1 set. *)
Theorem GetCompleteShape_resolves_zero_divisor :
  [0; -1] !! 1%nat = Some (-1) /\
  Multiply (filter (Z.le 0) [0; -1]) = 0 /\
  Multiply [5] = 5 /\
  completion_fits [0; -1] [5] = true /\
  GetCompleteShape [0; -1] [5] = Err IntegerDivideByZero.
Proof. repeat split. Qed.

(** What a finished scan says about the sizes it walked. *)
Lemma scan_output_sizes_inv (sizes : list Z) (dim : nat) (st st' : ScanState) :
  scan_output_sizes sizes dim st = Ok st' ->
  (Forall (Z.le 0) sizes /\
   st' = mkScan (incomplete_dim st)
           (incomplete_element_count st * Multiply sizes))
  \/
  (incomplete_dim st = None /\
   exists pre x post,
     sizes = pre ++ x :: post /\ Forall (Z.le 0) pre /\ x < 0 /\
     Forall (Z.le 0) post /\
     st' = mkScan (Some (dim + length pre)%nat)
             (incomplete_element_count st * Multiply (pre ++ post))).
Proof.
  revert dim st. induction sizes as [|x l IH]; intros dim st H; simpl in H.
  - left. split; [constructor|]. injection H as <-.
    rewrite Multiply_nil, Z.mul_1_r. by destruct st.
  - destruct (Z.ltb_spec x 0) as [Hx|Hx].
    + right. unfold_monad.
      destruct (incomplete_dim st) as [d|] eqn:Hd; [discriminate|].
      simpl in H. split; [reflexivity|].
      destruct (IH _ _ H) as [[Hl ->]|[Hnone _]]; [|discriminate].
      exists [], x, l. simpl. repeat split; try done.
      do 2 f_equal. lia.
    + destruct (IH _ _ H) as [[Hl ->]|[Hnone (pre & y & post & -> & ? & ? & ? & ->)]];
        simpl in *.
      * left. split; [by constructor|]. rewrite Multiply_cons. f_equal. lia.
      * right. split; [done|]. exists (x :: pre), y, post. simpl.
        repeat split; try done; [by constructor|].
        rewrite !Multiply_cons. f_equal; [f_equal; lia | lia].
Qed.

(** Whatever GetCompleteShape returns has the element count of the source. *)
Lemma GetCompleteShape_element_count (targetSizes sourceSizes out : list Z) :
  GetCompleteShape targetSizes sourceSizes = Ok out ->
  Multiply out = Multiply sourceSizes.
Proof.
  unfold GetCompleteShape. intros H.
  apply bindR_Ok in H as (st & Hscan & H).
  apply scan_output_sizes_inv in Hscan as
    [[Hall ->]|[_ (pre & x & post & -> & Hpre & Hx & Hpost & ->)]];
    simpl in H; unfold_monad; unfold ToVector in H.
  - destruct (Z.eqb_spec (Multiply sourceSizes) (Multiply targetSizes));
      [|discriminate]. injection H as <-. done.
  - rewrite Z.mul_1_l in H. unfold rem64, div64 in H.
    destruct (Multiply (pre ++ post) =? 0) eqn:Hz; [discriminate|].
    simpl in H.
    destruct (Z.eqb_spec (Z.rem (Multiply sourceSizes) (Multiply (pre ++ post))) 0)
      as [Hr|]; [|discriminate].
    injection H as <-.
    replace (<[length pre:=_]> (pre ++ x :: post))
      with (pre ++ Z.quot (Multiply sourceSizes) (Multiply (pre ++ post)) :: post).
    2:{ rewrite insert_app_r_alt, Nat.sub_diag by lia. done. }
    pose proof (Z.quot_rem' (Multiply sourceSizes) (Multiply (pre ++ post))) as E.
    rewrite Hr, Z.add_0_r in E.
    rewrite Multiply_app, Multiply_cons.
    etransitivity; [|symmetry; exact E].
    rewrite (Multiply_app pre post). ring.
Qed.

(** With a zero extent beside the incomplete entry the divisor is zero. *)
Lemma GetCompleteShape_zero_known (targetSizes sourceSizes : list Z)
    (i k : nat) (x : Z) :
  targetSizes !! i = Some x -> x < 0 ->
  (forall j y, j <> i -> targetSizes !! j = Some y -> 0 <= y) ->
  targetSizes !! k = Some 0 ->
  GetCompleteShape targetSizes sourceSizes = Err IntegerDivideByZero.
Proof.
  intros Hi Hx Hothers Hk.
  rewrite (GetCompleteShape_incomplete _ _ _ _ Hi Hx Hothers).
  assert (Hz : Multiply (filter (Z.le 0) targetSizes) = 0).
  { assert (Hin : 0 ∈ filter (Z.le 0) targetSizes).
    { apply list_elem_of_filter. split; [lia|].
      eapply list_elem_of_lookup_2; eauto. }
    apply list_elem_of_split in Hin as (l1 & l2 & ->).
    rewrite Multiply_app, Multiply_cons. lia. }
  rewrite Hz. reflexivity.
Qed.

Lemma scan_output_sizes_error (sizes : list Z) (dim : nat) (st : ScanState)
    (e : Error) :
  scan_output_sizes sizes dim st = Err e -> e = MultipleIncompleteDimensions.
Proof.
  revert dim st. induction sizes as [|x l IH]; intros dim st H; simpl in H;
    [discriminate|].
  destruct (x <? 0); [|by eapply IH].
  unfold_monad. destruct (bool_decide _); [by eapply IH | congruence].
Qed.

(** Every outcome of GetCompleteShape is the promised one, except the
    division by a zero product of the known extents. *)
Lemma GetCompleteShape_outcomes (targetSizes sourceSizes : list Z) :
  completion_outcome sourceSizes (GetCompleteShape targetSizes sourceSizes) \/
  (GetCompleteShape targetSizes sourceSizes = Err IntegerDivideByZero /\
   Multiply (filter (Z.le 0) targetSizes) = 0).
Proof.
  destruct (GetCompleteShape targetSizes sourceSizes) as [out|e] eqn:H.
  - left. by apply (GetCompleteShape_element_count targetSizes).
  - unfold GetCompleteShape in H.
    destruct (scan_output_sizes targetSizes 0 (mkScan None 1)) as [st|e']
      eqn:Hscan.
    + apply scan_output_sizes_inv in Hscan as
        [[Hall ->]|[_ (pre & x & post & -> & Hpre & Hx & Hpost & ->)]];
        unfold_monad; simpl in H; unfold rem64, div64 in H.
      * destruct (_ =? _); [discriminate|]. injection H as <-. by left.
      * rewrite Z.mul_1_l in H.
        assert (Hknown : filter (Z.le 0) (pre ++ x :: post) = pre ++ post).
        { rewrite filter_app, filter_cons_False by lia.
          by rewrite !filter_nonneg_all. }
        rewrite Hknown.
        destruct (Z.eqb_spec (Multiply (pre ++ post)) 0) as [Hz|Hz].
        -- injection H as <-. by right.
        -- simpl in H. destruct (_ =? 0); [discriminate|].
           injection H as <-. by left.
    + unfold_monad. injection H as <-.
      apply scan_output_sizes_error in Hscan as ->. by left.
Qed.

(** C3. GetCompleteShape does not always end by a shape with the element
    count of the source or by a documented error: when the target sizes hold
    a zero extent beside the incomplete entry, the product of the known
    extents is 0 and the program divides by it, whatever the source sizes
    are. *)
Theorem GetCompleteShape_divides_by_zero (targetSizes sourceSizes : list Z)
    (i k : nat) (x : Z) :
  targetSizes !! i = Some x -> x < 0 ->
  (forall j y, j <> i -> targetSizes !! j = Some y -> 0 <= y) ->
  targetSizes !! k = Some 0 ->
  GetCompleteShape targetSizes sourceSizes = Err IntegerDivideByZero /\
  ~ completion_outcome sourceSizes (GetCompleteShape targetSizes sourceSizes).
Proof.
  intros Hi Hx Hothers Hk.
  rewrite (GetCompleteShape_zero_known _ sourceSizes _ _ _ Hi Hx Hothers Hk).
  split; [reflexivity | simpl; discriminate].
Qed.

Lemma GetCompleteShape_divides_by_zero_witness :
  GetCompleteShape [-1; 0] [0] = Err IntegerDivideByZero /\
  ~ completion_outcome [0] (GetCompleteShape [-1; 0] [0]).
Proof.
  apply (GetCompleteShape_divides_by_zero [-1; 0] [0] 0%nat 1%nat (-1));
    try reflexivity; try lia.
  intros [|[|j]] y Hj Hy; simpl in Hy; try discriminate; try congruence.
  injection Hy as <-. lia.
Defined.

(** ** Rows of row-major data *)

Lemma length_row (k : nat) (l : list Z) (j : nat) :
  (S j * k <= length l)%nat -> length (row k l j) = k.
Proof. intros H. unfold row. rewrite length_take, length_drop. lia. Qed.

Lemma row_S (k : nat) (l : list Z) (j : nat) :
  row k l (S j) = row k (drop k l) j.
Proof. unfold row. rewrite drop_drop. reflexivity. Qed.

Lemma map_row_S (k : nat) (l : list Z) (n : nat) :
  map (row k l) (seq 1 n) = map (row k (drop k l)) (seq 0 n).
Proof.
  rewrite <- seq_shift, map_map. apply map_ext. intros j. apply row_S.
Qed.

Lemma concat_rows (n k : nat) (l : list Z) :
  length l = (n * k)%nat -> concat (map (row k l) (seq 0 n)) = l.
Proof.
  revert l. induction n as [|n IH]; intros l Hl; simpl.
  - by destruct l.
  - rewrite map_row_S, IH by (rewrite length_drop; lia).
    unfold row. simpl. apply take_drop.
Qed.

Lemma length_concat_map {A} (f : A -> list Z) (js : list A) (k : nat) :
  (forall j, j ∈ js -> length (f j) = k) ->
  length (concat (map f js)) = (length js * k)%nat.
Proof.
  induction js as [|j js IH]; intros H; simpl; [reflexivity|].
  rewrite length_app, H, IH;
    [lia | intros j' Hj'; apply H; by right | left].
Qed.

Lemma Z2Nat_mul (a b : Z) :
  0 <= a -> 0 <= b -> Z.to_nat (a * b) = (Z.to_nat a * Z.to_nat b)%nat.
Proof. intros. apply Z2Nat.inj_mul; assumption. Qed.

(** ** Induction over nodes, through the operand lists *)

Lemma XlaOp_nested_ind (P : XlaOp -> Prop) :
  (forall l, P (OpConstant l)) ->
  (forall x sizes, P x -> P (OpReshape x sizes)) ->
  (forall x sizes, P x -> P (OpBroadcast x sizes)) ->
  (forall x v cfg, P x -> P v -> P (OpPad x v cfg)) ->
  (forall x start limit stride dimno,
     P x -> P (OpSliceInDim x start limit stride dimno)) ->
  (forall xs dimension, Forall P xs -> P (OpConcatInDim xs dimension)) ->
  (forall p t f, P p -> P t -> P f -> P (OpSelect p t f)) ->
  forall op, P op.
Proof.
  intros Hc Hr Hb Hp Hs Hcat Hsel.
  fix IH 1. intros [l|x sizes|x sizes|x v cfg|x a b c d|xs dimension|p t f].
  - apply Hc.
  - apply Hr, IH.
  - apply Hb, IH.
  - apply Hp; apply IH.
  - apply Hs, IH.
  - apply Hcat. induction xs as [|x xs IHxs]; constructor; [apply IH | apply IHxs].
  - apply Hsel; apply IH.
Qed.

(** ** The primitives keep literals well formed *)

Lemma wf_literal_array (l : Literal) :
  wf_literal l <-> wf_array (dimensions (shape l), data l).
Proof. reflexivity. Qed.

Lemma valid_literal_wf (l : Literal) : valid_literal l = true <-> wf_literal l.
Proof.
  unfold valid_literal, wf_literal.
  rewrite andb_true_iff, valid_dimensions_Forall, Z.eqb_eq.
  split; intros [Hd Hl]; (split; [done|]).
  - rewrite <- Hl. by rewrite Nat2Z.id.
  - rewrite Hl, Z2Nat.id; [done|]. by apply Multiply_nonneg.
Qed.

Lemma wf_row (n : Z) (dims elems : list Z) (j : nat) :
  wf_array (n :: dims, elems) -> (j < Z.to_nat n)%nat ->
  wf_array (dims, row (Z.to_nat (Multiply dims)) elems j).
Proof.
  intros [Hd Hl] Hj. simpl in *. inversion Hd as [|? ? Hn Hd']; subst.
  split; [done|]. simpl. apply length_row. rewrite Hl, Multiply_cons.
  rewrite Z2Nat_mul by (try apply Multiply_nonneg; done).
  apply Nat.mul_le_mono_r. lia.
Qed.

Lemma EvalReshape_wf (l l' : Literal) (new_sizes : list Z) :
  wf_literal l -> EvalReshape l new_sizes = Ok l' -> wf_literal l'.
Proof.
  intros [Hd Hl] H. unfold EvalReshape, InferReshapeShape in H. unfold_monad.
  destruct (valid_dimensions new_sizes) eqn:Hv; [|discriminate].
  destruct (Z.eqb_spec (ElementsIn (shape l)) (Multiply new_sizes)) as [E|];
    [|discriminate].
  injection H as <-. split; simpl.
  - by apply valid_dimensions_Forall.
  - unfold ElementsIn at 1. simpl. by rewrite <- E.
Qed.

Lemma length_concat_replicate (n : nat) (l : list Z) :
  length (concat (replicate n l)) = (n * length l)%nat.
Proof. induction n as [|n IH]; simpl; [done|]. rewrite length_app, IH. lia. Qed.

Lemma EvalBroadcast_wf (l l' : Literal) (sizes : list Z) :
  wf_literal l -> EvalBroadcast l sizes = Ok l' -> wf_literal l'.
Proof.
  intros [Hd Hl] H. unfold EvalBroadcast, InferBroadcastShape in H.
  unfold_monad.
  destruct (valid_dimensions sizes) eqn:Hv; [|discriminate].
  apply valid_dimensions_Forall in Hv.
  injection H as <-. split; simpl.
  - by apply Forall_app.
  - rewrite length_concat_replicate, Hl. unfold ElementsIn. simpl.
    rewrite Multiply_app, Z2Nat_mul by (by apply Multiply_nonneg). done.
Qed.

Lemma InferPadDimensions_Ok (dims : list Z) (cfg : PaddingConfig)
    (pdims : list Z) :
  InferPadDimensions dims cfg = Ok pdims ->
  pdims = zip_with padded_extent dims cfg /\ Forall (Z.le 0) pdims /\
  Forall (fun c => 0 <= interior_padding c) cfg /\ length cfg = length dims.
Proof.
  revert cfg pdims. induction dims as [|n dims IH]; intros [|c cfg] pdims H;
    simpl in H; try discriminate.
  - injection H as <-. repeat split; constructor.
  - unfold_monad.
    destruct (Z.leb_spec 0 (interior_padding c)); [|discriminate].
    destruct (Z.leb_spec 0 (padded_extent n c)); [|discriminate].
    destruct (InferPadDimensions dims cfg) as [rest|] eqn:Hrest;
      [|discriminate].
    injection H as <-. destruct (IH _ _ Hrest) as (-> & ? & ? & ?).
    simpl. repeat split; try constructor; try done. lia.
Qed.

Lemma pad_source_index_range (c : PaddingConfigDimension) (n j i : Z) :
  0 <= interior_padding c -> pad_source_index c n j = Some i -> 0 <= i < n.
Proof.
  intros Hc. unfold pad_source_index.
  destruct (Z.leb_spec 0 (j - edge_padding_low c)); [|discriminate].
  destruct (_ =? 0); [|discriminate].
  destruct (Z.ltb_spec ((j - edge_padding_low c) `div` (interior_padding c + 1)) n);
    [|discriminate].
  simpl. intros [= <-]. split; [|done]. apply Z.div_pos; lia.
Qed.

Lemma length_pad_data (dims : list Z) (cfg : PaddingConfig) (pdims : list Z)
    (fill : Z) (elems : list Z) :
  InferPadDimensions dims cfg = Ok pdims ->
  wf_array (dims, elems) ->
  length (pad_data dims cfg fill elems) = Z.to_nat (Multiply pdims).
Proof.
  revert cfg pdims elems.
  induction dims as [|n dims IH]; intros [|c cfg] pdims elems H Hwf;
    simpl in H; try discriminate.
  - injection H as <-. simpl. apply Hwf.
  - pose proof (InferPadDimensions_Ok (n :: dims) (c :: cfg) pdims H)
      as (Hp & Hnn & Hint & _).
    unfold_monad.
    destruct (0 <=? interior_padding c); [|discriminate].
    destruct (Z.leb_spec 0 (padded_extent n c)); [|discriminate].
    destruct (InferPadDimensions dims cfg) as [rest|] eqn:Hrest;
      [|discriminate].
    injection H as <-. simpl.
    pose proof (InferPadDimensions_Ok _ _ _ Hrest) as (Hrest' & Hnn' & _ & _).
    rewrite (length_concat_map _ _ (Z.to_nat (Multiply rest))).
    + rewrite length_seq, Multiply_cons, Z2Nat_mul; try done.
      by apply Multiply_nonneg.
    + intros j Hj. apply elem_of_seq in Hj.
      destruct (pad_source_index c n (Z.of_nat j)) as [i|] eqn:Hi.
      * apply pad_source_index_range in Hi; [|by inversion Hint].
        apply IH; [done|]. apply (wf_row n); [done | lia].
      * rewrite length_replicate. by rewrite <- Hrest'.
Qed.

Lemma EvalPad_wf (l v l' : Literal) (cfg : PaddingConfig) :
  wf_literal l -> EvalPad l v cfg = Ok l' -> wf_literal l'.
Proof.
  intros Hwf H. unfold EvalPad, InferPadShape in H. unfold_monad.
  destruct (bool_decide _); [|discriminate].
  destruct (bool_decide _); [|discriminate].
  destruct (InferPadDimensions _ cfg) as [pdims|] eqn:Hp; [|discriminate].
  injection H as <-. split; simpl.
  - by apply InferPadDimensions_Ok in Hp as (_ & ? & _).
  - by apply length_pad_data.
Qed.

Lemma slice_extent_nonneg (start limit stride : Z) :
  0 < stride -> start <= limit -> 0 <= slice_extent start limit stride.
Proof. intros. unfold slice_extent. apply Z.div_pos; lia. Qed.

Lemma slice_extent_below (start limit stride : Z) (j : nat) :
  0 < stride -> start <= limit ->
  (j < Z.to_nat (slice_extent start limit stride))%nat ->
  start + Z.of_nat j * stride < limit.
Proof.
  intros Hs Hl Hj. unfold slice_extent in Hj.
  pose proof (Z.mul_div_le (limit - start + stride - 1) stride Hs).
  nia.
Qed.

Lemma length_slice_data (d : nat) (dims : list Z) (start stride : Z)
    (count : nat) (elems : list Z) (n : Z) :
  wf_array (dims, elems) -> dims !! d = Some n ->
  0 <= start -> 0 <= stride ->
  (forall j, (j < count)%nat -> start + Z.of_nat j * stride < n) ->
  length (slice_data d dims start stride count elems) =
    Z.to_nat (Multiply (<[d := Z.of_nat count]> dims)).
Proof.
  intros Hwf Hd Hstart Hstride Hin. revert dims elems Hwf Hd.
  induction d as [|d IH]; intros [|m dims] elems Hwf Hd; try discriminate;
    simpl in Hd; simpl slice_data.
  - injection Hd as ->.
    rewrite (length_concat_map _ _ (Z.to_nat (Multiply dims))).
    + rewrite length_seq. simpl. rewrite Multiply_cons, Z2Nat_mul, Nat2Z.id;
        [done | lia |]. apply Multiply_nonneg. destruct Hwf as [Hf _].
      by inversion Hf.
    + intros j Hj. apply elem_of_seq in Hj.
      eapply (wf_row n dims elems _ Hwf). Unshelve.
      specialize (Hin j ltac:(lia)). nia.
  - destruct Hwf as [Hf Hl]. inversion Hf as [|? ? Hm Hf']; subst.
    rewrite (length_concat_map _ _
               (Z.to_nat (Multiply (<[d := Z.of_nat count]> dims)))).
    + rewrite length_seq. simpl. rewrite Multiply_cons, Z2Nat_mul; try done.
      apply Multiply_nonneg, Forall_insert; [done | lia].
    + intros j Hj. apply elem_of_seq in Hj.
      apply IH; [|done]. apply (wf_row m); [by split | lia].
Qed.

Lemma EvalSliceInDim_wf (l l' : Literal) (start limit stride dimno : Z) :
  wf_literal l -> EvalSliceInDim l start limit stride dimno = Ok l' ->
  wf_literal l'.
Proof.
  intros Hwf H. unfold EvalSliceInDim, InferSliceInDimShape in H. unfold_monad.
  destruct (Z.leb_spec 0 dimno); [|discriminate].
  destruct (dimensions (shape l) !! Z.to_nat dimno) as [n|] eqn:Hn;
    [|discriminate].
  destruct (Z.leb_spec 0 start); [|discriminate].
  destruct (Z.leb_spec start limit); [|discriminate].
  destruct (Z.leb_spec limit n); [|discriminate].
  destruct (Z.ltb_spec 0 stride); [|discriminate].
  injection H as <-.
  pose proof (slice_extent_nonneg start limit stride) as Hnn.
  split; simpl.
  - apply Forall_insert; [apply Hwf | lia].
  - rewrite (length_slice_data _ _ _ _ _ _ n); try done; try lia.
    + unfold ElementsIn. simpl. rewrite Z2Nat.id by lia. done.
    + intros j Hj. pose proof (slice_extent_below start limit stride j). lia.
Qed.

Lemma insert_same_delete (d : nat) (l1 l2 : list Z) (x : Z) :
  length l1 = length l2 -> delete d l1 = delete d l2 ->
  <[d := x]> l1 = <[d := x]> l2.
Proof.
  revert l1 l2. induction d as [|d IH]; intros [|a l1] [|b l2] Hlen Hdel;
    simpl in *; try done.
  - by rewrite Hdel.
  - injection Hdel as -> Hdel. f_equal. apply IH; [lia | done].
Qed.

Lemma concat_operand_0 (n0 : Z) (tl0 : list Z) (o : list Z * list Z) :
  concat_operand 0 (n0 :: tl0) o -> o.1 = extent_at 0 o.1 :: tl0.
Proof.
  destruct o as [[|m tl] elems]; intros [Hlen Hdel]; simpl in *;
    [discriminate|]. by rewrite Hdel.
Qed.

Lemma concat_operand_S (d : nat) (n0 : Z) (tl0 : list Z)
    (o : list Z * list Z) :
  concat_operand (S d) (n0 :: tl0) o ->
  exists tl, o.1 = n0 :: tl /\ concat_operand d tl0 (tl, o.2) /\
             extent_at (S d) o.1 = extent_at d tl.
Proof.
  destruct o as [[|m tl] elems]; intros [Hlen Hdel]; simpl in *;
    [discriminate|].
  injection Hdel as -> Hdel. exists tl.
  split; [done|]. split; [|done]. split; simpl; [lia | done].
Qed.

Lemma length_concat_data_0 (ops : list (list Z * list Z)) (n0 : Z)
    (tl0 : list Z) :
  Forall wf_array ops -> Forall (concat_operand 0 (n0 :: tl0)) ops ->
  0 <= foldr Z.add 0 (map (fun o => extent_at 0 o.1) ops) /\
  length (concat (map snd ops)) =
    Z.to_nat (foldr Z.add 0 (map (fun o => extent_at 0 o.1) ops) * Multiply tl0).
Proof.
  induction 1 as [|o ops [Hf Hl] _ IH]; intros Hc; simpl.
  - split; [lia | done].
  - inversion Hc as [|? ? Ho Hc']; subst.
    destruct (IH Hc') as [Hsum Hlen].
    pose proof (concat_operand_0 _ _ _ Ho) as E. rewrite E in Hf, Hl.
    inversion Hf as [|? ? Hn Htl]; subst.
    pose proof (Multiply_nonneg _ Htl).
    split; [lia|].
    rewrite length_app, Hlen, Hl, Multiply_cons.
    rewrite <- Z2Nat.inj_add by nia. f_equal. lia.
Qed.

Lemma length_concat_data (d : nat) (ops : list (list Z * list Z))
    (dims0 : list Z) :
  (d < length dims0)%nat -> ops <> [] ->
  Forall wf_array ops -> Forall (concat_operand d dims0) ops ->
  0 <= foldr Z.add 0 (map (fun o => extent_at d o.1) ops) /\
  length (concat_data d ops) =
    Z.to_nat (Multiply
      (<[d := foldr Z.add 0 (map (fun o => extent_at d o.1) ops)]> dims0)).
Proof.
  revert ops dims0.
  induction d as [|d IH]; intros ops [|n0 tl0] Hd Hne Hwf Hc; simpl in Hd;
    try lia.
  - destruct (length_concat_data_0 ops n0 tl0 Hwf Hc) as [Hsum Hlen].
    split; [done|]. simpl. by rewrite Multiply_cons.
  - (* every operand has outer extent n0; work row by row *)
    assert (Hrows : forall j, (j < Z.to_nat n0)%nat ->
              Forall wf_array (map (inner_row j) ops) /\
              Forall (concat_operand d tl0) (map (inner_row j) ops) /\
              map (fun o => extent_at d o.1) (map (inner_row j) ops) =
              map (fun o => extent_at (S d) o.1) ops).
    { intros j Hj. clear Hne. induction Hwf as [|o ops Ho _ IHops]; simpl.
      - repeat split; constructor.
      - inversion Hc as [|? ? Hco Hc']; subst.
        destruct (IHops Hc') as (? & ? & ?).
        destruct (concat_operand_S _ _ _ _ Hco) as (tl & E & Hctl & Hext).
        destruct o as [dims elems]. simpl in E. subst dims.
        split; [|split].
        + constructor; [by apply (wf_row n0) | done].
        + constructor; [apply Hctl | done].
        + simpl in *. rewrite Hext. by f_equal. }
    assert (Houter : outer_extent ops = n0).
    { destruct ops as [|o ops]; [done|].
      inversion Hc as [|? ? Hco _]; subst.
      destruct (concat_operand_S _ _ _ _ Hco) as (tl & E & _).
      destruct o as [dims elems]. simpl in E. by subst dims. }
    assert (Hn0 : 0 <= n0).
    { destruct ops as [|o ops]; [done|].
      inversion Hc as [|? ? Hco _]; subst.
      inversion Hwf as [|? ? [Hf _] _]; subst.
      destruct (concat_operand_S _ _ _ _ Hco) as (tl & E & _).
      rewrite E in Hf. by inversion Hf. }
    assert (Hsum : 0 <= foldr Z.add 0 (map (fun o => extent_at (S d) o.1) ops)).
    { clear Hne Hrows Houter. induction Hwf as [|o ops [Hf _] _ IHops]; simpl;
        [lia|].
      inversion Hc as [|? ? Hco Hc']; subst. specialize (IHops Hc').
      unfold extent_at at 1.
      destruct (o.1 !! S d) as [x|] eqn:Hx; simpl; [|lia].
      pose proof (Forall_lookup_1 _ _ _ _ Hf Hx) as Hx0. simpl in Hx0. lia. }
    split; [done|].
    simpl concat_data. rewrite Houter.
    set (total := foldr Z.add 0 (map (fun o => extent_at (S d) o.1) ops)) in *.
    rewrite (length_concat_map _ _
               (Z.to_nat (Multiply (<[d := total]> tl0)))).
    + rewrite length_seq. simpl. rewrite Multiply_cons, Z2Nat_mul; try done.
      destruct ops as [|o ops]; [done|].
      inversion Hc as [|? ? Hco _]; subst.
      inversion Hwf as [|? ? [Hf _] _]; subst.
      destruct (concat_operand_S _ _ _ _ Hco) as (tl & E & [Hlen Hdel] & _).
      (* the extents of tl0 away from d are those of the operand *)
      rewrite <- (insert_same_delete d tl tl0) by done.
      rewrite E in Hf. inversion Hf; subst.
      apply Multiply_nonneg, Forall_insert; [done | lia].
    + intros j Hj. apply elem_of_seq in Hj.
      destruct (Hrows j ltac:(lia)) as (Hwfj & Hcj & Hextj).
      destruct (IH (map (inner_row j) ops) tl0) as [_ Hlenj]; try done.
      * lia.
      * destruct ops; [done | discriminate].
      * rewrite Hlenj, Hextj. done.
Qed.

Lemma EvalConcatInDim_wf (ls : list Literal) (dimension : Z) (l' : Literal) :
  Forall wf_literal ls -> EvalConcatInDim ls dimension = Ok l' -> wf_literal l'.
Proof.
  intros Hwf H. unfold EvalConcatInDim, InferConcatOpShape in H.
  destruct ls as [|first rest]; [discriminate|].
  unfold_monad. simpl map in H. cbv beta iota in H.
  destruct (Z.leb_spec 0 dimension); [|discriminate].
  destruct (Z.ltb_spec dimension (Z.of_nat (rank (shape first))));
    [|discriminate].
  simpl in H.
  destruct (forallb _ _) eqn:Hcompat; [|discriminate].
  injection H as <-.
  set (ops := map (fun l => (dimensions (shape l), data l)) (first :: rest)).
  assert (Hops : Forall wf_array ops).
  { unfold ops. apply Forall_fmap. eapply Forall_impl; [exact Hwf|].
    intros l Hl. by apply wf_literal_array. }
  assert (Hc : Forall (concat_operand (Z.to_nat dimension)
                         (dimensions (shape first))) ops).
  { unfold ops. simpl. constructor; [done|].
    rewrite forallb_forall in Hcompat.
    apply Forall_forall. intros o Ho.
    apply list_elem_of_In, in_map_iff in Ho as (l & <- & Hl).
    specialize (Hcompat (shape l) (in_map shape _ _ Hl)).
    unfold concat_compatible in Hcompat.
    rewrite !andb_true_iff, !bool_decide_eq_true in Hcompat.
    destruct Hcompat as [[_ Hrank] Hdel]. by split. }
  destruct (length_concat_data (Z.to_nat dimension) ops
              (dimensions (shape first))) as [Hsum Hlen]; try done.
  { unfold rank in *. lia. }
  assert (Esum : dimension_at (Z.to_nat dimension) (shape first) +
                 foldr Z.add 0 (map (dimension_at (Z.to_nat dimension))
                                  (map shape rest)) =
                 foldr Z.add 0
                   (map (fun o => extent_at (Z.to_nat dimension) o.1) ops)).
  { unfold ops. simpl. rewrite !map_map. done. }
  rewrite Esum.
  split; [|exact Hlen].
  apply Forall_insert; [|done]. inversion Hwf as [|? ? [Hf _] _]. done.
Qed.

Lemma EvalSelect_wf (p t f l' : Literal) :
  wf_literal p -> wf_literal t -> wf_literal f ->
  EvalSelect p t f = Ok l' -> wf_literal l'.
Proof.
  intros [_ Hp] [Htd Ht] [_ Hf] H. unfold EvalSelect, InferSelectShape in H.
  unfold_monad.
  destruct (bool_decide_reflect (shape t = shape f)) as [Etf|]; [|discriminate].
  destruct (bool_decide _); [|discriminate].
  destruct (_ || _); [|discriminate].
  injection H as <-. split; [done|]. simpl. unfold select_data.
  destruct (bool_decide_reflect (dimensions (shape p) = dimensions (shape t)))
    as [Ept|].
  - rewrite length_zip_with, length_zip, Hp, Ht, Hf.
    unfold ElementsIn. rewrite Ept, <- Etf. lia.
  - destruct (_ =? 0); [|done]. by rewrite Hf, <- Etf.
Qed.

Lemma collect_Ok {A B} (f : A -> Result B) (xs : list A) (ys : list B) :
  collect (map f xs) = Ok ys -> Forall2 (fun x y => f x = Ok y) xs ys.
Proof.
  revert ys. induction xs as [|x xs IH]; intros ys H; simpl in H.
  - injection H as <-. constructor.
  - unfold_monad. destruct (f x) as [y|] eqn:Hx; [|discriminate].
    destruct (collect (map f xs)) as [ys'|]; [|discriminate].
    injection H as <-. constructor; [done | by apply IH].
Qed.

(** Every node that has a value has a well-formed one. *)
Lemma Evaluate_wf (op : XlaOp) (l : Literal) :
  Evaluate op = Ok l -> wf_literal l.
Proof.
  revert l. induction op as
    [c|x sizes IH|x sizes IH|x v cfg IHx IHv|x a b c d IH|xs dimension IH
    |p t f IHp IHt IHf] using XlaOp_nested_ind; intros l H; simpl in H.
  - unfold_monad. destruct (valid_literal c) eqn:Hv; [|discriminate].
    injection H as <-. by apply valid_literal_wf.
  - apply bindR_Ok in H as (lx & Hx & H). eapply EvalReshape_wf; eauto.
  - apply bindR_Ok in H as (lx & Hx & H). eapply EvalBroadcast_wf; eauto.
  - apply bindR_Ok in H as (lx & Hx & H). apply bindR_Ok in H as (lv & Hv & H).
    apply (EvalPad_wf lx lv _ cfg); auto.
  - apply bindR_Ok in H as (lx & Hx & H). eapply EvalSliceInDim_wf; eauto.
  - apply bindR_Ok in H as (ls & Hls & H).
    eapply EvalConcatInDim_wf; [|exact H].
    apply collect_Ok in Hls. clear H.
    induction Hls as [|x y xs ys Hx _ IHls]; [constructor|].
    inversion IH; subst. constructor; [eauto | by apply IHls].
  - apply bindR_Ok in H as (lp & Hp & H). apply bindR_Ok in H as (lt & Ht & H).
    apply bindR_Ok in H as (lf & Hf & H).
    apply (EvalSelect_wf lp lt lf); auto.
Qed.

(** ** Running lowering steps *)

Lemma vector_at_lookup (v : list Z) (i x : Z) :
  0 <= i -> v !! Z.to_nat i = Some x -> vector_at v i = Ok x.
Proof.
  intros Hi Hx. unfold vector_at. destruct (Z.ltb_spec i 0); [lia|].
  by rewrite Hx.
Qed.

Lemma AddInstruction_run (op : XlaOp) (b : XlaBuilder) :
  exists b', AddInstruction op b = (Ok op, b').
Proof. unfold AddInstruction. destruct (Evaluate op); eauto. Qed.

Lemma AddInstruction_accepted (op : XlaOp) (l : Literal) (b : XlaBuilder) :
  Evaluate op = Ok l ->
  AddInstruction op b =
    (Ok op, mkBuilder (instructions b ++ [op]) (first_error b)).
Proof. intros H. unfold AddInstruction. by rewrite H. Qed.

(** Steps through every pending [AddInstruction] of the goal. *)
Ltac run_instructions :=
  repeat match goal with
         | |- context [AddInstruction ?op ?b0] =>
             let b' := fresh "b" in
             let E := fresh "E" in
             destruct (AddInstruction_run op b0) as [b' E]; rewrite E
         end.

(** ** BuildUnselect, fast path *)

Lemma BuildUnselect_fast_path (target source : XlaOp) (ts ss : Shape)
    (dim start end_ stride n : Z) (b : XlaBuilder) :
  GetShape target = Ok ts -> GetShape source = Ok ss ->
  0 <= dim ->
  dimensions ts !! Z.to_nat dim = Some n ->
  dimensions ss !! Z.to_nat dim = Some n ->
  BuildUnselect target source dim start end_ stride b =
    if (start =? 0) && (stride =? 1) && (end_ =? n) then (Ok source, b)
    else (Err FullCoverageWindowMismatch, b).
Proof.
  intros Ht Hs Hdim Htn Hsn. unfold BuildUnselect, XlaHelpers.ShapeOfXlaOp.
  unfold_monad. rewrite Ht, Hs.
  rewrite (vector_at_lookup _ _ _ Hdim Htn), (vector_at_lookup _ _ _ Hdim Hsn).
  rewrite Z.eqb_refl.
  destruct (start =? 0), (stride =? 1), (end_ =? n); reflexivity.
Qed.

(** C7. When target and source have the same extent n along dim, Unselect
    returns the source handle itself and leaves the builder as it was (no
    pad, mask or select is emitted) if start = 0, stride = 1 and end = n; any
    other window aborts with FullCoverageWindowMismatch, the builder still
    as it was. *)
Theorem BuildUnselect_full_coverage (target source : XlaOp) (ts ss : Shape)
    (dim start end_ stride n : Z) (b : XlaBuilder) :
  GetShape target = Ok ts -> GetShape source = Ok ss ->
  0 <= dim ->
  dimensions ts !! Z.to_nat dim = Some n ->
  dimensions ss !! Z.to_nat dim = Some n ->
  (start = 0 /\ stride = 1 /\ end_ = n ->
   BuildUnselect target source dim start end_ stride b = (Ok source, b)) /\
  (~ (start = 0 /\ stride = 1 /\ end_ = n) ->
   BuildUnselect target source dim start end_ stride b =
     (Err FullCoverageWindowMismatch, b)).
Proof.
  intros Ht Hs Hdim Htn Hsn.
  rewrite (BuildUnselect_fast_path _ _ _ _ _ _ _ _ _ b Ht Hs Hdim Htn Hsn).
  destruct (Z.eqb_spec start 0), (Z.eqb_spec stride 1), (Z.eqb_spec end_ n);
    simpl; split; intros H; try reflexivity; try tauto; exfalso; tauto.
Qed.

Lemma BuildUnselect_full_coverage_witness :
  BuildUnselect (constant S32 [3] [1; 2; 3]) (constant S32 [3] [7; 8; 9])
                0 0 3 1 empty_builder
  = (Ok (constant S32 [3] [7; 8; 9]), empty_builder) /\
  BuildUnselect (constant S32 [3] [1; 2; 3]) (constant S32 [3] [7; 8; 9])
                0 1 3 1 empty_builder
  = (Err FullCoverageWindowMismatch, empty_builder).
Proof.
  split.
  - apply (BuildUnselect_full_coverage _ _ (mkShape S32 [3]) (mkShape S32 [3])
             0 0 3 1 3 empty_builder); try reflexivity; lia.
  - apply (BuildUnselect_full_coverage _ _ (mkShape S32 [3]) (mkShape S32 [3])
             0 1 3 1 3 empty_builder); try reflexivity; lia.
Defined.

(** ** BuildUnselect, general path *)

Lemma unselect_padding_mismatch (ts ss : Shape) (dim start stride : Z)
    (positions : list Z) (i : Z) (a c : Z) :
  Forall (fun k => 0 <= k < Z.of_nat (rank ts)) positions ->
  rank ss = rank ts ->
  i ∈ positions -> i <> dim ->
  dimensions ts !! Z.to_nat i = Some a ->
  dimensions ss !! Z.to_nat i = Some c -> a <> c ->
  unselect_padding ts ss dim start stride positions = Err ShapeMismatch.
Proof.
  intros Hpos Hrank Hi Hne Ha Hc Hac.
  induction Hpos as [|k positions Hk _ IH]; [by apply elem_of_nil in Hi|].
  simpl.
  assert (exists tk, dimensions ts !! Z.to_nat k = Some tk) as [tk Htk].
  { apply lookup_lt_is_Some. unfold rank in Hk. lia. }
  assert (exists sk, dimensions ss !! Z.to_nat k = Some sk) as [sk Hsk].
  { apply lookup_lt_is_Some. unfold rank in *. lia. }
  rewrite (vector_at_lookup _ _ _ (proj1 Hk) Htk),
    (vector_at_lookup _ _ _ (proj1 Hk) Hsk).
  unfold_monad.
  destruct (Z.eqb_spec k dim) as [->|Hkd].
  - apply elem_of_cons in Hi as [->|Hi]; [done|]. by rewrite IH.
  - destruct (Z.eqb_spec tk sk) as [->|]; [|done].
    apply elem_of_cons in Hi as [->|Hi]; [congruence|]. by rewrite IH.
Qed.

Lemma unselect_padding_config (ts ss : Shape) (dim start stride tn sn : Z)
    (k len : nat) :
  dimensions ts !! Z.to_nat dim = Some tn ->
  dimensions ss !! Z.to_nat dim = Some sn ->
  0 <= dim ->
  (k + len = rank ts)%nat -> rank ss = rank ts ->
  (forall i, i <> Z.to_nat dim -> dimensions ss !! i = dimensions ts !! i) ->
  unselect_padding ts ss dim start stride (seqZ (Z.of_nat k) (Z.of_nat len)) =
    Ok (drop k (unselect_config (rank ts) dim start stride tn sn)).
Proof.
  intros Htn Hsn Hdim Hk Hrank Hothers. revert k Hk.
  induction len as [|len IH]; intros k Hk.
  - simpl. rewrite drop_ge; [done|].
    unfold unselect_config. rewrite length_insert, length_replicate. lia.
  - rewrite seqZ_cons by lia. simpl.
    replace (Z.succ (Z.of_nat k)) with (Z.of_nat (S k)) by lia.
    replace (Z.pred (Z.of_nat (S len))) with (Z.of_nat len) by lia.
    rewrite IH by lia. unfold_monad.
    assert (Hcfg : forall p,
              unselect_config (rank ts) dim start stride tn sn !! k = Some p ->
              drop k (unselect_config (rank ts) dim start stride tn sn) =
              p :: drop (S k) (unselect_config (rank ts) dim start stride tn sn)).
    { intros p Hp. by rewrite (drop_S _ _ _ Hp). }
    destruct (Z.eqb_spec (Z.of_nat k) dim) as [<-|Hkd].
    + rewrite Nat2Z.id in *.
      rewrite (vector_at_lookup _ _ sn), (vector_at_lookup _ _ tn);
        try lia; try (by rewrite Nat2Z.id).
      erewrite Hcfg; [done|]. unfold unselect_config. rewrite Nat2Z.id.
      apply list_lookup_insert_eq. rewrite length_replicate. lia.
    + assert (Hkn : k <> Z.to_nat dim) by lia.
      assert (exists tk, dimensions ts !! k = Some tk) as [tk Htk].
      { apply lookup_lt_is_Some. unfold rank in Hk. lia. }
      rewrite (vector_at_lookup _ _ tk), (vector_at_lookup _ _ tk);
        try lia; rewrite ?Nat2Z.id; try done.
      2:{ by rewrite Hothers. }
      rewrite Z.eqb_refl.
      erewrite Hcfg; [done|]. unfold unselect_config.
      rewrite list_lookup_insert_ne by lia.
      apply lookup_replicate_2. lia.
Qed.

Lemma seqZ_rank_in_range (r : nat) :
  Forall (fun k => 0 <= k < Z.of_nat r) (seqZ 0 (Z.of_nat r)).
Proof. apply Forall_forall. intros k Hk. apply elem_of_seqZ in Hk. lia. Qed.

(** C1. The general path does not always return a select over a padded
    source of the target's extent.  For a target of shape [5], an empty
    source (shape [0]), dim = 0 and the consistent window start = 5, end = 5,
    stride = 2, the high edge padding is 5 - (5 + 0 + (0 - 1) * (2 - 1)) = 1:
    the padded source has extent 6, not 5.  The builder accepts the two
    constants, the broadcast and the two pads, rejects the select, and holds
    an error; the handle BuildUnselect returns has no value. *)
Theorem BuildUnselect_general_path_empty_source :
  let target := constant S32 [5] [0; 0; 0; 0; 0] in
  let source := constant S32 [0] [] in
  let cfg := [mkPadding 5 1 1] in
  let source_true := OpBroadcast (constant PRED [] [1]) [0] in
  let mask := OpPad source_true (constant PRED [] [0]) cfg in
  let padded_source := OpPad source (constant S32 [] [0]) cfg in
  GetShape target = Ok (mkShape S32 [5]) /\
  GetShape source = Ok (mkShape S32 [0]) /\
  BuildUnselect target source 0 5 5 2 empty_builder =
    (Ok (OpSelect mask padded_source target),
     mkBuilder
       [constant PRED [] [1]; source_true; constant PRED [] [0];
        constant S32 [] [0]; padded_source; mask]
       (Some InvalidArgument)) /\
  GetShape padded_source = Ok (mkShape S32 [6]) /\
  GetShape mask = Ok (mkShape PRED [6]) /\
  Evaluate (OpSelect mask padded_source target) = Err InvalidArgument.
Proof. repeat split. Qed.

Lemma BuildUnselect_general_path_mismatch (target source : XlaOp)
    (ts ss : Shape) (dim start end_ stride tn sn : Z) (i : nat) (a c : Z)
    (b : XlaBuilder) :
  GetShape target = Ok ts -> GetShape source = Ok ss ->
  0 <= dim ->
  dimensions ts !! Z.to_nat dim = Some tn ->
  dimensions ss !! Z.to_nat dim = Some sn ->
  tn <> sn -> rank ss = rank ts ->
  i <> Z.to_nat dim ->
  dimensions ts !! i = Some a -> dimensions ss !! i = Some c -> a <> c ->
  (BuildUnselect target source dim start end_ stride b).1 = Err ShapeMismatch.
Proof.
  intros Ht Hs Hdim Htn Hsn Hne Hrank Hi Ha Hc Hac.
  unfold BuildUnselect, XlaHelpers.ShapeOfXlaOp. unfold_monad.
  rewrite Ht, Hs.
  rewrite (vector_at_lookup _ _ _ Hdim Htn), (vector_at_lookup _ _ _ Hdim Hsn).
  destruct (Z.eqb_spec tn sn); [done|].
  unfold XlaHelpers.ScalarBroadcast, XlaHelpers.ScalarValue,
    xla.ConstantLiteral, xla.Broadcast, GetDevicePrimitiveType.
  unfold_monad.
  run_instructions.
  rewrite (unselect_padding_mismatch ts ss dim start stride _ (Z.of_nat i) a c);
    try done; rewrite ?Nat2Z.id; try done; try lia.
  - apply seqZ_rank_in_range.
  - apply elem_of_seqZ. apply lookup_lt_Some in Ha. unfold rank. lia.
Qed.

(** C10. The fast path of Unselect is taken on the sole ground that target
    and source have the same extent along dim: with start = 0, stride = 1 and
    end = that extent the source handle is returned whatever the other
    extents are, whereas the general path aborts with ShapeMismatch as soon
    as another extent differs.  So there are a target and a source that
    differ in another dimension for which Unselect returns a node whose
    shape is not the target's. *)
Theorem BuildUnselect_fast_path_unchecked :
  (forall (target source : XlaOp) (ts ss : Shape) (dim n : Z) (b : XlaBuilder),
     GetShape target = Ok ts -> GetShape source = Ok ss ->
     0 <= dim ->
     dimensions ts !! Z.to_nat dim = Some n ->
     dimensions ss !! Z.to_nat dim = Some n ->
     BuildUnselect target source dim 0 n 1 b = (Ok source, b))
  /\
  (forall (target source : XlaOp) (ts ss : Shape)
          (dim start end_ stride tn sn : Z) (i : nat) (a c : Z)
          (b : XlaBuilder),
     GetShape target = Ok ts -> GetShape source = Ok ss ->
     0 <= dim ->
     dimensions ts !! Z.to_nat dim = Some tn ->
     dimensions ss !! Z.to_nat dim = Some sn ->
     tn <> sn -> rank ss = rank ts ->
     i <> Z.to_nat dim ->
     dimensions ts !! i = Some a -> dimensions ss !! i = Some c -> a <> c ->
     (BuildUnselect target source dim start end_ stride b).1 =
       Err ShapeMismatch)
  /\
  (exists (target source : XlaOp) (ts ss : Shape) (dim n : Z),
     GetShape target = Ok ts /\ GetShape source = Ok ss /\
     dimensions ts !! Z.to_nat dim = Some n /\
     dimensions ss !! Z.to_nat dim = Some n /\
     dimensions ts !! 0%nat <> dimensions ss !! 0%nat /\
     BuildUnselect target source dim 0 n 1 empty_builder =
       (Ok source, empty_builder) /\
     GetShape source <> GetShape target).
Proof.
  split; [|split].
  - intros target source ts ss dim n b Ht Hs Hdim Htn Hsn.
    rewrite (BuildUnselect_fast_path _ _ _ _ _ _ _ _ _ b Ht Hs Hdim Htn Hsn).
    by rewrite !Z.eqb_refl.
  - intros. eapply BuildUnselect_general_path_mismatch; eauto.
  - exists (constant S32 [2; 3] [1; 2; 3; 4; 5; 6]),
      (constant S32 [5; 3] (replicate 15 7)),
      (mkShape S32 [2; 3]), (mkShape S32 [5; 3]), 1, 3.
    repeat split; try reflexivity; discriminate.
Qed.

Lemma BuildUnselect_fast_path_unchecked_witness :
  BuildUnselect (constant S32 [2; 3] [1; 2; 3; 4; 5; 6])
                (constant S32 [5; 3] (replicate 15 7)) 1 0 3 1 empty_builder
  = (Ok (constant S32 [5; 3] (replicate 15 7)), empty_builder) /\
  (BuildUnselect (constant S32 [2; 3] [1; 2; 3; 4; 5; 6])
                 (constant S32 [5; 2] (replicate 10 7)) 1 0 2 1
                 empty_builder).1
  = Err ShapeMismatch.
Proof.
  split.
  - apply (proj1 BuildUnselect_fast_path_unchecked _ _
             (mkShape S32 [2; 3]) (mkShape S32 [5; 3]) 1 3 empty_builder);
      try reflexivity; lia.
  - apply (proj1 (proj2 BuildUnselect_fast_path_unchecked)
             (constant S32 [2; 3] [1; 2; 3; 4; 5; 6])
             (constant S32 [5; 2] (replicate 10 7))
             (mkShape S32 [2; 3]) (mkShape S32 [5; 2]) 1 0 2 1 3 2 0%nat 2 5
             empty_builder); try reflexivity; try lia; discriminate.
Defined.

(** ** ComputeSplitCount and BuildSplit *)

Lemma split_count_loop_acc (sizes : list Z) (dim_size : Z) (count : nat) :
  split_count_loop sizes dim_size count =
    (count + split_count_loop sizes dim_size 0)%nat.
Proof.
  revert dim_size count. induction sizes as [|size rest IH];
    intros dim_size count; simpl; [lia|].
  destruct (size >? dim_size); [lia|].
  rewrite (IH _ (S count)), (IH _ 1%nat). lia.
Qed.

Lemma ComputeSplitCount_cons (dim_size size : Z) (rest : list Z) :
  ComputeSplitCount dim_size (size :: rest) =
    if size >? dim_size then 0%nat
    else S (ComputeSplitCount (dim_size - size) rest).
Proof.
  unfold ComputeSplitCount. simpl. destruct (size >? dim_size); [done|].
  by rewrite split_count_loop_acc.
Qed.

Lemma ComputeSplitCount_le (dim_size : Z) (sizes : list Z) :
  (ComputeSplitCount dim_size sizes <= length sizes)%nat.
Proof.
  revert dim_size. induction sizes as [|size rest IH]; intros dim_size;
    [done|].
  rewrite ComputeSplitCount_cons. simpl.
  destruct (size >? dim_size); [lia|]. specialize (IH (dim_size - size)). lia.
Qed.

(** Every size in the counted prefix fits in what is left of the dimension. *)
Lemma ComputeSplitCount_fits (dim_size : Z) (sizes : list Z) (i : nat)
    (size : Z) :
  (i < ComputeSplitCount dim_size sizes)%nat -> sizes !! i = Some size ->
  size <= dim_size - sum_sizes (take i sizes).
Proof.
  revert dim_size i. induction sizes as [|x rest IH]; intros dim_size i;
    [done|].
  rewrite ComputeSplitCount_cons.
  destruct (Z.gtb_spec x dim_size); [lia|].
  destruct i as [|i]; simpl; intros Hi Hs.
  - injection Hs as <-. lia.
  - specialize (IH (dim_size - x) i ltac:(lia) Hs). unfold sum_sizes in *. lia.
Qed.

(** The size the count stops on, if any, does not fit. *)
Lemma ComputeSplitCount_stops (dim_size : Z) (sizes : list Z) (size : Z) :
  sizes !! ComputeSplitCount dim_size sizes = Some size ->
  size > dim_size - sum_sizes (take (ComputeSplitCount dim_size sizes) sizes).
Proof.
  revert dim_size. induction sizes as [|x rest IH]; intros dim_size; [done|].
  rewrite ComputeSplitCount_cons.
  destruct (Z.gtb_spec x dim_size); simpl.
  - intros [= <-]. lia.
  - intros Hs. specialize (IH (dim_size - x) Hs). unfold sum_sizes in *. lia.
Qed.

Lemma length_split_chunks (input : XlaOp) (dim index : Z) (sizes : list Z) :
  length (split_chunks input dim index sizes) = length sizes.
Proof.
  revert index. induction sizes as [|x rest IH]; intros index; simpl;
    [done | by rewrite IH].
Qed.

Lemma split_chunks_lookup (input : XlaOp) (dim index : Z) (sizes : list Z)
    (i : nat) (size : Z) :
  sizes !! i = Some size ->
  split_chunks input dim index sizes !! i =
    Some (OpSliceInDim input (index + sum_sizes (take i sizes))
            (index + sum_sizes (take i sizes) + size) 1 dim).
Proof.
  revert index i. induction sizes as [|x rest IH]; intros index i; [done|].
  destruct i as [|i]; simpl; intros Hs.
  - injection Hs as <-. by rewrite Z.add_0_r.
  - rewrite (IH _ _ Hs). do 2 f_equal; unfold sum_sizes; lia.
Qed.

Lemma split_loop_run (input : XlaOp) (dim dim_size : Z) (sizes : list Z)
    (index : Z) (splits : list XlaOp) (b : XlaBuilder) :
  exists b',
    split_loop input dim dim_size sizes index splits b =
      (Ok (splits ++
           split_chunks input dim index
             (take (ComputeSplitCount (dim_size - index) sizes) sizes)), b').
Proof.
  revert index splits b.
  induction sizes as [|size rest IH]; intros index splits b; simpl.
  - exists b. by rewrite app_nil_r.
  - rewrite ComputeSplitCount_cons.
    destruct (Z.gtb_spec (index + size) dim_size) as [Hgt|Hle];
      destruct (Z.gtb_spec size (dim_size - index)); try lia.
    + exists b. by rewrite app_nil_r.
    + unfold xla.SliceInDim. unfold_monad.
      destruct (AddInstruction_run
                  (OpSliceInDim input index (index + size) 1 dim) b)
        as [b1 ->].
      destruct (IH (index + size)
                  (splits ++ [OpSliceInDim input index (index + size) 1 dim])
                  b1) as [b' ->].
      exists b'. simpl. rewrite <- app_assoc. simpl.
      by replace (dim_size - (index + size)) with (dim_size - index - size)
        by lia.
Qed.

Lemma BuildSplit_run (input : XlaOp) (s : Shape) (split_sizes : list Z)
    (dim dim_size : Z) (b : XlaBuilder) :
  GetShape input = Ok s ->
  0 <= dim -> dimensions s !! Z.to_nat dim = Some dim_size ->
  exists b',
    BuildSplit input split_sizes dim b =
      (Ok (split_chunks input dim 0
             (take (ComputeSplitCount dim_size split_sizes) split_sizes)), b').
Proof.
  intros Hs Hdim Hn.
  destruct (split_loop_run input dim dim_size split_sizes 0 [] b) as [b' Hrun].
  exists b'.
  unfold BuildSplit, XlaHelpers.SizesOfXlaOp, XlaHelpers.ShapeOfXlaOp.
  unfold_monad. rewrite Hs, (vector_at_lookup _ _ _ Hdim Hn).
  rewrite Hrun, Z.sub_0_r. done.
Qed.


(** ** Reshape, squeeze and unsqueeze *)

Lemma GetShape_Evaluate (op : XlaOp) (x : Literal) :
  Evaluate op = Ok x -> GetShape op = Ok (shape x).
Proof. intros H. unfold GetShape. by rewrite H. Qed.

Lemma Evaluate_Reshape (input : XlaOp) (x : Literal) (sizes : list Z) :
  Evaluate input = Ok x ->
  Forall (Z.le 0) sizes -> Multiply sizes = ElementsIn (shape x) ->
  Evaluate (OpReshape input sizes) =
    Ok (mkLiteral (mkShape (element_type (shape x)) sizes) (data x)).
Proof.
  intros Hx Hsizes Hcount. simpl. rewrite Hx. unfold_monad.
  unfold EvalReshape, InferReshapeShape. unfold_monad.
  apply valid_dimensions_Forall in Hsizes. rewrite Hsizes, <- Hcount.
  by rewrite Z.eqb_refl.
Qed.

Lemma take_delete (l : list Z) (i : nat) : take i (delete i l) = take i l.
Proof.
  revert l. induction i as [|i IH]; intros [|x l]; simpl; try done.
  by rewrite IH.
Qed.

Lemma drop_delete (l : list Z) (i : nat) : drop i (delete i l) = drop (S i) l.
Proof.
  revert l. induction i as [|i IH]; intros [|x l]; simpl; done.
Qed.

Lemma unsqueeze_delete (l : list Z) (i : nat) :
  l !! i = Some 1 -> take i (delete i l) ++ 1 :: drop i (delete i l) = l.
Proof. intros Hi. rewrite take_delete, drop_delete. by apply take_drop_middle. Qed.

Lemma BuildUnsqueeze_run (input : XlaOp) (x : Literal) (dim : nat)
    (b : XlaBuilder) :
  Evaluate input = Ok x -> (dim <= rank (shape x))%nat ->
  let dims := dimensions (shape x) in
  exists r b',
    BuildUnsqueeze input dim b = (Ok r, b') /\
    r = OpReshape input (take dim dims ++ 1 :: drop dim dims) /\
    Evaluate r =
      Ok (mkLiteral (mkShape (element_type (shape x))
                       (take dim dims ++ 1 :: drop dim dims)) (data x)).
Proof.
  intros Hx Hdim dims.
  unfold BuildUnsqueeze, XlaHelpers.SizesOfXlaOp, XlaHelpers.ShapeOfXlaOp,
    BuildUnsqueezeDimensions, xla.Reshape, ToVector.
  unfold_monad. rewrite (GetShape_Evaluate _ _ Hx). fold dims.
  rewrite bool_decide_eq_true_2 by done.
  destruct (AddInstruction_run
              (OpReshape input (take dim dims ++ 1 :: drop dim dims)) b)
    as [b' ->].
  eexists _, b'. split; [done|]. split; [done|].
  pose proof (Evaluate_wf _ _ Hx) as [Hnn _].
  apply Evaluate_Reshape; [done | | apply Multiply_unsqueeze].
  apply Forall_app. split; [by apply Forall_take|].
  constructor; [lia | by apply Forall_drop].
Qed.

(** C8. For dim below the rank of input: when input.shape[dim] is not 1,
    SqueezeTrivialDimension returns the input handle and emits nothing, and
    BuildUnsqueeze at dim then yields the input's elements under its shape
    with an extent 1 inserted at dim; when input.shape[dim] is 1,
    SqueezeTrivialDimension reshapes to the shape with dimension dim removed
    and BuildUnsqueeze at dim then restores the original shape (and
    value). *)
Theorem squeeze_then_unsqueeze (input : XlaOp) (x : Literal) (dim : nat)
    (n : Z) (b : XlaBuilder) :
  Evaluate input = Ok x ->
  dimensions (shape x) !! dim = Some n ->
  let dims := dimensions (shape x) in
  let type := element_type (shape x) in
  (n <> 1 ->
   SqueezeTrivialDimension input dim b = (Ok input, b) /\
   exists r b',
     BuildUnsqueeze input dim b = (Ok r, b') /\
     Evaluate r =
       Ok (mkLiteral (mkShape type (take dim dims ++ 1 :: drop dim dims))
             (data x)))
  /\
  (n = 1 ->
   exists squeezed b1 r b2,
     SqueezeTrivialDimension input dim b = (Ok squeezed, b1) /\
     Evaluate squeezed =
       Ok (mkLiteral (mkShape type (delete dim dims)) (data x)) /\
     BuildUnsqueeze squeezed dim b1 = (Ok r, b2) /\
     Evaluate r = Ok x /\ GetShape r = GetShape input).
Proof.
  intros Hx Hn dims type.
  assert (Hlt : (dim < length dims)%nat) by (eapply lookup_lt_Some; eauto).
  pose proof (Evaluate_wf _ _ Hx) as [Hnn _].
  split; intros Hn1.
  - split.
    + unfold SqueezeTrivialDimension, XlaHelpers.SizesOfXlaOp,
        XlaHelpers.ShapeOfXlaOp.
      unfold_monad. rewrite (GetShape_Evaluate _ _ Hx). fold dims.
      rewrite bool_decide_eq_true_2 by done.
      rewrite bool_decide_eq_true_2; [done|]. fold dims in Hn. congruence.
    + destruct (BuildUnsqueeze_run input x dim b Hx) as (r & b' & Hr & _ & Hv);
        [unfold rank; fold dims; lia|].
      by exists r, b'.
  - subst n.
    assert (Hsq : Evaluate (OpReshape input (delete dim dims)) =
                  Ok (mkLiteral (mkShape type (delete dim dims)) (data x))).
    { apply Evaluate_Reshape; [done | by apply Forall_delete |].
      by apply Multiply_delete_one. }
    destruct (AddInstruction_run (OpReshape input (delete dim dims)) b)
      as [b1 Hb1].
    destruct (BuildUnsqueeze_run _ _ dim b1 Hsq) as (r & b2 & Hr & _ & Hv).
    { unfold rank. simpl. rewrite length_delete by (by exists 1). lia. }
    simpl in Hv. rewrite (unsqueeze_delete dims dim Hn) in Hv.
    exists (OpReshape input (delete dim dims)), b1, r, b2.
    assert (Ex : mkLiteral (mkShape type dims) (data x) = x).
    { unfold type, dims. by destruct x as [[? ?] ?]. }
    rewrite Ex in Hv.
    split; [|split; [done|split; [done|split; [done|]]]].
    + unfold SqueezeTrivialDimension, XlaHelpers.SizesOfXlaOp,
        XlaHelpers.ShapeOfXlaOp, xla.Reshape.
      unfold_monad. rewrite (GetShape_Evaluate _ _ Hx). fold dims.
      rewrite bool_decide_eq_true_2 by done.
      rewrite bool_decide_eq_false_2; [done|]. intros Hc. by apply Hc.
    + by rewrite (GetShape_Evaluate _ _ Hv), (GetShape_Evaluate _ _ Hx).
Qed.

Lemma squeeze_then_unsqueeze_witness :
  (exists r b',
     BuildUnsqueeze (constant S32 [2; 3] [1; 2; 3; 4; 5; 6]) 1 empty_builder
       = (Ok r, b') /\
     Evaluate r = Ok (mkLiteral (mkShape S32 [2; 1; 3]) [1; 2; 3; 4; 5; 6]))
  /\
  (exists squeezed b1 r b2,
     SqueezeTrivialDimension (constant S32 [2; 1; 3] [1; 2; 3; 4; 5; 6]) 1
       empty_builder = (Ok squeezed, b1) /\
     Evaluate squeezed =
       Ok (mkLiteral (mkShape S32 [2; 3]) [1; 2; 3; 4; 5; 6]) /\
     BuildUnsqueeze squeezed 1 b1 = (Ok r, b2) /\
     Evaluate r = Ok (mkLiteral (mkShape S32 [2; 1; 3]) [1; 2; 3; 4; 5; 6])).
Proof.
  split.
  - destruct (squeeze_then_unsqueeze (constant S32 [2; 3] [1; 2; 3; 4; 5; 6])
                (mkLiteral (mkShape S32 [2; 3]) [1; 2; 3; 4; 5; 6]) 1 3
                empty_builder eq_refl eq_refl) as [H _].
    destruct H as [_ H]; [lia | exact H].
  - destruct (squeeze_then_unsqueeze
                (constant S32 [2; 1; 3] [1; 2; 3; 4; 5; 6])
                (mkLiteral (mkShape S32 [2; 1; 3]) [1; 2; 3; 4; 5; 6]) 1 1
                empty_builder eq_refl eq_refl) as [_ H].
    destruct (H eq_refl) as (sq & b1 & r & b2 & H1 & H2 & H3 & H4 & _).
    exists sq, b1, r, b2. auto.
Defined.

(** ** Consecutive rows *)

Lemma concat_rows_take (n k : nat) (l : list Z) :
  concat (map (row k l) (seq 0 n)) = take (n * k) l.
Proof.
  revert l. induction n as [|n IH]; intros l; simpl; [done|].
  rewrite map_row_S, IH. unfold row. simpl. rewrite drop_0.
  apply take_take_drop.
Qed.

Lemma row_drop (k : nat) (l : list Z) (off j : nat) :
  row k l (off + j) = row k (drop (off * k) l) j.
Proof. unfold row. rewrite drop_drop. do 2 f_equal. lia. Qed.

(** Rows [off], [off + 1], ... ([count] of them) are one contiguous run. *)
Lemma concat_rows_range (k : nat) (l : list Z) (off count : nat) :
  concat (map (fun j => row k l (off + j)) (seq 0 count)) =
    take (count * k) (drop (off * k) l).
Proof.
  rewrite <- concat_rows_take. f_equal. apply map_ext. intros j.
  apply row_drop.
Qed.

(** ** BuildResize *)

Lemma slice_data_prefix (n count : Z) (elems : list Z) :
  0 <= count ->
  slice_data 0 [n] 0 1 (Z.to_nat count) elems = take (Z.to_nat count) elems.
Proof.
  intros Hc. simpl. change (Z.to_nat (Multiply [])) with 1%nat.
  rewrite (map_ext _ (row 1 elems)).
  - rewrite concat_rows_take. f_equal. lia.
  - intros j. f_equal. lia.
Qed.

Lemma concat_map_singleton (f : nat -> list Z) (x : Z) (js : list nat) :
  (forall j, j ∈ js -> f j = [x]) ->
  concat (map f js) = replicate (length js) x.
Proof.
  induction js as [|j js IH]; intros H; simpl; [done|].
  rewrite H by left. rewrite IH; [done|]. intros j' Hj'. apply H. by right.
Qed.

Lemma pad_data_high (n high fill : Z) (elems : list Z) :
  length elems = Z.to_nat n -> 0 <= n -> 0 <= high ->
  pad_data [n] [mkPadding 0 high 0] fill elems =
    elems ++ replicate (Z.to_nat high) fill.
Proof.
  intros Hlen Hn Hh. simpl.
  change (Z.to_nat (Multiply [])) with 1%nat.
  assert (E : padded_extent n (mkPadding 0 high 0) = n + high).
  { unfold padded_extent. simpl. lia. }
  rewrite E, Z2Nat.inj_add, seq_app, map_app, concat_app by lia. f_equal.
  - rewrite (map_ext_in _ (row 1 elems)).
    + rewrite concat_rows_take, Nat.mul_1_r, <- Hlen. apply firstn_all.
    + intros j Hj. apply in_seq in Hj. unfold pad_source_index. simpl.
      rewrite Z.sub_0_r, Z.mod_1_r, Z.div_1_r.
      destruct (Z.leb_spec 0 (Z.of_nat j)); [|lia].
      destruct (Z.ltb_spec (Z.of_nat j) n); [|lia]. simpl.
      by rewrite Nat2Z.id.
  - rewrite (concat_map_singleton _ fill).
    + by rewrite length_seq.
    + intros j Hj. apply elem_of_seq in Hj. unfold pad_source_index. simpl.
      rewrite Z.sub_0_r, Z.mod_1_r, Z.div_1_r.
      destruct (Z.leb_spec 0 (Z.of_nat j)); [|lia].
      destruct (Z.ltb_spec (Z.of_nat j) n); [lia|]. done.
Qed.

Lemma Evaluate_flat (input : XlaOp) (x : Literal) :
  Evaluate input = Ok x ->
  Evaluate (OpReshape input [ElementsIn (shape x)]) =
    Ok (mkLiteral (mkShape (element_type (shape x)) [ElementsIn (shape x)])
          (data x)).
Proof.
  intros Hx. pose proof (Evaluate_wf _ _ Hx) as [Hnn _].
  apply Evaluate_Reshape; [done | | ].
  - constructor; [|done]. by apply Multiply_nonneg.
  - rewrite Multiply_cons, Multiply_nil. lia.
Qed.

Lemma Evaluate_SliceInDim_prefix (flat : XlaOp) (type : PrimitiveType)
    (n m : Z) (elems : list Z) :
  Evaluate flat = Ok (mkLiteral (mkShape type [n]) elems) ->
  0 <= m <= n ->
  Evaluate (OpSliceInDim flat 0 m 1 0) =
    Ok (mkLiteral (mkShape type [m]) (take (Z.to_nat m) elems)).
Proof.
  intros Hflat Hm. cbn [Evaluate]. rewrite Hflat. unfold_monad.
  unfold EvalSliceInDim, InferSliceInDimShape. unfold_monad.
  cbn [shape dimensions element_type data].
  change (Z.to_nat 0) with 0%nat. cbn [lookup list_lookup].
  assert (Ext : slice_extent 0 m 1 = m).
  { unfold slice_extent. rewrite Z.div_1_r. lia. }
  rewrite Ext, slice_data_prefix by lia.
  change (0 <=? 0) with true. change (0 <? 1) with true. cbv iota.
  destruct (Z.leb_spec 0 m); [|lia]. destruct (Z.leb_spec m n); [|lia].
  reflexivity.
Qed.

Lemma Evaluate_Pad_high (flat : XlaOp) (type : PrimitiveType)
    (n high : Z) (elems : list Z) :
  Evaluate flat = Ok (mkLiteral (mkShape type [n]) elems) ->
  0 <= high ->
  Evaluate (OpPad flat (constant type [] [0]) [mkPadding 0 high 0]) =
    Ok (mkLiteral (mkShape type [n + high])
          (elems ++ replicate (Z.to_nat high) 0)).
Proof.
  intros Hflat Hh. pose proof (Evaluate_wf _ _ Hflat) as [Hnn Hlen].
  cbn [shape dimensions data] in Hnn, Hlen.
  unfold ElementsIn in Hlen. cbn [dimensions] in Hlen.
  rewrite Multiply_cons, Multiply_nil, Z.mul_1_r in Hlen.
  assert (Hn : 0 <= n) by (by inversion Hnn).
  assert (Hc : Evaluate (constant type [] [0]) =
               Ok (mkLiteral (mkShape type []) [0])) by reflexivity.
  change (Evaluate (OpPad flat (constant type [] [0]) [mkPadding 0 high 0]))
    with (l ← Evaluate flat; f ← Evaluate (constant type [] [0]);
          EvalPad l f [mkPadding 0 high 0]).
  rewrite Hflat, Hc. unfold_monad.
  unfold EvalPad, InferPadShape. unfold_monad.
  cbn [shape dimensions element_type data].
  rewrite !bool_decide_eq_true_2 by done.
  cbn [InferPadDimensions interior_padding]. unfold_monad.
  assert (E : padded_extent n (mkPadding 0 high 0) = n + high).
  { unfold padded_extent. simpl. lia. }
  rewrite E. change (0 <=? 0) with true. cbv iota.
  destruct (Z.leb_spec 0 (n + high)); [|lia].
  cbn [head default]. rewrite pad_data_high by done. reflexivity.
Qed.

(** What BuildResize emits and, for extents that can form a shape, what the
    result holds. *)
Lemma BuildResize_run (input : XlaOp) (x : Literal) (newSizes : list Z)
    (b : XlaBuilder) :
  Evaluate input = Ok x ->
  let n := ElementsIn (shape x) in
  let newCount := Multiply newSizes in
  let type := element_type (shape x) in
  let flat := OpReshape input [n] in
  exists r b',
    BuildResize input newSizes b = (Ok r, b') /\
    r = OpReshape
          (if n >? newCount then OpSliceInDim flat 0 newCount 1 0
           else if newCount >? n then
             OpPad flat (constant type [] [0]) [mkPadding 0 (newCount - n) 0]
           else input)
          newSizes /\
    (Forall (Z.le 0) newSizes ->
     Evaluate r =
       Ok (mkLiteral (mkShape type newSizes)
             (if n >? newCount then take (Z.to_nat newCount) (data x)
              else data x ++ replicate (Z.to_nat (newCount - n)) 0))).
Proof.
  intros Hx n newCount type flat.
  pose proof (Evaluate_wf _ _ Hx) as [Hnn Hlen]. fold n in Hlen.
  pose proof (Multiply_nonneg _ Hnn) as Hn. fold (ElementsIn (shape x)) in Hn.
  fold n in Hn.
  pose proof (Evaluate_flat _ _ Hx) as Hflat. fold n type flat in Hflat.
  unfold BuildResize, XlaHelpers.ShapeOfXlaOp, XlaHelpers.ScalarValue,
    xla.ConstantLiteral, xla.Reshape, xla.SliceInDim, xla.Pad.
  unfold_monad. rewrite (GetShape_Evaluate _ _ Hx). fold n newCount type flat.
  destruct (AddInstruction_run flat b) as [b1 ->].
  destruct (Z.gtb_spec n newCount) as [Hgt|Hle];
    [|destruct (Z.gtb_spec newCount n) as [Hgt|Hle']].
  - destruct (AddInstruction_run (OpSliceInDim flat 0 newCount 1 0) b1)
      as [b2 ->].
    destruct (AddInstruction_run
                (OpReshape (OpSliceInDim flat 0 newCount 1 0) newSizes) b2)
      as [b3 ->].
    eexists _, b3. split; [done|]. split; [done|]. intros Hsizes.
    pose proof (Multiply_nonneg _ Hsizes) as Hm. fold newCount in Hm.
    rewrite (Evaluate_Reshape _ _ _
               (Evaluate_SliceInDim_prefix _ _ _ newCount _ Hflat
                  ltac:(lia))); try done.
    unfold ElementsIn. cbn [shape dimensions].
    rewrite Multiply_cons, Multiply_nil. fold newCount. lia.
  - destruct (AddInstruction_run (OpConstant (mkLiteral (mkShape type []) [0]))
                b1) as [b2 ->].
    fold (constant type [] [0]).
    destruct (AddInstruction_run
                (OpPad flat (constant type [] [0])
                   [mkPadding 0 (newCount - n) 0]) b2) as [b3 ->].
    destruct (AddInstruction_run
                (OpReshape (OpPad flat (constant type [] [0])
                              [mkPadding 0 (newCount - n) 0]) newSizes) b3)
      as [b4 ->].
    eexists _, b4. split; [done|]. split; [done|]. intros Hsizes.
    rewrite (Evaluate_Reshape _ _ _
               (Evaluate_Pad_high _ _ _ (newCount - n) _ Hflat ltac:(lia)));
      try done.
    unfold ElementsIn. cbn [shape dimensions].
    rewrite Multiply_cons, Multiply_nil. fold newCount. lia.
  - destruct (AddInstruction_run (OpReshape input newSizes) b1) as [b2 ->].
    eexists _, b2. split; [done|]. split; [done|]. intros Hsizes.
    assert (E : newCount = n) by lia.
    rewrite (Evaluate_Reshape _ _ _ Hx) by done.
    rewrite E, Z.sub_diag. simpl. by rewrite app_nil_r.
Qed.

(** C9. BuildResize flattens the input to one dimension (row-major order is
    the order of the elements), takes the first newCount elements when
    newCount is smaller than the element count, appends zeros (edge padding
    at the high end only, no interior padding) when it is larger, leaves the
    elements as they are when it is equal, and reshapes to newSizes.  So a
    resize to the input's own shape is the identity, and a resize to more
    elements followed by a resize back to the original element count gives
    the original elements.  The sizes are [xla::int64] values whose product
    the program can take: newCount is the value of
    [Multiply<xla::int64>(size)], and newCount - n that of the program's
    subtraction. *)
Theorem BuildResize_flattens (input : XlaOp) (x : Literal) (newSizes : list Z)
    (b : XlaBuilder) :
  Evaluate input = Ok x ->
  fits_int64 (ElementsIn (shape x)) = true ->
  Multiply_fits newSizes = true ->
  let n := ElementsIn (shape x) in
  let newCount := Multiply newSizes in
  let type := element_type (shape x) in
  let flat := OpReshape input [n] in
  exists r b',
    BuildResize input newSizes b = (Ok r, b') /\
    r = OpReshape
          (if n >? newCount then OpSliceInDim flat 0 newCount 1 0
           else if newCount >? n then
             OpPad flat (constant type [] [0]) [mkPadding 0 (newCount - n) 0]
           else input)
          newSizes /\
    Evaluate flat = Ok (mkLiteral (mkShape type [n]) (data x)) /\
    (Forall (Z.le 0) newSizes ->
     exists elems,
       Evaluate r = Ok (mkLiteral (mkShape type newSizes) elems) /\
       (newCount < n -> elems = take (Z.to_nat newCount) (data x)) /\
       (n < newCount ->
        elems = data x ++ replicate (Z.to_nat (newCount - n)) 0) /\
       (newCount = n -> elems = data x)) /\
    (newSizes = dimensions (shape x) -> Evaluate r = Ok x) /\
    (Forall (Z.le 0) newSizes -> n <= newCount ->
     forall (backSizes : list Z) (b1 : XlaBuilder),
       Forall (Z.le 0) backSizes -> Multiply_fits backSizes = true ->
       Multiply backSizes = n ->
       exists r2 b2,
         BuildResize r backSizes b1 = (Ok r2, b2) /\
         Evaluate r2 = Ok (mkLiteral (mkShape type backSizes) (data x)) /\
         (backSizes = dimensions (shape x) -> Evaluate r2 = Ok x)).
Proof.
  intros Hx _ _ n newCount type flat.
  pose proof (Evaluate_wf _ _ Hx) as [Hnn Hlen]. fold n in Hlen.
  assert (Ex : forall dims, dims = dimensions (shape x) ->
                 mkLiteral (mkShape type dims) (data x) = x).
  { intros dims ->. unfold type. by destruct x as [[? ?] ?]. }
  destruct (BuildResize_run input x newSizes b Hx) as (r & b' & Hrun & Hr & Hv).
  fold n newCount type flat in Hr, Hv.
  exists r, b'.
  split; [done|]. split; [done|]. split; [by apply Evaluate_flat|].
  split; [|split].
  - intros Hsizes. eexists. split; [by apply Hv|].
    destruct (Z.gtb_spec n newCount); repeat split; intros; try lia; try done.
    replace (newCount - n) with 0 by lia. simpl. by rewrite app_nil_r.
  - intros Hsame. rewrite Hv by (by rewrite Hsame).
    assert (E : newCount = n) by (unfold newCount, n, ElementsIn; by rewrite Hsame).
    destruct (Z.gtb_spec n newCount); [lia|].
    rewrite E, Z.sub_diag. simpl. rewrite app_nil_r. f_equal. by apply Ex.
  - intros Hsizes Hle backSizes b1 Hback _ Hcount.
    specialize (Hv Hsizes). destruct (Z.gtb_spec n newCount); [lia|].
    destruct (BuildResize_run r _ backSizes b1 Hv) as (r2 & b2 & Hrun2 & _ & Hv2).
    specialize (Hv2 Hback). cbn [shape data element_type] in Hv2.
    unfold ElementsIn in Hv2. cbn [dimensions] in Hv2.
    fold newCount in Hv2. rewrite Hcount in Hv2.
    assert (Edata :
      (if newCount >? n
       then take (Z.to_nat n) (data x ++ replicate (Z.to_nat (newCount - n)) 0)
       else (data x ++ replicate (Z.to_nat (newCount - n)) 0) ++
            replicate (Z.to_nat (n - newCount)) 0) = data x).
    { destruct (Z.gtb_spec newCount n).
      - by rewrite take_app_length' by done.
      - replace (newCount - n) with 0 by lia. replace (n - newCount) with 0 by lia.
        simpl. by rewrite !app_nil_r. }
    rewrite Edata in Hv2.
    exists r2, b2. split; [done|]. split; [done|].
    intros Hsame. rewrite Hv2. f_equal. by apply Ex.
Qed.

Lemma BuildResize_flattens_witness :
  exists r b',
    BuildResize (constant S32 [2; 3] [1; 2; 3; 4; 5; 6]) [2; 4] empty_builder
      = (Ok r, b') /\
    Evaluate r = Ok (mkLiteral (mkShape S32 [2; 4]) [1; 2; 3; 4; 5; 6; 0; 0]) /\
    exists r2 b2,
      BuildResize r [2; 3] b' = (Ok r2, b2) /\
      Evaluate r2 = Ok (mkLiteral (mkShape S32 [2; 3]) [1; 2; 3; 4; 5; 6]).
Proof.
  destruct (BuildResize_flattens (constant S32 [2; 3] [1; 2; 3; 4; 5; 6])
              (mkLiteral (mkShape S32 [2; 3]) [1; 2; 3; 4; 5; 6]) [2; 4]
              empty_builder eq_refl eq_refl eq_refl)
    as (r & b' & Hrun & _ & _ & Hv & _ & Hback).
  exists r, b'. split; [exact Hrun|]. split.
  - destruct Hv as (elems & Hv & _ & Hpad & _); [repeat constructor; lia|].
    rewrite Hv, Hpad; [reflexivity | vm_compute; reflexivity].
  - destruct (Hback ltac:(repeat constructor; lia) ltac:(vm_compute; discriminate)
                [2; 3] b' ltac:(repeat constructor; lia) eq_refl eq_refl)
      as (r2 & b2 & Hrun2 & Hv2 & _).
    exists r2, b2. split; [exact Hrun2 | exact Hv2].
Defined.

(** ** Split then concatenate, on arrays *)

Lemma sum_sizes_nonneg (sizes : list Z) :
  Forall (Z.le 0) sizes -> 0 <= sum_sizes sizes.
Proof. induction 1; simpl; lia. Qed.

Lemma sum_sizes_cons (size : Z) (rest : list Z) :
  sum_sizes (size :: rest) = size + sum_sizes rest.
Proof. reflexivity. Qed.

Lemma slice_data_0 (n : Z) (dims elems : list Z) (start : Z) (count : nat) :
  0 <= start ->
  slice_data 0 (n :: dims) start 1 count elems =
    take (count * Z.to_nat (Multiply dims))
         (drop (Z.to_nat start * Z.to_nat (Multiply dims)) elems).
Proof.
  intros Hs. cbn [slice_data]. rewrite <- concat_rows_range. f_equal.
  apply map_ext. intros j. f_equal. lia.
Qed.

Lemma slice_data_S (d : nat) (m : Z) (dims elems : list Z) (start : Z)
    (count : nat) :
  slice_data (S d) (m :: dims) start 1 count elems =
    concat (map (fun j => slice_data d dims start 1 count
                            (row (Z.to_nat (Multiply dims)) elems j))
                (seq 0 (Z.to_nat m))).
Proof. reflexivity. Qed.

(** A slice over the whole extent is the array itself. *)
Lemma slice_data_whole (d : nat) (dims elems : list Z) (n : Z) :
  wf_array (dims, elems) -> dims !! d = Some n ->
  slice_data d dims 0 1 (Z.to_nat n) elems = elems.
Proof.
  revert dims elems. induction d as [|d IH]; intros [|m dims] elems Hwf Hn;
    try discriminate.
  - injection Hn as ->. rewrite slice_data_0 by lia. simpl. rewrite drop_0.
    destruct Hwf as [Hf Hl]. simpl in *. inversion Hf; subst.
    rewrite Multiply_cons, Z2Nat_mul in Hl by (by try apply Multiply_nonneg).
    rewrite <- Hl. apply firstn_all.
  - rewrite slice_data_S. simpl in Hn.
    rewrite (map_ext_in _ (row (Z.to_nat (Multiply dims)) elems)).
    + apply concat_rows. destruct Hwf as [Hf Hl]. simpl in *.
      inversion Hf; subst.
      by rewrite Hl, Multiply_cons, Z2Nat_mul by (by try apply Multiply_nonneg).
    + intros j Hj. apply in_seq in Hj. apply IH; [|done].
      apply (wf_row m); [done | lia].
Qed.

Lemma row_concat_map (f : nat -> list Z) (k m j : nat) :
  (forall i, (i < m)%nat -> length (f i) = k) -> (j < m)%nat ->
  row k (concat (map f (seq 0 m))) j = f j.
Proof.
  revert f j. induction m as [|m IH]; intros f j Hlen Hj; [lia|].
  simpl. destruct j as [|j].
  - unfold row. simpl. rewrite drop_0.
    rewrite take_app_length' by (symmetry; apply Hlen; lia). done.
  - rewrite row_S, drop_app_length' by (symmetry; apply Hlen; lia).
    rewrite <- seq_shift, map_map. apply (IH (fun i => f (S i))); [|lia].
    intros i Hi. apply Hlen. lia.
Qed.

Lemma chunk_arrays_inner_row (d : nat) (m : Z) (dims elems : list Z)
    (index : Z) (sizes : list Z) (n : Z) (j : nat) :
  wf_array (m :: dims, elems) -> dims !! d = Some n ->
  0 <= index -> Forall (Z.le 0) sizes -> index + sum_sizes sizes <= n ->
  (j < Z.to_nat m)%nat ->
  map (inner_row j) (chunk_arrays (S d) (m :: dims) elems index sizes) =
    chunk_arrays d dims (row (Z.to_nat (Multiply dims)) elems j) index sizes.
Proof.
  intros Hwf Hn Hindex Hsizes. revert index Hindex.
  induction Hsizes as [|size rest Hsize Hrest IH]; intros index Hindex Hsum Hj;
    [done|].
  rewrite sum_sizes_cons in Hsum.
  pose proof (sum_sizes_nonneg _ Hrest) as Hs.
  cbn [chunk_arrays map]. rewrite IH by lia.
  f_equal. unfold inner_row. cbn [fst snd tail]. f_equal.
  rewrite slice_data_S.
  apply row_concat_map; [|done]. intros i Hi.
  rewrite (length_slice_data _ _ _ _ _ _ n); try done; try lia.
  - by rewrite Z2Nat.id.
  - apply (wf_row m); [done | lia].
Qed.

Lemma chunk_arrays_outer_extent (d : nat) (m : Z) (dims elems : list Z)
    (index size : Z) (rest : list Z) :
  outer_extent (chunk_arrays (S d) (m :: dims) elems index (size :: rest)) = m.
Proof. reflexivity. Qed.

(** Concatenating consecutive chunks gives the slice they cover together. *)
Lemma concat_chunk_arrays (d : nat) (dims elems : list Z) (index : Z)
    (sizes : list Z) (n : Z) :
  wf_array (dims, elems) -> dims !! d = Some n ->
  0 <= index -> Forall (Z.le 0) sizes -> index + sum_sizes sizes <= n ->
  sizes <> [] ->
  concat_data d (chunk_arrays d dims elems index sizes) =
    slice_data d dims index 1 (Z.to_nat (sum_sizes sizes)) elems.
Proof.
  revert dims elems. induction d as [|d IH];
    intros [|m dims] elems Hwf Hn Hindex Hsizes Hsum Hne; try discriminate.
  - clear Hne Hn Hsum. cbn [concat_data]. revert index Hindex.
    induction Hsizes as [|size rest Hsize Hrest IHs]; intros index Hindex.
    + rewrite slice_data_0 by done. done.
    + cbn [chunk_arrays map concat snd].
      rewrite IHs by lia. rewrite !slice_data_0 by lia.
      pose proof (sum_sizes_nonneg _ Hrest) as Hs.
      replace (Z.to_nat (sum_sizes (size :: rest)))
        with (Z.to_nat size + Z.to_nat (sum_sizes rest))%nat
        by (rewrite sum_sizes_cons; lia).
      rewrite Nat.mul_add_distr_r, <- take_take_drop, drop_drop.
      do 3 f_equal. rewrite Z2Nat.inj_add by lia. lia.
  - simpl in Hn. destruct sizes as [|size rest]; [done|].
    cbn [concat_data]. rewrite chunk_arrays_outer_extent, slice_data_S.
    f_equal. apply map_ext_in. intros j Hj. apply in_seq in Hj.
    rewrite (chunk_arrays_inner_row d m dims elems index _ n) by (done || lia).
    apply (IH dims _); try done. apply (wf_row m); [done | lia].
Qed.

(** ** Split then concatenate, on nodes *)

Lemma ComputeSplitCount_all (dim_size : Z) (sizes : list Z) :
  Forall (Z.le 0) sizes -> sum_sizes sizes <= dim_size ->
  ComputeSplitCount dim_size sizes = length sizes.
Proof.
  intros Hsizes. revert dim_size.
  induction Hsizes as [|size rest Hsize Hrest IH]; intros dim_size Hsum;
    [done|].
  rewrite sum_sizes_cons in Hsum.
  pose proof (sum_sizes_nonneg _ Hrest).
  rewrite ComputeSplitCount_cons.
  destruct (Z.gtb_spec size dim_size); [lia|]. simpl. f_equal.
  apply IH. lia.
Qed.

Lemma slice_extent_unit (start size : Z) :
  slice_extent start (start + size) 1 = size.
Proof. unfold slice_extent. rewrite Z.div_1_r. lia. Qed.

Section SplitChunks.
Context (input : XlaOp) (x : Literal) (dim n : Z).
Hypothesis Hinput : Evaluate input = Ok x.
Hypothesis Hdim : 0 <= dim.
Hypothesis Hextent : dimensions (shape x) !! Z.to_nat dim = Some n.

Let dims := dimensions (shape x).
Let type := element_type (shape x).

Lemma Evaluate_chunk (index size : Z) :
  0 <= index -> 0 <= size -> index + size <= n ->
  Evaluate (OpSliceInDim input index (index + size) 1 dim) =
    Ok (mkLiteral (mkShape type (<[Z.to_nat dim := size]> dims))
          (slice_data (Z.to_nat dim) dims index 1 (Z.to_nat size) (data x))).
Proof.
  intros Hindex Hsize Hfit. cbn [Evaluate]. rewrite Hinput.
  unfold_monad. unfold EvalSliceInDim, InferSliceInDimShape. unfold_monad.
  rewrite Hextent, slice_extent_unit.
  destruct (Z.leb_spec 0 dim); [|lia].
  destruct (Z.leb_spec 0 index); [|lia].
  destruct (Z.leb_spec index (index + size)); [|lia].
  destruct (Z.leb_spec (index + size) n); [|lia].
  reflexivity.
Qed.

Lemma Evaluate_split_chunks (sizes : list Z) (index : Z) :
  Forall (Z.le 0) sizes -> 0 <= index -> index + sum_sizes sizes <= n ->
  collect (map Evaluate (split_chunks input dim index sizes)) =
    Ok (map (fun o => mkLiteral (mkShape type o.1) o.2)
          (chunk_arrays (Z.to_nat dim) dims (data x) index sizes)).
Proof.
  intros Hsizes. revert index.
  induction Hsizes as [|size rest Hsize Hrest IH]; intros index Hindex Hsum;
    [done|].
  rewrite sum_sizes_cons in Hsum.
  pose proof (sum_sizes_nonneg _ Hrest).
  cbn [split_chunks map collect chunk_arrays].
  rewrite Evaluate_chunk by (done || lia).
  rewrite IH by lia. reflexivity.
Qed.

End SplitChunks.

(** ** BuildSplit, the instructions it emits *)

(** The loop of BuildSplit on non-negative sizes: every slice it requests is
    accepted, so the builder gains exactly the chunks, in order. *)
Lemma split_loop_accepted (input : XlaOp) (x : Literal) (dim dim_size : Z)
    (sizes : list Z) :
  Evaluate input = Ok x ->
  0 <= dim -> dimensions (shape x) !! Z.to_nat dim = Some dim_size ->
  Forall (Z.le 0) sizes ->
  forall (index : Z) (splits : list XlaOp) (b : XlaBuilder),
    0 <= index <= dim_size ->
    let chunks :=
      split_chunks input dim index
        (take (ComputeSplitCount (dim_size - index) sizes) sizes) in
    split_loop input dim dim_size sizes index splits b =
      (Ok (splits ++ chunks),
       mkBuilder (instructions b ++ chunks) (first_error b)).
Proof.
  intros Hx Hdim Hn Hsizes.
  induction Hsizes as [|size rest Hsize _ IH]; intros index splits b Hindex.
  - cbn. rewrite !app_nil_r. by destruct b.
  - cbn [split_loop]. rewrite ComputeSplitCount_cons.
    destruct (Z.gtb_spec (index + size) dim_size) as [Hgt|Hle];
      destruct (Z.gtb_spec size (dim_size - index)); try lia.
    + cbn. rewrite !app_nil_r. by destruct b.
    + unfold xla.SliceInDim. unfold_monad.
      pose proof (Evaluate_chunk input x dim dim_size Hx Hdim Hn index size
                    ltac:(lia) Hsize Hle) as Hv.
      rewrite (AddInstruction_accepted _ _ b Hv).
      rewrite IH by (cbn [instructions]; lia).
      cbn [instructions first_error take split_chunks].
      replace (dim_size - (index + size)) with (dim_size - index - size)
        by lia.
      by rewrite <- !app_assoc.
Qed.

(** C5 as stated does not hold for every split-size list: a negative size
    never exceeds what is left, so BuildSplit requests a slice that ends
    before it starts.  On the sizes [-1, 2] and an extent of 3 both requests
    are rejected: the builder gains no instruction and holds an error, and
    the two handles returned have no value. *)
Lemma BuildSplit_negative_size_counterexample :
  let input := constant S32 [3] [1; 2; 3] in
  GetShape input = Ok (mkShape S32 [3]) /\
  BuildSplit input [-1; 2] 0 empty_builder =
    (Ok [OpSliceInDim input 0 (-1) 1 0; OpSliceInDim input (-1) 1 1 0],
     mkBuilder [] (Some InvalidArgument)) /\
  Evaluate (OpSliceInDim input 0 (-1) 1 0) = Err InvalidArgument /\
  Evaluate (OpSliceInDim input (-1) 1 1 0) = Err InvalidArgument.
Proof. repeat split. Qed.

(** C5, amended. For an input that has a value, a dimension in range and
    non-negative split sizes (each one small enough for offset + size to be
    an [xla::int64]), BuildSplit walks the sizes in order with a running
    offset and emits, for each size of the prefix counted by
    ComputeSplitCount, the stride-1 sub-range of that length at the current
    offset along dim: the builder gains exactly these slices, in order, each
    one accepted with the elements of its sub-range as value, and no error
    is raised or recorded.  It stops at the first size that exceeds what is
    left of the dimension and returns the chunks produced so far (at most
    one per requested size, possibly none). *)
Theorem BuildSplit_truncates (input : XlaOp) (x : Literal)
    (split_sizes : list Z) (dim dim_size : Z) (b : XlaBuilder) :
  Evaluate input = Ok x ->
  0 <= dim -> dimensions (shape x) !! Z.to_nat dim = Some dim_size ->
  Forall (fun size => 0 <= size /\ dim_size + size <= INT64_MAX) split_sizes ->
  let count := ComputeSplitCount dim_size split_sizes in
  let splits := split_chunks input dim 0 (take count split_sizes) in
  BuildSplit input split_sizes dim b =
    (Ok splits, mkBuilder (instructions b ++ splits) (first_error b)) /\
  length splits = count /\ (count <= length split_sizes)%nat /\
  (forall i size, (i < count)%nat -> split_sizes !! i = Some size ->
     let offset := sum_sizes (take i split_sizes) in
     0 <= offset /\ offset + size <= dim_size /\
     splits !! i = Some (OpSliceInDim input offset (offset + size) 1 dim) /\
     Evaluate (OpSliceInDim input offset (offset + size) 1 dim) =
       Ok (mkLiteral
             (mkShape (element_type (shape x))
                (<[Z.to_nat dim := size]> (dimensions (shape x))))
             (slice_data (Z.to_nat dim) (dimensions (shape x)) offset 1
                (Z.to_nat size) (data x)))) /\
  (forall size, split_sizes !! count = Some size ->
     size > dim_size - sum_sizes (take count split_sizes)).
Proof.
  intros Hx Hdim Hn Hrange count splits.
  assert (Hsizes : Forall (Z.le 0) split_sizes).
  { eapply Forall_impl; [exact Hrange|]. by intros size [? _]. }
  assert (Hn0 : 0 <= dim_size).
  { destruct (Evaluate_wf _ _ Hx) as [Hnn _].
    apply (Forall_lookup_1 _ _ _ _ Hnn Hn). }
  pose proof (ComputeSplitCount_le dim_size split_sizes) as Hle.
  split; [|split; [|split; [done|split]]].
  - unfold BuildSplit, XlaHelpers.SizesOfXlaOp, XlaHelpers.ShapeOfXlaOp.
    unfold_monad.
    rewrite (GetShape_Evaluate _ _ Hx), (vector_at_lookup _ _ _ Hdim Hn).
    rewrite (split_loop_accepted input x dim dim_size split_sizes Hx Hdim Hn
               Hsizes 0 [] b ltac:(lia)).
    by rewrite Z.sub_0_r.
  - unfold splits. rewrite length_split_chunks, length_take. fold count. lia.
  - intros i size Hi Hsize offset.
    pose proof (ComputeSplitCount_fits dim_size split_sizes i size Hi Hsize)
      as Hfit. fold offset in Hfit.
    assert (Hoff : 0 <= offset)
      by (apply sum_sizes_nonneg; by apply Forall_take).
    assert (Hs0 : 0 <= size) by (apply (Forall_lookup_1 _ _ _ _ Hsizes Hsize)).
    split; [done|]. split; [lia|]. split.
    + unfold splits. rewrite (split_chunks_lookup _ _ _ _ i size).
      * rewrite take_take, Nat.min_l by lia. done.
      * rewrite lookup_take_lt by done. done.
    + apply (Evaluate_chunk input x dim dim_size Hx Hdim Hn); lia.
  - apply ComputeSplitCount_stops.
Qed.

Lemma BuildSplit_truncates_witness :
  let input := constant S32 [2; 3] [1; 2; 3; 4; 5; 6] in
  BuildSplit input [1; 5; 1] 1 empty_builder =
    (Ok [OpSliceInDim input 0 1 1 1],
     mkBuilder [OpSliceInDim input 0 1 1 1] None).
Proof.
  intros input.
  assert (Hrange : Forall (fun size => 0 <= size /\ 3 + size <= INT64_MAX)
                     [1; 5; 1])
    by (repeat constructor; unfold INT64_MAX; lia).
  exact (proj1 (BuildSplit_truncates input
                  (mkLiteral (mkShape S32 [2; 3]) [1; 2; 3; 4; 5; 6])
                  [1; 5; 1] 1 3 empty_builder eq_refl ltac:(lia) eq_refl
                  Hrange)).
Defined.

Lemma delete_insert_same (d : nat) (l : list Z) (v : Z) :
  delete d (<[d := v]> l) = delete d l.
Proof.
  revert l. induction d as [|d IH]; intros [|a l]; simpl; try done.
  by rewrite IH.
Qed.

Lemma chunk_arrays_extents (d : nat) (dims elems : list Z) (index : Z)
    (sizes : list Z) :
  map fst (chunk_arrays d dims elems index sizes) =
    map (fun size => <[d := size]> dims) sizes.
Proof.
  revert index. induction sizes as [|size rest IH]; intros index; simpl;
    [done | by rewrite IH].
Qed.

Lemma InferConcatOpShape_chunks (type : PrimitiveType) (dims : list Z)
    (d : nat) (n : Z) (sizes : list Z) :
  dims !! d = Some n -> sizes <> [] -> sum_sizes sizes = n ->
  InferConcatOpShape
    (map (fun size => mkShape type (<[d := size]> dims)) sizes) (Z.of_nat d) =
    Ok (mkShape type dims).
Proof.
  intros Hn Hne Hsum. destruct sizes as [|size rest]; [done|].
  pose proof (lookup_lt_Some _ _ _ Hn) as Hlt.
  cbn [map InferConcatOpShape]. unfold_monad. unfold rank.
  cbn [dimensions element_type]. rewrite length_insert, Nat2Z.id.
  destruct (Z.leb_spec 0 (Z.of_nat d)); [|lia].
  destruct (Z.ltb_spec (Z.of_nat d) (Z.of_nat (length dims))); [|lia].
  cbn [andb].
  assert (Hcompat : forallb
            (concat_compatible d (mkShape type (<[d := size]> dims)))
            (map (fun size0 => mkShape type (<[d := size0]> dims)) rest) = true).
  { apply forallb_forall. intros s Hs.
    apply in_map_iff in Hs as (size' & <- & _).
    unfold concat_compatible, rank. cbn [dimensions element_type].
    rewrite !length_insert, !delete_insert_same.
    by rewrite !bool_decide_eq_true_2. }
  rewrite Hcompat.
  assert (Hsizes : forall l,
            foldr Z.add 0 (map (dimension_at d)
              (map (fun size0 => mkShape type (<[d := size0]> dims)) l)) =
            sum_sizes l).
  { induction l as [|a l IHl]; [done|]. simpl. rewrite IHl.
    unfold dimension_at, extent_at. cbn [dimensions].
    by rewrite list_lookup_insert_eq. }
  specialize (Hsizes (size :: rest)). cbn [map] in Hsizes.
  cbn [map]. rewrite Hsizes, Hsum, list_insert_insert_eq, list_insert_id by done.
  reflexivity.
Qed.

(** C6 as stated does not hold for every split-size list that sums to the
    extent: an empty list on an extent of 0, or a list with a negative
    entry, leaves BuildCat without operands. *)
Lemma split_then_cat_counterexample :
  (GetShape (constant S32 [0; 3] []) = Ok (mkShape S32 [0; 3]) /\
   sum_sizes [] = 0 /\
   BuildSplit (constant S32 [0; 3] []) [] 0 empty_builder =
     (Ok [], empty_builder) /\
   BuildCat [] 0 empty_builder = (Err EmptyInputList, empty_builder))
  /\
  (GetShape (constant S32 [2; 3] [1; 2; 3; 4; 5; 6]) = Ok (mkShape S32 [2; 3]) /\
   sum_sizes [3; -1] = 2 /\
   BuildSplit (constant S32 [2; 3] [1; 2; 3; 4; 5; 6]) [3; -1] 0 empty_builder =
     (Ok [], empty_builder) /\
   BuildCat [] 0 empty_builder = (Err EmptyInputList, empty_builder)).
Proof. repeat split. Qed.

(** C6, amended. For a non-empty list of non-negative split sizes that sum
    to input.shape[dim], BuildSplit returns one chunk per size and BuildCat
    of these chunks along dim has the value of the input: the same shape
    and the same elements. *)
Theorem split_then_cat_roundtrip (input : XlaOp) (x : Literal)
    (split_sizes : list Z) (dim n : Z) (b : XlaBuilder) :
  Evaluate input = Ok x ->
  0 <= dim -> dimensions (shape x) !! Z.to_nat dim = Some n ->
  split_sizes <> [] -> Forall (Z.le 0) split_sizes ->
  sum_sizes split_sizes = n ->
  exists splits b1 r b2,
    BuildSplit input split_sizes dim b = (Ok splits, b1) /\
    length splits = length split_sizes /\
    BuildCat splits dim b1 = (Ok r, b2) /\
    Evaluate r = Ok x.
Proof.
  intros Hx Hdim Hn Hne Hsizes Hsum.
  destruct (BuildSplit_run input (shape x) split_sizes dim n b
              (GetShape_Evaluate _ _ Hx) Hdim Hn) as [b1 Hsplit].
  rewrite ComputeSplitCount_all, firstn_all in Hsplit by (done || lia).
  set (splits := split_chunks input dim 0 split_sizes) in *.
  destruct (AddInstruction_run (OpConcatInDim splits dim) b1) as [b2 Hcat].
  exists splits, b1, (OpConcatInDim splits dim), b2.
  split; [done|]. split; [apply length_split_chunks|]. split.
  - unfold BuildCat, xla.ConcatInDim. unfold_monad.
    rewrite bool_decide_eq_true_2; [done|].
    unfold splits. rewrite length_split_chunks.
    destruct split_sizes; [done | simpl; lia].
  - pose proof (Evaluate_wf _ _ Hx) as Hwf.
    cbn [Evaluate]. unfold splits.
    rewrite (Evaluate_split_chunks input x dim n Hx Hdim Hn) by (done || lia).
    unfold_monad. unfold EvalConcatInDim. unfold_monad.
    rewrite !map_map. cbn [shape dimensions data].
    set (arrays := chunk_arrays (Z.to_nat dim) (dimensions (shape x)) (data x)
                     0 split_sizes).
    assert (Eshapes :
      map (fun o : list Z * list Z => mkShape (element_type (shape x)) o.1)
          arrays =
      map (fun size => mkShape (element_type (shape x))
                         (<[Z.to_nat dim := size]> (dimensions (shape x))))
          split_sizes).
    { pose proof (chunk_arrays_extents (Z.to_nat dim) (dimensions (shape x))
                    (data x) 0 split_sizes) as E. fold arrays in E.
      rewrite <- (map_map fst (mkShape (element_type (shape x)))), E.
      by rewrite map_map. }
    rewrite Eshapes.
    replace dim with (Z.of_nat (Z.to_nat dim)) at 1 by lia.
    rewrite (InferConcatOpShape_chunks _ _ _ n) by done.
    rewrite (map_ext _ id), map_id by (by intros [? ?]).
    unfold arrays.
    rewrite (concat_chunk_arrays _ _ _ _ _ n) by (done || lia).
    rewrite Hsum, slice_data_whole by done.
    by destruct x as [[? ?] ?].
Qed.

Lemma split_then_cat_roundtrip_witness :
  exists splits b1 r b2,
    BuildSplit (constant S32 [2; 3] [1; 2; 3; 4; 5; 6]) [1; 0; 2] 1
               empty_builder = (Ok splits, b1) /\
    length splits = 3%nat /\
    BuildCat splits 1 b1 = (Ok r, b2) /\
    Evaluate r = Ok (mkLiteral (mkShape S32 [2; 3]) [1; 2; 3; 4; 5; 6]).
Proof.
  apply (split_then_cat_roundtrip (constant S32 [2; 3] [1; 2; 3; 4; 5; 6])
           (mkLiteral (mkShape S32 [2; 3]) [1; 2; 3; 4; 5; 6]) [1; 0; 2] 1 3
           empty_builder); try reflexivity; try lia; try discriminate.
  repeat constructor; lia.
Defined.

(** ** BuildRepeat *)

(** C4 as stated does not hold: with repeats = [2] on an input of shape
    [2,3] the rank check of BuildRepeat fails and nothing is emitted. *)
Lemma BuildRepeat_short_repeats_rejected :
  GetShape (constant S32 [2; 3] [1; 2; 3; 4; 5; 6]) = Ok (mkShape S32 [2; 3]) /\
  BuildRepeat (constant S32 [2; 3] [1; 2; 3; 4; 5; 6]) [2] empty_builder =
    (Err RankMismatch, empty_builder).
Proof. split; reflexivity. Qed.

(** C4, amended. On an input of shape [2,3], Repeat with repeats = [2] is
    rejected by the check len(repeats) >= rank(input); with repeats = [2,1]
    it succeeds and tiles dimension 0: the result has shape [4,3] and its
    rows 2 and 3 equal its rows 0 and 1. *)
Theorem BuildRepeat_on_matrix (input : XlaOp) (x : Literal) (b : XlaBuilder) :
  Evaluate input = Ok x ->
  dimensions (shape x) = [2; 3] ->
  BuildRepeat input [2] b = (Err RankMismatch, b) /\
  exists r b' y,
    BuildRepeat input [2; 1] b = (Ok r, b') /\
    Evaluate r = Ok y /\
    shape y = mkShape (element_type (shape x)) [4; 3] /\
    data y = data x ++ data x /\
    row 3 (data y) 2 = row 3 (data y) 0 /\
    row 3 (data y) 3 = row 3 (data y) 1 /\
    row 3 (data y) 0 = row 3 (data x) 0 /\
    row 3 (data y) 1 = row 3 (data x) 1.
Proof.
  intros Hx Hdims.
  pose proof (Evaluate_wf _ _ Hx) as [_ Hlen].
  pose proof (GetShape_Evaluate _ _ Hx) as Hshape.
  destruct x as [[type dims] elems]. cbn [shape dimensions data element_type] in *.
  subst dims. unfold ElementsIn in Hlen. cbn in Hlen.
  destruct elems as [|e0 [|e1 [|e2 [|e3 [|e4 [|e5 [|]]]]]]]; try discriminate.
  split.
  - unfold BuildRepeat, XlaHelpers.SizesOfXlaOp, XlaHelpers.ShapeOfXlaOp.
    unfold_monad. rewrite Hshape. reflexivity.
  - unfold BuildRepeat, XlaHelpers.SizesOfXlaOp, XlaHelpers.ShapeOfXlaOp.
    unfold_monad. rewrite Hshape.
    cbn [dimensions length seq repeat_loop Nat.sub Nat.add].
    unfold_monad. unfold xla.ConcatInDim.
    rewrite bool_decide_eq_true_2, bool_decide_eq_false_2 by lia.
    change (vector_at [2; 1] (Z.of_nat 0)) with (Ok 2).
    change (vector_at [2; 1] (Z.of_nat 1)) with (Ok 1).
    cbv iota beta.
    change (vector_fill 2 input) with (Ok [input; input]).
    cbv iota beta. run_instructions.
    change (vector_fill 1 ?a) with (Ok [a]).
    cbv iota beta. run_instructions.
    change (Z.of_nat 0) with 0. change (Z.of_nat 1) with 1.
    remember (OpConcatInDim [input; input] 0) as tiled eqn:Etiled.
    assert (Htiled : Evaluate tiled =
              Ok (mkLiteral (mkShape type [4; 3])
                    [e0; e1; e2; e3; e4; e5; e0; e1; e2; e3; e4; e5])).
    { subst tiled. cbn [Evaluate map collect]. rewrite Hx. unfold_monad.
      unfold EvalConcatInDim, InferConcatOpShape, concat_compatible.
      unfold_monad. cbn [map shape dimensions element_type rank length forallb].
      rewrite !bool_decide_eq_true_2 by done. reflexivity. }
    eexists _, _, _. split; [reflexivity|].
    cbn [Evaluate map collect]. rewrite Htiled. unfold_monad.
    unfold EvalConcatInDim, InferConcatOpShape. unfold_monad.
    cbn [map shape dimensions element_type rank length forallb].
    split; [reflexivity|]. repeat split.
Qed.

Lemma BuildRepeat_on_matrix_witness :
  BuildRepeat (constant S32 [2; 3] [1; 2; 3; 4; 5; 6]) [2] empty_builder =
    (Err RankMismatch, empty_builder) /\
  exists r b' y,
    BuildRepeat (constant S32 [2; 3] [1; 2; 3; 4; 5; 6]) [2; 1] empty_builder =
      (Ok r, b') /\
    Evaluate r = Ok y /\
    shape y = mkShape S32 [4; 3] /\
    data y = [1; 2; 3; 4; 5; 6; 1; 2; 3; 4; 5; 6].
Proof.
  destruct (BuildRepeat_on_matrix (constant S32 [2; 3] [1; 2; 3; 4; 5; 6])
              (mkLiteral (mkShape S32 [2; 3]) [1; 2; 3; 4; 5; 6])
              empty_builder eq_refl eq_refl)
    as [Hrej (r & b' & y & Hrun & Hy & Hs & Hd & _)].
  split; [exact Hrej|]. exists r, b', y. auto.
Defined.

(** * Further properties of the lowering functions *)

(** ** GetCompleteShape and BuildView *)

(** The two ways GetCompleteShape returns a shape. *)
Lemma GetCompleteShape_Ok_inv (targetSizes sourceSizes out : list Z) :
  GetCompleteShape targetSizes sourceSizes = Ok out ->
  (Forall (Z.le 0) targetSizes /\ out = targetSizes /\
   Multiply sourceSizes = Multiply targetSizes)
  \/
  (exists pre x post,
     targetSizes = pre ++ x :: post /\
     Forall (Z.le 0) pre /\ x < 0 /\ Forall (Z.le 0) post /\
     Multiply (pre ++ post) <> 0 /\
     Z.rem (Multiply sourceSizes) (Multiply (pre ++ post)) = 0 /\
     out = pre ++ Z.quot (Multiply sourceSizes) (Multiply (pre ++ post)) :: post).
Proof.
  unfold GetCompleteShape. intros H.
  apply bindR_Ok in H as (st & Hscan & H).
  apply scan_output_sizes_inv in Hscan as
    [[Hall ->]|[_ (pre & x & post & -> & Hpre & Hx & Hpost & ->)]];
    simpl in H; unfold_monad; unfold ToVector in H.
  - left. destruct (Z.eqb_spec (Multiply sourceSizes) (Multiply targetSizes));
      [|discriminate]. injection H as <-. done.
  - right. rewrite Z.mul_1_l in H. unfold rem64, div64 in H.
    destruct (Z.eqb_spec (Multiply (pre ++ post)) 0) as [|Hz]; [discriminate|].
    simpl in H.
    destruct (Z.eqb_spec (Z.rem (Multiply sourceSizes) (Multiply (pre ++ post))) 0)
      as [Hr|]; [|discriminate].
    injection H as <-. exists pre, x, post.
    repeat split; try done.
    by rewrite insert_app_r_alt, Nat.sub_diag by lia.
Qed.

(** X1. Two incomplete entries are rejected whatever the source sizes and
    the other entries are; the check comes before any division. *)
Theorem GetCompleteShape_two_incomplete (targetSizes sourceSizes : list Z)
    (i j : nat) (x y : Z) :
  i <> j ->
  targetSizes !! i = Some x -> x < 0 ->
  targetSizes !! j = Some y -> y < 0 ->
  GetCompleteShape targetSizes sourceSizes = Err MultipleIncompleteDimensions.
Proof.
  intros Hij Hi Hx Hj Hy. unfold GetCompleteShape.
  destruct (scan_output_sizes targetSizes 0 (mkScan None 1)) as [st|e] eqn:Hscan.
  - exfalso. apply scan_output_sizes_inv in Hscan as
      [[Hall _]|[_ (pre & z & post & -> & Hpre & Hz & Hpost & _)]].
    + pose proof (Forall_lookup_1 _ _ _ _ Hall Hi). simpl in *. lia.
    + assert (Hpos : forall k v, (pre ++ z :: post) !! k = Some v -> v < 0 ->
                       k = length pre).
      { intros k v Hk Hv. apply lookup_app_Some in Hk as [Hk|[Hge Hk]].
        - pose proof (Forall_lookup_1 _ _ _ _ Hpre Hk). simpl in *. lia.
        - destruct (k - length pre)%nat as [|k'] eqn:Ek; [lia|].
          simpl in Hk.
          pose proof (Forall_lookup_1 _ _ _ _ Hpost Hk). simpl in *. lia. }
      pose proof (Hpos _ _ Hi Hx). pose proof (Hpos _ _ Hj Hy). lia.
  - apply scan_output_sizes_error in Hscan as ->. reflexivity.
Qed.

Lemma GetCompleteShape_two_incomplete_witness :
  GetCompleteShape [-1; 0; -1] [6] = Err MultipleIncompleteDimensions.
Proof.
  apply (GetCompleteShape_two_incomplete [-1; 0; -1] [6] 0%nat 2%nat (-1) (-1));
    try reflexivity; lia.
Defined.

(** X2. Completion is idempotent: a shape GetCompleteShape returns is
    returned unchanged when it is completed again against the same source
    sizes. *)
Theorem GetCompleteShape_idempotent (targetSizes sourceSizes out : list Z) :
  GetCompleteShape targetSizes sourceSizes = Ok out ->
  GetCompleteShape out sourceSizes = Ok out.
Proof.
  intros H.
  pose proof (GetCompleteShape_element_count _ _ _ H) as Hcount.
  apply GetCompleteShape_Ok_inv in H as
    [(Hall & -> & _)|(pre & x & post & -> & Hpre & Hx & Hpost & Hz & Hr & ->)].
  - rewrite GetCompleteShape_complete by done.
    by rewrite Hcount, Z.eqb_refl.
  - set (q := Z.quot (Multiply sourceSizes) (Multiply (pre ++ post))) in *.
    destruct (Z.le_gt_cases 0 q) as [Hq|Hq].
    + rewrite GetCompleteShape_complete.
      * by rewrite Hcount, Z.eqb_refl.
      * apply Forall_app. split; [done|]. by constructor.
    + rewrite (GetCompleteShape_incomplete _ _ (length pre) q).
      * assert (Hknown : filter (Z.le 0) (pre ++ q :: post) = pre ++ post).
        { rewrite filter_app, filter_cons_False by lia.
          by rewrite !filter_nonneg_all. }
        rewrite Hknown. unfold rem64, div64. unfold_monad.
        destruct (Z.eqb_spec (Multiply (pre ++ post)) 0); [done|].
        rewrite Hr. simpl. fold q.
        by rewrite insert_app_r_alt, Nat.sub_diag by lia.
      * by rewrite lookup_app_r, Nat.sub_diag by lia.
      * lia.
      * intros k v Hk Hv. apply lookup_app_Some in Hv as [Hv|[Hge Hv]].
        -- apply (Forall_lookup_1 _ _ _ _ Hpre Hv).
        -- destruct (k - length pre)%nat as [|k'] eqn:Ek; [lia|].
           simpl in Hv. apply (Forall_lookup_1 _ _ _ _ Hpost Hv).
Qed.

Lemma GetCompleteShape_idempotent_witness :
  GetCompleteShape [3; 4] [12] = Ok [3; 4].
Proof.
  apply (GetCompleteShape_idempotent [-1; 4] [12] [3; 4]). reflexivity.
Defined.

Lemma GetCompleteShape_shape_ok (targetSizes sourceSizes out : list Z) :
  Forall (Z.le 0) sourceSizes ->
  GetCompleteShape targetSizes sourceSizes = Ok out ->
  length out = length targetSizes /\ Forall (Z.le 0) out /\
  Multiply out = Multiply sourceSizes.
Proof.
  intros Hsource H.
  pose proof (GetCompleteShape_element_count _ _ _ H) as Hcount.
  pose proof (Multiply_nonneg _ Hsource) as Htotal.
  apply GetCompleteShape_Ok_inv in H as
    [(Hall & -> & _)|(pre & x & post & -> & Hpre & Hx & Hpost & Hz & Hr & ->)].
  - done.
  - split; [by rewrite !length_app|]. split; [|done].
    apply Forall_app. split; [done|]. constructor; [|done].
    apply Z.quot_pos; [done|].
    pose proof (Multiply_nonneg (pre ++ post)
                  ltac:(apply Forall_app; by split)). lia.
Qed.

(** X3. Against the sizes of a real shape (no negative extent) a returned
    shape is itself a real shape: it has the length of the target, no
    negative extent, and the element count of the source.  The sizes are
    [xla::int64] values whose products the program can take
    ([completion_fits]). *)
Theorem GetCompleteShape_valid_shape (targetSizes sourceSizes out : list Z) :
  completion_fits targetSizes sourceSizes = true ->
  Forall (Z.le 0) sourceSizes ->
  GetCompleteShape targetSizes sourceSizes = Ok out ->
  length out = length targetSizes /\ Forall (Z.le 0) out /\
  Multiply out = Multiply sourceSizes.
Proof. intros _. apply GetCompleteShape_shape_ok. Qed.

Lemma GetCompleteShape_valid_shape_witness :
  length [2; 3; 2] = length [2; -1; 2] /\ Forall (Z.le 0) [2; 3; 2] /\
  Multiply [2; 3; 2] = Multiply [3; 4].
Proof.
  apply (GetCompleteShape_valid_shape [2; -1; 2] [3; 4] [2; 3; 2]);
    [reflexivity | repeat constructor; lia | reflexivity].
Defined.

Lemma literal_eta (x : Literal) :
  mkLiteral (mkShape (element_type (shape x)) (dimensions (shape x))) (data x)
  = x.
Proof. by destruct x as [[? ?] ?]. Qed.

Lemma BuildView_run (input : XlaOp) (x : Literal) (output_sizes : list Z)
    (b : XlaBuilder) :
  Evaluate input = Ok x ->
  match GetCompleteShape output_sizes (dimensions (shape x)) with
  | Ok out =>
      BuildView input output_sizes b =
        (Ok (OpReshape input out),
         mkBuilder (instructions b ++ [OpReshape input out]) (first_error b)) /\
      Evaluate (OpReshape input out) =
        Ok (mkLiteral (mkShape (element_type (shape x)) out) (data x))
  | Err e => BuildView input output_sizes b = (Err e, b)
  end.
Proof.
  intros Hx. pose proof (Evaluate_wf _ _ Hx) as [Hnn _].
  unfold BuildView, XlaHelpers.SizesOfXlaOp, XlaHelpers.ShapeOfXlaOp,
    xla.Reshape.
  unfold_monad. rewrite (GetShape_Evaluate _ _ Hx).
  destruct (GetCompleteShape output_sizes (dimensions (shape x)))
    as [out|e] eqn:Hout; [|done].
  destruct (GetCompleteShape_shape_ok _ _ _ Hnn Hout) as (_ & Hvalid & Hcount).
  pose proof (Evaluate_Reshape input x out Hx Hvalid Hcount) as Hv.
  by rewrite (AddInstruction_accepted _ _ b Hv).
Qed.

(** X4. BuildView on a node that has a value fails exactly when the shape
    completion fails, with that error and nothing emitted; otherwise it emits
    one reshape, which the builder accepts, whose value has the completed
    shape and the elements of the input in the same order.  The requested
    sizes and the extents of the input are [xla::int64] values whose products
    the program can take ([completion_fits]). *)
Theorem BuildView_outcome (input : XlaOp) (x : Literal) (output_sizes : list Z)
    (b : XlaBuilder) :
  Evaluate input = Ok x ->
  completion_fits output_sizes (dimensions (shape x)) = true ->
  (forall e, GetCompleteShape output_sizes (dimensions (shape x)) = Err e ->
     BuildView input output_sizes b = (Err e, b)) /\
  (forall out, GetCompleteShape output_sizes (dimensions (shape x)) = Ok out ->
     BuildView input output_sizes b =
       (Ok (OpReshape input out),
        mkBuilder (instructions b ++ [OpReshape input out]) (first_error b)) /\
     Evaluate (OpReshape input out) =
       Ok (mkLiteral (mkShape (element_type (shape x)) out) (data x))).
Proof.
  intros Hx _. pose proof (BuildView_run input x output_sizes b Hx) as H.
  split.
  - intros e He. by rewrite He in H.
  - intros out Hout. by rewrite Hout in H.
Qed.

Lemma BuildView_outcome_witness :
  BuildView (constant S32 [2; 6] (replicate 12 7)) [-1; 5] empty_builder =
    (Err ShapeElementCountMismatch, empty_builder) /\
  Evaluate (OpReshape (constant S32 [2; 6] (replicate 12 7)) [3; 4]) =
    Ok (mkLiteral (mkShape S32 [3; 4]) (replicate 12 7)).
Proof.
  destruct (BuildView_outcome (constant S32 [2; 6] (replicate 12 7))
              (mkLiteral (mkShape S32 [2; 6]) (replicate 12 7)) [-1; 5]
              empty_builder eq_refl eq_refl) as [Herr _].
  destruct (BuildView_outcome (constant S32 [2; 6] (replicate 12 7))
              (mkLiteral (mkShape S32 [2; 6]) (replicate 12 7)) [-1; 4]
              empty_builder eq_refl eq_refl) as [_ Hok].
  split; [apply Herr; reflexivity | apply (Hok [3; 4]); reflexivity].
Defined.

(** X5. A view followed by a view back to the original extents is the
    identity: the second view succeeds and its value is the value of the
    input. *)
Theorem BuildView_round_trip (input : XlaOp) (x : Literal)
    (output_sizes : list Z) (viewed : XlaOp) (b b1 : XlaBuilder) :
  Evaluate input = Ok x ->
  BuildView input output_sizes b = (Ok viewed, b1) ->
  exists back b2,
    BuildView viewed (dimensions (shape x)) b1 = (Ok back, b2) /\
    Evaluate back = Ok x.
Proof.
  intros Hx Hview.
  pose proof (Evaluate_wf _ _ Hx) as [Hnn _].
  pose proof (BuildView_run input x output_sizes b Hx) as H.
  destruct (GetCompleteShape output_sizes (dimensions (shape x)))
    as [out|e] eqn:Hout; [|congruence].
  destruct H as [Hrun Hv]. rewrite Hrun in Hview. injection Hview as <- <-.
  destruct (GetCompleteShape_shape_ok _ _ _ Hnn Hout) as (_ & Hvalid & Hcount).
  pose proof (BuildView_run _ _ (dimensions (shape x))
                (mkBuilder (instructions b ++ [OpReshape input out])
                   (first_error b)) Hv) as H2.
  cbn [shape dimensions element_type data] in H2.
  rewrite GetCompleteShape_complete in H2 by done.
  rewrite Hcount, Z.eqb_refl in H2. destruct H2 as [Hrun2 Hv2].
  eexists _, _. split; [exact Hrun2|].
  by rewrite Hv2, literal_eta.
Qed.

Lemma BuildView_round_trip_witness :
  exists back b2,
    BuildView (OpReshape (constant S32 [2; 6] (replicate 12 7)) [3; 4]) [2; 6]
      (mkBuilder [OpReshape (constant S32 [2; 6] (replicate 12 7)) [3; 4]] None)
      = (Ok back, b2) /\
    Evaluate back = Ok (mkLiteral (mkShape S32 [2; 6]) (replicate 12 7)).
Proof.
  apply (BuildView_round_trip (constant S32 [2; 6] (replicate 12 7))
           (mkLiteral (mkShape S32 [2; 6]) (replicate 12 7)) [-1; 4]
           _ empty_builder); reflexivity.
Defined.

(** ** The squeeze family *)

Lemma Multiply_filter_ones (dims : list Z) :
  Multiply (filter (fun d : Z => d <> 1) dims) = Multiply dims.
Proof.
  induction dims as [|d dims IH]; [done|].
  destruct (decide (d = 1)) as [->|Hd].
  - rewrite filter_cons_False by (intros H; by apply H).
    rewrite Multiply_cons, IH. lia.
  - rewrite filter_cons_True by done. by rewrite !Multiply_cons, IH.
Qed.

Lemma filter_ones_idempotent (dims : list Z) :
  filter (fun d : Z => d <> 1) (filter (fun d : Z => d <> 1) dims) =
    filter (fun d : Z => d <> 1) dims.
Proof.
  induction dims as [|d dims IH]; [done|].
  destruct (decide (d = 1)) as [->|Hd].
  - by rewrite filter_cons_False by (intros H; by apply H).
  - rewrite !filter_cons_True by done. by rewrite IH.
Qed.

Lemma filter_ones_delete (dims : list Z) (i : nat) :
  dims !! i = Some 1 ->
  filter (fun d : Z => d <> 1) (delete i dims) =
    filter (fun d : Z => d <> 1) dims.
Proof.
  intros Hi. rewrite <- (take_drop_middle dims i 1 Hi) at 2.
  rewrite delete_take_drop, !filter_app.
  by rewrite filter_cons_False by (intros H; by apply H).
Qed.

Lemma filter_ones_unsqueeze (dims : list Z) (i : nat) :
  filter (fun d : Z => d <> 1) (take i dims ++ 1 :: drop i dims) =
    filter (fun d : Z => d <> 1) dims.
Proof.
  rewrite <- (take_drop i dims) at 3. rewrite !filter_app.
  by rewrite filter_cons_False by (intros H; by apply H).
Qed.

Lemma Forall_filter_ones (dims : list Z) :
  Forall (Z.le 0) dims -> Forall (Z.le 0) (filter (fun d : Z => d <> 1) dims).
Proof.
  intros H. apply Forall_forall. intros d Hd.
  apply list_elem_of_filter in Hd as [_ Hd].
  by apply (proj1 (Forall_forall _ _) H).
Qed.

Lemma SqueezeAll_run (input : XlaOp) (x : Literal) (b : XlaBuilder) :
  Evaluate input = Ok x ->
  let squeezed :=
    OpReshape input (filter (fun d : Z => d <> 1) (dimensions (shape x))) in
  SqueezeAllTrivialDimensions input b =
    (Ok squeezed, mkBuilder (instructions b ++ [squeezed]) (first_error b)) /\
  Evaluate squeezed =
    Ok (mkLiteral
          (mkShape (element_type (shape x))
             (filter (fun d : Z => d <> 1) (dimensions (shape x))))
          (data x)).
Proof.
  intros Hx squeezed. pose proof (Evaluate_wf _ _ Hx) as [Hnn _].
  assert (Hv : Evaluate squeezed =
    Ok (mkLiteral
          (mkShape (element_type (shape x))
             (filter (fun d : Z => d <> 1) (dimensions (shape x))))
          (data x))).
  { apply Evaluate_Reshape; [done | | apply Multiply_filter_ones].
    by apply Forall_filter_ones. }
  split; [|done]. unfold squeezed in *.
  unfold SqueezeAllTrivialDimensions, XlaHelpers.SizesOfXlaOp,
    XlaHelpers.ShapeOfXlaOp, xla.Reshape.
  unfold_monad. rewrite (GetShape_Evaluate _ _ Hx).
  by rewrite (AddInstruction_accepted _ _ b Hv).
Qed.

(** X6. SqueezeAllTrivialDimensions never fails on a node that has a value:
    it emits one accepted reshape whose value holds the elements of the
    input under the extents other than 1, in their order; squeezing the
    result again changes nothing. *)
Theorem SqueezeAll_value (input : XlaOp) (x : Literal) (b : XlaBuilder) :
  Evaluate input = Ok x ->
  let dims := filter (fun d : Z => d <> 1) (dimensions (shape x)) in
  let y := mkLiteral (mkShape (element_type (shape x)) dims) (data x) in
  exists squeezed b1 again b2,
    SqueezeAllTrivialDimensions input b = (Ok squeezed, b1) /\
    instructions b1 = instructions b ++ [squeezed] /\
    Evaluate squeezed = Ok y /\
    Forall (fun d => d <> 1) dims /\
    SqueezeAllTrivialDimensions squeezed b1 = (Ok again, b2) /\
    Evaluate again = Ok y.
Proof.
  intros Hx dims y.
  destruct (SqueezeAll_run input x b Hx) as [Hrun Hv].
  destruct (SqueezeAll_run _ _
              (mkBuilder (instructions b ++ [OpReshape input dims])
                 (first_error b)) Hv) as [Hrun2 Hv2].
  cbn [shape dimensions element_type data] in Hrun2, Hv2.
  rewrite filter_ones_idempotent in Hrun2, Hv2.
  eexists _, _, _, _. split; [exact Hrun|]. split; [done|].
  split; [exact Hv|]. split; [|split; [exact Hrun2 | exact Hv2]].
  apply Forall_forall. intros d Hd. by apply list_elem_of_filter in Hd as [? _].
Qed.

Lemma SqueezeAll_value_witness :
  exists squeezed b1,
    SqueezeAllTrivialDimensions (constant S32 [1; 2; 1; 3] [1; 2; 3; 4; 5; 6])
      empty_builder = (Ok squeezed, b1) /\
    Evaluate squeezed = Ok (mkLiteral (mkShape S32 [2; 3]) [1; 2; 3; 4; 5; 6]).
Proof.
  destruct (SqueezeAll_value (constant S32 [1; 2; 1; 3] [1; 2; 3; 4; 5; 6])
              (mkLiteral (mkShape S32 [1; 2; 1; 3]) [1; 2; 3; 4; 5; 6])
              empty_builder eq_refl)
    as (squeezed & b1 & _ & _ & Hrun & _ & Hv & _).
  exists squeezed, b1. split; [exact Hrun | exact Hv].
Defined.

Lemma SqueezeTrivialDimension_run (input : XlaOp) (x : Literal) (dim : nat)
    (n : Z) (b : XlaBuilder) :
  Evaluate input = Ok x ->
  dimensions (shape x) !! dim = Some n ->
  exists squeezed b1 y,
    SqueezeTrivialDimension input dim b = (Ok squeezed, b1) /\
    Evaluate squeezed = Ok y /\
    element_type (shape y) = element_type (shape x) /\
    data y = data x /\
    dimensions (shape y) =
      (if decide (n = 1) then delete dim (dimensions (shape x))
       else dimensions (shape x)).
Proof.
  intros Hx Hn.
  assert (Hlt : (dim < length (dimensions (shape x)))%nat)
    by (eapply lookup_lt_Some; eauto).
  pose proof (Evaluate_wf _ _ Hx) as [Hnn _].
  unfold SqueezeTrivialDimension, XlaHelpers.SizesOfXlaOp,
    XlaHelpers.ShapeOfXlaOp, xla.Reshape.
  unfold_monad. rewrite (GetShape_Evaluate _ _ Hx).
  rewrite bool_decide_eq_true_2 by done.
  destruct (decide (n = 1)) as [->|Hn1].
  - rewrite bool_decide_eq_false_2 by (intros Hc; by apply Hc).
    assert (Hsq : Evaluate (OpReshape input (delete dim (dimensions (shape x)))) =
                  Ok (mkLiteral (mkShape (element_type (shape x))
                                   (delete dim (dimensions (shape x))))
                        (data x))).
    { apply Evaluate_Reshape; [done | by apply Forall_delete |].
      by apply Multiply_delete_one. }
    rewrite (AddInstruction_accepted _ _ b Hsq).
    eexists _, _, _. split; [done|]. split; [exact Hsq|]. done.
  - rewrite bool_decide_eq_true_2 by congruence.
    exists input, b, x. done.
Qed.

(** X7. SqueezeAllTrivialDimensions absorbs the single-dimension operations:
    applied after SqueezeTrivialDimension at any dimension in range, or
    after BuildUnsqueeze at any position up to the rank, it gives the same
    value as applied to the input itself. *)
Theorem SqueezeAll_absorbs (input : XlaOp) (x : Literal) (dim : nat)
    (b : XlaBuilder) :
  Evaluate input = Ok x ->
  let y :=
    mkLiteral
      (mkShape (element_type (shape x))
         (filter (fun d : Z => d <> 1) (dimensions (shape x))))
      (data x) in
  ((dim < rank (shape x))%nat ->
   exists one b1 all b2,
     SqueezeTrivialDimension input dim b = (Ok one, b1) /\
     SqueezeAllTrivialDimensions one b1 = (Ok all, b2) /\
     Evaluate all = Ok y) /\
  ((dim <= rank (shape x))%nat ->
   exists unsqueezed b1 all b2,
     BuildUnsqueeze input dim b = (Ok unsqueezed, b1) /\
     SqueezeAllTrivialDimensions unsqueezed b1 = (Ok all, b2) /\
     Evaluate all = Ok y).
Proof.
  intros Hx y. split; intros Hdim.
  - destruct (lookup_lt_is_Some_2 (dimensions (shape x)) dim Hdim) as [n Hn].
    destruct (SqueezeTrivialDimension_run input x dim n b Hx Hn)
      as (one & b1 & z & Hrun & Hz & Htype & Hdata & Hdims).
    destruct (SqueezeAll_run one z b1 Hz) as [Hrun2 Hv2].
    eexists _, _, _, _. split; [exact Hrun|]. split; [exact Hrun2|].
    rewrite Hv2, Htype, Hdata, Hdims. unfold y. do 3 f_equal.
    destruct (decide (n = 1)) as [->|]; [by apply filter_ones_delete | done].
  - destruct (BuildUnsqueeze_run input x dim b Hx Hdim)
      as (r & b1 & Hrun & _ & Hv).
    destruct (SqueezeAll_run r _ b1 Hv) as [Hrun2 Hv2].
    cbn [shape dimensions element_type data] in Hrun2, Hv2.
    eexists _, _, _, _. split; [exact Hrun|]. split; [exact Hrun2|].
    rewrite Hv2. unfold y. by rewrite filter_ones_unsqueeze.
Qed.

Lemma SqueezeAll_absorbs_witness :
  exists one b1 all b2,
    SqueezeTrivialDimension (constant S32 [1; 2; 1; 3] [1; 2; 3; 4; 5; 6]) 2
      empty_builder = (Ok one, b1) /\
    SqueezeAllTrivialDimensions one b1 = (Ok all, b2) /\
    Evaluate all = Ok (mkLiteral (mkShape S32 [2; 3]) [1; 2; 3; 4; 5; 6]).
Proof.
  destruct (SqueezeAll_absorbs (constant S32 [1; 2; 1; 3] [1; 2; 3; 4; 5; 6])
              (mkLiteral (mkShape S32 [1; 2; 1; 3]) [1; 2; 3; 4; 5; 6]) 2
              empty_builder eq_refl) as [H _].
  apply H. unfold rank. simpl. lia.
Defined.

Lemma delete_unsqueeze (l : list Z) (i : nat) :
  (i <= length l)%nat -> delete i (take i l ++ 1 :: drop i l) = l.
Proof.
  revert l. induction i as [|i IH]; intros [|a l] Hi; simpl in *;
    try done; try lia.
  f_equal. apply IH. lia.
Qed.

(** X8. BuildUnsqueeze at a position up to the rank followed by
    SqueezeTrivialDimension at the same position gives back the value of the
    input. *)
Theorem unsqueeze_then_squeeze (input : XlaOp) (x : Literal) (dim : nat)
    (b : XlaBuilder) :
  Evaluate input = Ok x ->
  (dim <= rank (shape x))%nat ->
  exists unsqueezed b1 squeezed b2,
    BuildUnsqueeze input dim b = (Ok unsqueezed, b1) /\
    SqueezeTrivialDimension unsqueezed dim b1 = (Ok squeezed, b2) /\
    Evaluate squeezed = Ok x.
Proof.
  intros Hx Hdim.
  destruct (BuildUnsqueeze_run input x dim b Hx Hdim)
    as (r & b1 & Hrun & _ & Hv).
  unfold rank in Hdim.
  assert (Hone : (take dim (dimensions (shape x)) ++
                  1 :: drop dim (dimensions (shape x))) !! dim = Some 1).
  { rewrite lookup_app_r by (rewrite length_take; lia).
    rewrite length_take, Nat.min_l by lia.
    by rewrite Nat.sub_diag. }
  destruct (SqueezeTrivialDimension_run r _ dim 1 b1 Hv Hone)
    as (sq & b2 & z & Hrun2 & Hz & Htype & Hdata & Hdims).
  cbn [shape dimensions element_type data] in Htype, Hdata, Hdims.
  eexists _, _, _, _. split; [exact Hrun|]. split; [exact Hrun2|].
  rewrite Hz. f_equal. rewrite <- (literal_eta x), <- (literal_eta z).
  rewrite Htype, Hdata, Hdims. do 2 f_equal.
  rewrite decide_True by done. by apply delete_unsqueeze.
Qed.

Lemma unsqueeze_then_squeeze_witness :
  exists unsqueezed b1 squeezed b2,
    BuildUnsqueeze (constant S32 [2; 3] [1; 2; 3; 4; 5; 6]) 2 empty_builder =
      (Ok unsqueezed, b1) /\
    SqueezeTrivialDimension unsqueezed 2 b1 = (Ok squeezed, b2) /\
    Evaluate squeezed = Ok (mkLiteral (mkShape S32 [2; 3]) [1; 2; 3; 4; 5; 6]).
Proof.
  apply (unsqueeze_then_squeeze (constant S32 [2; 3] [1; 2; 3; 4; 5; 6])
           (mkLiteral (mkShape S32 [2; 3]) [1; 2; 3; 4; 5; 6]) 2 empty_builder);
    [reflexivity | unfold rank; simpl; lia].
Defined.

(** X9. The two single-dimension operations bound their position
    differently: SqueezeTrivialDimension rejects every position from the
    rank on, BuildUnsqueeze rejects only positions beyond the rank and at the
    rank itself appends a trailing extent 1.  A rejection emits nothing. *)
Theorem squeeze_unsqueeze_bounds (input : XlaOp) (x : Literal) (dim : nat)
    (b : XlaBuilder) :
  Evaluate input = Ok x ->
  ((rank (shape x) <= dim)%nat ->
   SqueezeTrivialDimension input dim b = (Err DimensionOutOfRange, b)) /\
  ((rank (shape x) < dim)%nat ->
   BuildUnsqueeze input dim b = (Err DimensionOutOfRange, b)) /\
  (dim = rank (shape x) ->
   exists r b',
     BuildUnsqueeze input dim b = (Ok r, b') /\
     Evaluate r =
       Ok (mkLiteral
             (mkShape (element_type (shape x)) (dimensions (shape x) ++ [1]))
             (data x))).
Proof.
  intros Hx. unfold rank. split; [|split]; intros Hdim.
  - unfold SqueezeTrivialDimension, XlaHelpers.SizesOfXlaOp,
      XlaHelpers.ShapeOfXlaOp.
    unfold_monad. rewrite (GetShape_Evaluate _ _ Hx).
    by rewrite bool_decide_eq_false_2 by lia.
  - unfold BuildUnsqueeze, BuildUnsqueezeDimensions, XlaHelpers.SizesOfXlaOp,
      XlaHelpers.ShapeOfXlaOp.
    unfold_monad. rewrite (GetShape_Evaluate _ _ Hx).
    by rewrite bool_decide_eq_false_2 by lia.
  - destruct (BuildUnsqueeze_run input x dim b Hx) as (r & b' & Hrun & _ & Hv);
      [unfold rank; lia|].
    exists r, b'. split; [done|]. rewrite Hv, Hdim.
    by rewrite firstn_all, drop_all.
Qed.

Lemma squeeze_unsqueeze_bounds_witness :
  SqueezeTrivialDimension (constant S32 [2; 1] [1; 2]) 2 empty_builder =
    (Err DimensionOutOfRange, empty_builder) /\
  exists r b',
    BuildUnsqueeze (constant S32 [2; 1] [1; 2]) 2 empty_builder = (Ok r, b') /\
    Evaluate r = Ok (mkLiteral (mkShape S32 [2; 1; 1]) [1; 2]).
Proof.
  destruct (squeeze_unsqueeze_bounds (constant S32 [2; 1] [1; 2])
              (mkLiteral (mkShape S32 [2; 1]) [1; 2]) 2 empty_builder eq_refl)
    as (Hsq & _ & Hun).
  split; [apply Hsq; unfold rank; simpl; lia | apply Hun; reflexivity].
Defined.

(** ** Concatenation *)

Lemma concat_data_single (d : nat) (dims elems : list Z) (n : Z) :
  wf_array (dims, elems) -> dims !! d = Some n ->
  concat_data d [(dims, elems)] = elems.
Proof.
  intros Hwf Hn.
  assert (Hn0 : 0 <= n) by (apply (Forall_lookup_1 _ _ _ _ (proj1 Hwf) Hn)).
  pose proof (concat_chunk_arrays d dims elems 0 [n] n Hwf Hn) as H.
  cbn [chunk_arrays] in H. rewrite list_insert_id in H by done.
  rewrite sum_sizes_cons in H. change (sum_sizes []) with 0 in H.
  rewrite Z.add_0_r, slice_data_whole in H by done.
  apply H; [lia | by repeat constructor | lia | done].
Qed.

Lemma Evaluate_Concat_single (input : XlaOp) (x : Literal) (dim : Z) :
  Evaluate input = Ok x ->
  0 <= dim < Z.of_nat (rank (shape x)) ->
  Evaluate (OpConcatInDim [input] dim) = Ok x.
Proof.
  intros Hx Hdim. pose proof (Evaluate_wf _ _ Hx) as Hwf.
  destruct (lookup_lt_is_Some_2 (dimensions (shape x)) (Z.to_nat dim))
    as [n Hn]; [unfold rank in Hdim; lia|].
  cbn [Evaluate map collect]. rewrite Hx. unfold_monad.
  unfold EvalConcatInDim, InferConcatOpShape. unfold_monad.
  cbn [map forallb].
  destruct (Z.leb_spec 0 dim); [|lia].
  destruct (Z.ltb_spec dim (Z.of_nat (rank (shape x)))); [|lia].
  cbn [andb foldr]. unfold dimension_at, extent_at. rewrite Hn. cbn [default].
  rewrite Z.add_0_r, list_insert_id by done.
  rewrite (concat_data_single _ _ _ n) by done.
  by destruct x as [[? ?] ?].
Qed.

(** X10. Concatenating a single input along a dimension of its rank is the
    identity: BuildCat emits one accepted concatenation whose value is the
    value of the input. *)
Theorem BuildCat_single (input : XlaOp) (x : Literal) (dim : Z)
    (b : XlaBuilder) :
  Evaluate input = Ok x ->
  0 <= dim < Z.of_nat (rank (shape x)) ->
  BuildCat [input] dim b =
    (Ok (OpConcatInDim [input] dim),
     mkBuilder (instructions b ++ [OpConcatInDim [input] dim]) (first_error b))
  /\ Evaluate (OpConcatInDim [input] dim) = Ok x.
Proof.
  intros Hx Hdim.
  pose proof (Evaluate_Concat_single input x dim Hx Hdim) as Hv.
  split; [|done]. unfold BuildCat, xla.ConcatInDim. unfold_monad.
  rewrite bool_decide_eq_true_2 by (simpl; lia).
  by rewrite (AddInstruction_accepted _ _ b Hv).
Qed.

Lemma BuildCat_single_witness :
  Evaluate (OpConcatInDim [constant S32 [2; 3] [1; 2; 3; 4; 5; 6]] 1) =
    Ok (mkLiteral (mkShape S32 [2; 3]) [1; 2; 3; 4; 5; 6]).
Proof.
  apply (BuildCat_single (constant S32 [2; 3] [1; 2; 3; 4; 5; 6])
           (mkLiteral (mkShape S32 [2; 3]) [1; 2; 3; 4; 5; 6]) 1 empty_builder);
    [reflexivity | unfold rank; simpl; lia].
Defined.

Lemma collect_Forall2 {A B} (f : A -> Result B) (xs : list A) (ys : list B) :
  Forall2 (fun x y => f x = Ok y) xs ys -> collect (map f xs) = Ok ys.
Proof.
  induction 1 as [|x y xs ys Hx _ IH]; simpl; [done|].
  rewrite Hx, IH. reflexivity.
Qed.

(** The extents of a list of operands along [d], added up. *)
Lemma sum_extents_app (d : nat) (pre post : list (list Z * list Z)) :
  foldr Z.add 0 (map (fun o => extent_at d o.1) (pre ++ post)) =
    foldr Z.add 0 (map (fun o => extent_at d o.1) pre) +
    foldr Z.add 0 (map (fun o => extent_at d o.1) post).
Proof. induction pre as [|o pre IH]; simpl; [done | rewrite IH; lia]. Qed.

(** Row [j] of every operand of a concatenation along an inner dimension. *)
Lemma inner_rows_operands (d : nat) (n0 : Z) (tl0 : list Z)
    (ops : list (list Z * list Z)) (j : nat) :
  Forall wf_array ops ->
  Forall (concat_operand (S d) (n0 :: tl0)) ops ->
  (j < Z.to_nat n0)%nat ->
  Forall wf_array (map (inner_row j) ops) /\
  Forall (concat_operand d tl0) (map (inner_row j) ops) /\
  map (fun o => extent_at d o.1) (map (inner_row j) ops) =
    map (fun o => extent_at (S d) o.1) ops.
Proof.
  intros Hwf Hc Hj. induction Hwf as [|o ops Ho _ IH]; simpl.
  - repeat split; constructor.
  - inversion Hc as [|? ? Hco Hc']; subst.
    destruct (IH Hc') as (? & ? & ?).
    destruct (concat_operand_S _ _ _ _ Hco) as (tl & E & Hctl & Hext).
    destruct o as [dims elems]. simpl in E. subst dims.
    split; [|split].
    + constructor; [by apply (wf_row n0) | done].
    + constructor; [apply Hctl | done].
    + simpl in *. rewrite Hext. by f_equal.
Qed.

Lemma outer_extent_operands (d : nat) (n0 : Z) (tl0 : list Z)
    (ops : list (list Z * list Z)) :
  ops <> [] -> Forall (concat_operand (S d) (n0 :: tl0)) ops ->
  outer_extent ops = n0.
Proof.
  intros Hne Hc. destruct ops as [|o ops]; [done|].
  inversion Hc as [|? ? Hco _]; subst.
  destruct (concat_operand_S _ _ _ _ Hco) as (tl & E & _).
  destruct o as [dims elems]. simpl in E. by subst dims.
Qed.

Lemma operands_outer_nonneg (d : nat) (n0 : Z) (tl0 : list Z)
    (ops : list (list Z * list Z)) :
  ops <> [] -> Forall wf_array ops ->
  Forall (concat_operand (S d) (n0 :: tl0)) ops -> 0 <= n0.
Proof.
  intros Hne Hwf Hc. destruct ops as [|o ops]; [done|].
  inversion Hc as [|? ? Hco _]; subst.
  inversion Hwf as [|? ? [Hf _] _]; subst.
  destruct (concat_operand_S _ _ _ _ Hco) as (tl & E & _).
  rewrite E in Hf. by inversion Hf.
Qed.

(** A concatenation may stand for its operands inside a larger one. *)
Lemma concat_data_flatten (d : nat) (dims0 : list Z)
    (pre post : list (list Z * list Z)) :
  (d < length dims0)%nat -> pre <> [] ->
  Forall wf_array pre -> Forall (concat_operand d dims0) pre ->
  concat_data d
    ((<[d := foldr Z.add 0 (map (fun o => extent_at d o.1) pre)]> dims0,
      concat_data d pre) :: post) =
  concat_data d (pre ++ post).
Proof.
  revert dims0 pre post.
  induction d as [|d IH]; intros [|n0 tl0] pre post Hd Hne Hwf Hc;
    simpl in Hd; try lia.
  - cbn [concat_data map concat snd]. by rewrite map_app, concat_app.
  - cbn [concat_data].
    pose proof (outer_extent_operands d n0 tl0 pre Hne Hc) as Houter.
    pose proof (operands_outer_nonneg d n0 tl0 pre Hne Hwf Hc) as Hn0.
    assert (Houter' : outer_extent (pre ++ post) = n0).
    { destruct pre as [|o pre]; [done|]. simpl. simpl in Houter.
      by destruct o as [[|? ?] ?]. }
    rewrite Houter'. cbn [outer_extent insert list_insert]. rewrite Houter.
    f_equal. apply map_ext_in. intros j Hj. apply in_seq in Hj.
    destruct (inner_rows_operands d n0 tl0 pre j Hwf Hc ltac:(lia))
      as (Hwfj & Hcj & Hextj).
    rewrite map_app. cbn [map]. rewrite <- (IH tl0); try done; try lia.
    2:{ destruct pre; [done | discriminate]. }
    rewrite Hextj. f_equal. f_equal.
    unfold inner_row at 1. cbn [fst snd tail]. f_equal.
    apply row_concat_map; [|lia].
    intros i Hi.
    destruct (inner_rows_operands d n0 tl0 pre i Hwf Hc ltac:(lia))
      as (Hwfi & Hci & Hexti).
    destruct (length_concat_data d (map (inner_row i) pre) tl0) as [_ Hlen];
      try done; try lia.
    { destruct pre; [done | discriminate]. }
    by rewrite Hlen, Hexti.
Qed.

(** What a concatenation of literals evaluates to, when it does. *)
Lemma EvalConcatInDim_Ok (l0 : Literal) (rest : list Literal) (dim : Z) :
  0 <= dim < Z.of_nat (rank (shape l0)) ->
  forallb (concat_compatible (Z.to_nat dim) (shape l0)) (map shape rest)
    = true ->
  EvalConcatInDim (l0 :: rest) dim =
    Ok (mkLiteral
          (mkShape (element_type (shape l0))
             (<[Z.to_nat dim :=
                  foldr Z.add 0
                    (map (dimension_at (Z.to_nat dim))
                         (map shape (l0 :: rest)))]>
                (dimensions (shape l0))))
          (concat_data (Z.to_nat dim)
             (map (fun l => (dimensions (shape l), data l)) (l0 :: rest)))).
Proof.
  intros Hdim Hc. unfold EvalConcatInDim, InferConcatOpShape. unfold_monad.
  change (map shape (l0 :: rest)) with (shape l0 :: map shape rest).
  cbv iota beta.
  destruct (Z.leb_spec 0 dim); [|lia].
  destruct (Z.ltb_spec dim (Z.of_nat (rank (shape l0)))); [|lia].
  cbn [andb]. by rewrite Hc.
Qed.

Lemma EvalConcatInDim_Ok_inv (ls : list Literal) (dim : Z) (y : Literal) :
  EvalConcatInDim ls dim = Ok y ->
  exists l0 rest,
    ls = l0 :: rest /\
    0 <= dim < Z.of_nat (rank (shape l0)) /\
    forallb (concat_compatible (Z.to_nat dim) (shape l0)) (map shape rest)
      = true.
Proof.
  intros H. destruct ls as [|l0 rest].
  { unfold EvalConcatInDim, InferConcatOpShape in H. unfold_monad.
    simpl in H. discriminate. }
  exists l0, rest. split; [done|].
  unfold EvalConcatInDim, InferConcatOpShape in H. unfold_monad.
  change (map shape (l0 :: rest)) with (shape l0 :: map shape rest) in H.
  cbv iota beta in H.
  destruct (Z.leb_spec 0 dim); [|simpl in H; discriminate].
  destruct (Z.ltb_spec dim (Z.of_nat (rank (shape l0))));
    [|simpl in H; discriminate].
  cbn [andb] in H.
  destruct (forallb _ _); [|discriminate]. split; [lia | done].
Qed.

Lemma compatible_operands (d : nat) (first : Shape) (rest : list Literal) :
  forallb (concat_compatible d first) (map shape rest) = true ->
  Forall (concat_operand d (dimensions first))
         (map (fun l => (dimensions (shape l), data l)) rest).
Proof.
  induction rest as [|l rest IH]; simpl; intros H; [constructor|].
  apply andb_prop in H as [Hl Hrest]. constructor; [|by apply IH].
  unfold concat_compatible in Hl.
  apply andb_prop in Hl as [Hl Hdel]. apply andb_prop in Hl as [_ Hrank].
  apply bool_decide_eq_true_1 in Hdel, Hrank. split; simpl; done.
Qed.

Lemma concat_operand_refl (d : nat) (dims elems : list Z) :
  concat_operand d dims (dims, elems).
Proof. by split. Qed.

Lemma concat_compatible_insert (d : nat) (type : PrimitiveType)
    (dims : list Z) (v : Z) (s : Shape) :
  concat_compatible d (mkShape type (<[d := v]> dims)) s =
  concat_compatible d (mkShape type dims) s.
Proof.
  unfold concat_compatible, rank. cbn [element_type dimensions].
  rewrite length_insert, delete_insert_same. done.
Qed.

Lemma Forall2_Evaluate_wf (xs : list XlaOp) (ls : list Literal) :
  Forall2 (fun x l => Evaluate x = Ok l) xs ls ->
  Forall wf_array (map (fun l => (dimensions (shape l), data l)) ls).
Proof.
  induction 1 as [|x l xs ls Hx _ IH]; simpl; constructor; [|done].
  apply Evaluate_wf in Hx. exact Hx.
Qed.

(** A concatenation of nodes may stand for them inside a larger one along the
    same dimension. *)
Lemma Evaluate_Concat_flatten (pre post : list XlaOp) (dim : Z)
    (y : Literal) :
  pre <> [] ->
  Evaluate (OpConcatInDim (pre ++ post) dim) = Ok y ->
  exists p,
    Evaluate (OpConcatInDim pre dim) = Ok p /\
    Evaluate (OpConcatInDim (OpConcatInDim pre dim :: post) dim) = Ok y.
Proof.
  intros Hne H. cbn [Evaluate] in H. unfold_monad.
  apply bindR_Ok in H as (ls & Hls & Hy).
  apply collect_Ok in Hls. apply Forall2_app_inv_l in Hls
    as (lpre & lpost & Hpre & Hpost & ->).
  destruct Hpre as [|x0 l0 pre' lpre' Hx0 Hpre']; [done|].
  assert (Hwf : Forall wf_array
                  (map (fun l => (dimensions (shape l), data l))
                       (l0 :: lpre')))
    by (apply (Forall2_Evaluate_wf (x0 :: pre')); by constructor).
  destruct (EvalConcatInDim_Ok_inv _ _ _ Hy) as (l0' & rest & E & Hdim & Hc).
  simpl in E. injection E as <- <-.
  rewrite map_app, forallb_app in Hc. apply andb_prop in Hc as [Hc1 Hc2].
  change ((l0 :: lpre') ++ lpost) with (l0 :: (lpre' ++ lpost)) in Hy.
  rewrite (EvalConcatInDim_Ok l0 (lpre' ++ lpost) dim Hdim) in Hy
    by (by rewrite map_app, forallb_app, Hc1, Hc2).
  injection Hy as <-.
  set (d := Z.to_nat dim) in *.
  assert (Hd : (d < length (dimensions (shape l0)))%nat)
    by (unfold rank in Hdim; lia).
  assert (Hp : Evaluate (OpConcatInDim (x0 :: pre') dim) =
               Ok (mkLiteral
                     (mkShape (element_type (shape l0))
                        (<[d := foldr Z.add 0
                                  (map (dimension_at d)
                                       (map shape (l0 :: lpre')))]>
                           (dimensions (shape l0))))
                     (concat_data d
                        (map (fun l => (dimensions (shape l), data l))
                             (l0 :: lpre'))))).
  { cbn [Evaluate].
    rewrite (collect_Forall2 Evaluate (x0 :: pre') (l0 :: lpre'))
      by (by constructor).
    unfold_monad. by apply EvalConcatInDim_Ok. }
  eexists. split; [exact Hp|].
  remember (OpConcatInDim (x0 :: pre') dim) as node eqn:Enode.
  cbn [Evaluate map collect]. rewrite Hp.
  rewrite (collect_Forall2 Evaluate post lpost Hpost). unfold_monad.
  rewrite EvalConcatInDim_Ok; cbn [shape element_type dimensions].
  - f_equal. f_equal.
    + f_equal. rewrite list_insert_insert_eq. f_equal.
      cbn [map foldr shape]. unfold dimension_at at 1.
      cbn [dimensions]. unfold extent_at at 1.
      rewrite list_lookup_insert_eq by done. cbn [default].
      rewrite !map_app, foldr_app. cbn [map foldr].
      change (Z.to_nat dim) with d. unfold id.
      generalize (foldr Z.add 0 (map (dimension_at d) (map shape lpost)))
        as v.
      generalize (map (dimension_at d) (map shape lpre')) as l1.
      generalize (dimension_at d (shape l0)) as a0.
      intros a0 l1 v. induction l1 as [|a l1 IH]; simpl in *; lia.
    + cbn [map shape dimensions data].
      change ((dimensions (shape l0), data l0)
                :: map (fun l => (dimensions (shape l), data l))
                       (lpre' ++ lpost))
        with (map (fun l => (dimensions (shape l), data l))
                  ((l0 :: lpre') ++ lpost)).
      rewrite (map_app _ (l0 :: lpre') lpost).
      rewrite <- (concat_data_flatten d (dimensions (shape l0)));
        [|done|done|exact Hwf|].
      * f_equal. f_equal. f_equal. f_equal.
        rewrite !map_map. reflexivity.
      * constructor; [apply concat_operand_refl|].
        by apply (compatible_operands d (shape l0)).
  - unfold rank in *. cbn [dimensions]. rewrite length_insert. done.
  - subst d. clear Hp Hwf Hpost.
    induction (map shape lpost) as [|s l IH]; [done|].
    cbn [forallb] in *. apply andb_prop in Hc2 as [H1 H2].
    rewrite IH, andb_true_r by done. rewrite <- H1.
    destruct (shape l0) as [type dims]. apply concat_compatible_insert.
Qed.

(** X11. Concatenation is associative: when concatenating the inputs
    [pre ++ post] along [dim] has the value [y], BuildCat over [pre] followed
    by BuildCat over its result and [post] emits two accepted instructions,
    and the second one has the value [y] as well. *)
Theorem BuildCat_flatten (pre post : list XlaOp) (dim : Z) (y : Literal)
    (b : XlaBuilder) :
  pre <> [] ->
  Evaluate (OpConcatInDim (pre ++ post) dim) = Ok y ->
  let inner := OpConcatInDim pre dim in
  let outer := OpConcatInDim (inner :: post) dim in
  let b1 := mkBuilder (instructions b ++ [inner]) (first_error b) in
  BuildCat pre dim b = (Ok inner, b1) /\
  BuildCat (inner :: post) dim b1 =
    (Ok outer, mkBuilder (instructions b ++ [inner; outer]) (first_error b)) /\
  Evaluate outer = Ok y.
Proof.
  intros Hne Hy inner outer b1.
  destruct (Evaluate_Concat_flatten pre post dim y Hne Hy) as (p & Hp & Hout).
  fold inner in Hp. fold inner outer in Hout.
  split; [|split; [|done]].
  - unfold BuildCat, xla.ConcatInDim. unfold_monad.
    rewrite bool_decide_eq_true_2 by (destruct pre; [done | simpl; lia]).
    unfold inner in *. by rewrite (AddInstruction_accepted _ _ b Hp).
  - unfold BuildCat, xla.ConcatInDim. unfold_monad.
    rewrite bool_decide_eq_true_2 by (simpl; lia).
    unfold outer in *. rewrite (AddInstruction_accepted _ _ b1 Hout).
    unfold b1. cbn [instructions first_error]. by rewrite <- app_assoc.
Qed.

Lemma BuildCat_flatten_witness :
  Evaluate
    (OpConcatInDim
       [OpConcatInDim [constant S32 [2; 1] [1; 2];
                       constant S32 [2; 2] [3; 4; 5; 6]] 1;
        constant S32 [2; 1] [7; 8]] 1) =
    Ok (mkLiteral (mkShape S32 [2; 4]) [1; 3; 4; 7; 2; 5; 6; 8]).
Proof.
  apply (BuildCat_flatten
           [constant S32 [2; 1] [1; 2]; constant S32 [2; 2] [3; 4; 5; 6]]
           [constant S32 [2; 1] [7; 8]] 1
           (mkLiteral (mkShape S32 [2; 4]) [1; 3; 4; 7; 2; 5; 6; 8])
           empty_builder); [discriminate | reflexivity].
Defined.

(** ** Concatenation followed by a split *)

Lemma length_concat_operands_0 (n0 : Z) (tl0 : list Z)
    (ops : list (list Z * list Z)) :
  Forall wf_array ops -> Forall (concat_operand 0%nat (n0 :: tl0)) ops ->
  0 <= foldr Z.add 0 (map (fun o => extent_at 0%nat o.1) ops) /\
  length (concat (map snd ops)) =
    (Z.to_nat (foldr Z.add 0%Z (map (fun o => extent_at 0%nat o.1) ops)) *
     Z.to_nat (Multiply tl0))%nat.
Proof.
  intros Hwf Hc. induction Hwf as [|o ops Ho _ IH]; simpl; [split; lia|].
  inversion Hc as [|? ? Hco Hc']; subst. destruct (IH Hc') as [Hs Hl].
  pose proof (concat_operand_0 _ _ _ Hco) as E.
  destruct o as [dims elems]. destruct Ho as [Hf Hlen]. simpl in *.
  rewrite E in Hf, Hlen. inversion Hf as [|? ? He Htl]; subst.
  rewrite Multiply_cons in Hlen.
  rewrite Z2Nat_mul in Hlen by (by try apply Multiply_nonneg).
  split; [lia|]. rewrite length_app, Hl, Hlen.
  rewrite Z2Nat.inj_add by lia. lia.
Qed.

(** The range of a concatenation that an operand fills is that operand. *)
Lemma slice_concat_data (d : nat) (dims0 : list Z)
    (pre post : list (list Z * list Z)) (o : list Z * list Z) :
  (d < length dims0)%nat ->
  Forall wf_array (pre ++ o :: post) ->
  Forall (concat_operand d dims0) (pre ++ o :: post) ->
  slice_data d
    (<[d := foldr Z.add 0
              (map (fun o => extent_at d o.1) (pre ++ o :: post))]> dims0)
    (foldr Z.add 0 (map (fun o => extent_at d o.1) pre)) 1
    (Z.to_nat (extent_at d o.1))
    (concat_data d (pre ++ o :: post)) = o.2.
Proof.
  revert dims0 pre post o.
  induction d as [|d IH]; intros [|n0 tl0] pre post o Hd Hwf Hc;
    simpl in Hd; try lia.
  - apply Forall_app in Hwf as [Hwf1 Hwf2].
    apply Forall_app in Hc as [Hc1 Hc2].
    destruct (length_concat_operands_0 n0 tl0 pre Hwf1 Hc1) as [Hs Hl].
    inversion Hwf2 as [|? ? Ho _]; subst.
    inversion Hc2 as [|? ? Hco _]; subst.
    pose proof (concat_operand_0 _ _ _ Hco) as E.
    destruct o as [dims elems]. destruct Ho as [Hf Hlen].
    cbn [fst snd] in *.
    rewrite E in Hf, Hlen. inversion Hf as [|? ? He Htl]; subst.
    rewrite Multiply_cons in Hlen.
    rewrite Z2Nat_mul in Hlen by (by try apply Multiply_nonneg).
    cbn [insert list_insert]. rewrite slice_data_0 by done.
    cbn [concat_data]. rewrite map_app, concat_app. cbn [map concat snd].
    rewrite drop_app_length' by (symmetry; apply Hl).
    rewrite take_app_length' by (symmetry; apply Hlen). done.
  - assert (Hne : pre ++ o :: post <> []) by (by destruct pre).
    pose proof (outer_extent_operands d n0 tl0 _ Hne Hc) as Houter.
    pose proof (operands_outer_nonneg d n0 tl0 _ Hne Hwf Hc) as Hn0.
    assert (Hins : forall v : Z,
               <[S d := v]> (n0 :: tl0) = n0 :: <[d := v]> tl0)
      by reflexivity.
    rewrite Hins, slice_data_S.
    assert (Ho : wf_array o /\ concat_operand (S d) (n0 :: tl0) o).
    { apply Forall_app in Hwf as [_ Hwf2]. apply Forall_app in Hc as [_ Hc2].
      inversion Hwf2; inversion Hc2; subst. done. }
    destruct Ho as [Howf Hoc].
    destruct (concat_operand_S _ _ _ _ Hoc) as (tl & E & _ & Hoext).
    rewrite (map_ext_in _
               (row (Z.to_nat (Multiply (tail o.1))) o.2)).
    + apply concat_rows. destruct o as [dims elems]. simpl in E. subst dims.
      destruct Howf as [Hf Hlen]. simpl in *.
      inversion Hf as [|? ? _ Htl]; subst.
      rewrite Hlen, Multiply_cons.
      apply Z2Nat_mul; [done | by apply Multiply_nonneg].
    + intros j Hj. apply in_seq in Hj.
      destruct (inner_rows_operands d n0 tl0 _ j Hwf Hc ltac:(lia))
        as (Hwfj & Hcj & Hextj).
      assert (Hpre : map (fun o => extent_at d o.1) (map (inner_row j) pre) =
                     map (fun o => extent_at (S d) o.1) pre).
      { apply Forall_app in Hwf as [Hwf1 _].
        apply Forall_app in Hc as [Hc1 _].
        by destruct (inner_rows_operands d n0 tl0 pre j Hwf1 Hc1
                       ltac:(lia)) as (_ & _ & ?). }
      assert (Hrow : row (Z.to_nat
                            (Multiply
                               (<[d := foldr Z.add 0
                                         (map (fun o => extent_at (S d) o.1)
                                              (pre ++ o :: post))]> tl0)))
                         (concat_data (S d) (pre ++ o :: post)) j =
                     concat_data d (map (inner_row j) (pre ++ o :: post))).
      { cbn [concat_data]. rewrite Houter.
        apply row_concat_map; [|lia]. intros i Hi.
        destruct (inner_rows_operands d n0 tl0 _ i Hwf Hc ltac:(lia))
          as (Hwfi & Hci & Hexti).
        destruct (length_concat_data d
                    (map (inner_row i) (pre ++ o :: post)) tl0)
          as [_ Hlen]; try done; try lia.
        { by destruct pre. }
        by rewrite Hlen, Hexti. }
      rewrite Hrow, <- Hextj, <- Hpre.
      rewrite map_app in *. cbn [map] in *.
      replace (extent_at (S d) o.1) with (extent_at d (inner_row j o).1)
        by (unfold inner_row; cbn [fst]; rewrite Hoext, E; reflexivity).
      rewrite (IH tl0); try done. lia.
Qed.

Lemma extent_at_nonneg (d : nat) (dims : list Z) :
  Forall (Z.le 0) dims -> 0 <= extent_at d dims.
Proof.
  intros H. unfold extent_at. destruct (dims !! d) as [n|] eqn:E; [|done].
  apply (Forall_lookup_1 _ _ _ _ H E).
Qed.

Lemma sum_extents_nonneg (d : nat) (ops : list (list Z * list Z)) :
  Forall wf_array ops ->
  0 <= foldr Z.add 0 (map (fun o => extent_at d o.1) ops).
Proof.
  induction 1 as [|o ops [Hf _] _ IH]; simpl; [lia|].
  pose proof (extent_at_nonneg d _ Hf). lia.
Qed.

Lemma compatible_types (d : nat) (first : Shape) (rest : list Literal) :
  forallb (concat_compatible d first) (map shape rest) = true ->
  Forall (fun l => element_type (shape l) = element_type first) rest.
Proof.
  induction rest as [|l rest IH]; simpl; intros H; [constructor|].
  apply andb_prop in H as [Hl Hrest]. constructor; [|by apply IH].
  unfold concat_compatible in Hl.
  apply andb_prop in Hl as [Hl _]. apply andb_prop in Hl as [Htype _].
  by apply bool_decide_eq_true_1 in Htype.
Qed.

(** The chunks of a concatenation taken at the operands' extents evaluate to
    the operands, one after the other. *)
Lemma Evaluate_concat_chunks (cat : XlaOp) (dim : Z) (type : PrimitiveType)
    (dims0 : list Z) (ls lpre lrest : list Literal) :
  0 <= dim -> (Z.to_nat dim < length dims0)%nat ->
  Forall wf_array (map (fun l => (dimensions (shape l), data l)) ls) ->
  Forall (concat_operand (Z.to_nat dim) dims0)
         (map (fun l => (dimensions (shape l), data l)) ls) ->
  Forall (fun l => element_type (shape l) = type) ls ->
  Evaluate cat =
    Ok (mkLiteral
          (mkShape type
             (<[Z.to_nat dim :=
                  foldr Z.add 0
                    (map (fun o => extent_at (Z.to_nat dim) o.1)
                         (map (fun l => (dimensions (shape l), data l)) ls))]>
                dims0))
          (concat_data (Z.to_nat dim)
             (map (fun l => (dimensions (shape l), data l)) ls))) ->
  ls = lpre ++ lrest ->
  Forall2 (fun c l => Evaluate c = Ok l)
    (split_chunks cat dim
       (foldr Z.add 0
          (map (fun o => extent_at (Z.to_nat dim) o.1)
               (map (fun l => (dimensions (shape l), data l)) lpre)))
       (map (fun l => dimension_at (Z.to_nat dim) (shape l)) lrest))
    lrest.
Proof.
  intros Hdim Hd Hwf Hc Htype Hcat. revert lpre.
  induction lrest as [|l lrest IH]; intros lpre E; [constructor|].
  cbn [map split_chunks]. subst ls.
  set (d := Z.to_nat dim) in *.
  set (arr := fun l : Literal => (dimensions (shape l), data l)) in *.
  pose proof Hwf as Hwf'. pose proof Hc as Hc'.
  rewrite map_app in Hwf', Hc'. cbn [map] in Hwf', Hc'.
  apply Forall_app in Hwf' as [Hwf1 Hwf2].
  apply Forall_app in Hc' as [_ Hc2].
  inversion Hwf2 as [|? ? Hl Hwf3]; subst.
  inversion Hc2 as [|? ? [Hlen Hdel] _]; subst.
  apply Forall_app in Htype as Htype'. destruct Htype' as [_ Htype'].
  inversion Htype' as [|? ? Hlt _]; subst.
  pose proof (sum_extents_nonneg d _ Hwf1) as Hs1.
  pose proof (sum_extents_nonneg d _ Hwf3) as Hs3.
  pose proof (extent_at_nonneg d _ (proj1 Hl)) as He.
  assert (Hsum : foldr Z.add 0 (map (fun o => extent_at d o.1)
                                    (map arr (lpre ++ l :: lrest))) =
                 foldr Z.add 0 (map (fun o => extent_at d o.1) (map arr lpre))
                 + (extent_at d (arr l).1
                    + foldr Z.add 0 (map (fun o => extent_at d o.1)
                                         (map arr lrest)))).
  { by rewrite map_app, sum_extents_app. }
  constructor.
  - unfold dimension_at.
    rewrite (Evaluate_chunk cat _ dim
               (foldr Z.add 0 (map (fun o => extent_at d o.1)
                                   (map arr (lpre ++ l :: lrest))))
               Hcat Hdim);
      cbn [shape dimensions element_type data]; fold d.
    + rewrite list_insert_insert_eq.
      rewrite (map_app arr lpre (l :: lrest)). cbn [map].
      assert (Hslice := slice_concat_data d dims0 (map arr lpre)
                          (map arr lrest) (arr l) Hd).
      change ((arr l).1) with (dimensions (shape l)) in Hslice.
      change ((arr l).2) with (data l) in Hslice.
      rewrite Hslice.
      * cbn [arr fst snd] in Hlen, Hdel.
        rewrite <- (insert_same_delete d _ dims0 _ Hlen Hdel).
        rewrite list_insert_id.
        -- f_equal. apply literal_eta.
        -- unfold extent_at.
           destruct (lookup_lt_is_Some_2 (dimensions (shape l)) d)
             as [n Hn]; [lia|]. by rewrite Hn.
      * rewrite map_app in Hwf. exact Hwf.
      * rewrite map_app in Hc. exact Hc.
    + apply list_lookup_insert_eq. done.
    + done.
    + done.
    + rewrite Hsum. cbn [arr fst] in *. lia.
  - specialize (IH (lpre ++ [l])).
    rewrite <- app_assoc in IH. specialize (IH eq_refl).
    rewrite map_app, sum_extents_app in IH. cbn [map foldr] in IH.
    rewrite Z.add_0_r in IH. exact IH.
Qed.

(** X12. Splitting a concatenation at its inputs' extents gives the inputs
    back: when BuildCat's node over [inputs] has a value, BuildSplit of that
    node along the same dimension, with the inputs' extents along it as split
    sizes, returns one chunk per input, and each chunk has the value of its
    input. *)
Theorem cat_then_split (inputs : list XlaOp) (ls : list Literal) (dim : Z)
    (y : Literal) (b : XlaBuilder) :
  Forall2 (fun x l => Evaluate x = Ok l) inputs ls ->
  Evaluate (OpConcatInDim inputs dim) = Ok y ->
  exists chunks b',
    BuildSplit (OpConcatInDim inputs dim)
      (map (fun l => dimension_at (Z.to_nat dim) (shape l)) ls) dim b =
      (Ok chunks, b') /\
    Forall2 (fun c l => Evaluate c = Ok l) chunks ls.
Proof.
  intros Hls Hy. pose proof Hy as Hcat.
  cbn [Evaluate] in Hy. rewrite (collect_Forall2 _ _ _ Hls) in Hy.
  unfold_monad.
  destruct (EvalConcatInDim_Ok_inv _ _ _ Hy) as (l0 & rest & -> & Hdim & Hcm).
  rewrite (EvalConcatInDim_Ok l0 rest dim Hdim Hcm) in Hy.
  set (d := Z.to_nat dim) in *.
  set (arr := fun l : Literal => (dimensions (shape l), data l)) in *.
  set (sizes := map (fun l => dimension_at d (shape l)) (l0 :: rest)).
  assert (Hsizes : map (dimension_at d) (map shape (l0 :: rest)) = sizes)
    by (unfold sizes; by rewrite map_map).
  assert (Hsizes' : map (fun o => extent_at d o.1) (map arr (l0 :: rest))
                    = sizes) by (unfold sizes; by rewrite map_map).
  rewrite Hsizes in Hy.
  assert (Hwf : Forall wf_array (map arr (l0 :: rest)))
    by apply (Forall2_Evaluate_wf _ _ Hls).
  assert (Hc : Forall (concat_operand d (dimensions (shape l0)))
                      (map arr (l0 :: rest))).
  { constructor; [apply concat_operand_refl|].
    by apply (compatible_operands d (shape l0)). }
  assert (Htype : Forall (fun l => element_type (shape l) =
                                   element_type (shape l0)) (l0 :: rest)).
  { constructor; [done|]. by apply (compatible_types d). }
  assert (Hd : (d < length (dimensions (shape l0)))%nat)
    by (unfold rank in Hdim; lia).
  assert (Hnonneg : Forall (Z.le 0) sizes).
  { rewrite <- Hsizes'. clear -Hwf. induction Hwf as [|o ops [Hf _] _ IH];
      simpl; constructor; [by apply extent_at_nonneg | done]. }
  destruct (BuildSplit_run (OpConcatInDim inputs dim) (shape y) sizes dim
              (sum_sizes sizes) b) as [b' Hrun].
  { by apply GetShape_Evaluate. }
  { lia. }
  { injection Hy as <-. cbn [shape dimensions]. fold d.
    by apply list_lookup_insert_eq. }
  rewrite ComputeSplitCount_all in Hrun by (done || lia).
  rewrite firstn_all in Hrun.
  eexists _, b'. split; [exact Hrun|].
  injection Hy as <-.
  pose proof (Evaluate_concat_chunks (OpConcatInDim inputs dim) dim
                (element_type (shape l0)) (dimensions (shape l0))
                (l0 :: rest) [] (l0 :: rest)) as Hchunks.
  fold d arr in Hchunks. rewrite Hsizes' in Hchunks.
  apply Hchunks; try done. lia.
Qed.

Lemma cat_then_split_witness :
  exists chunks b',
    BuildSplit
      (OpConcatInDim [constant S32 [2; 1] [1; 2];
                      constant S32 [2; 2] [3; 4; 5; 6]] 1)
      [1; 2] 1 empty_builder = (Ok chunks, b') /\
    Forall2 (fun c l => Evaluate c = Ok l) chunks
      [mkLiteral (mkShape S32 [2; 1]) [1; 2];
       mkLiteral (mkShape S32 [2; 2]) [3; 4; 5; 6]].
Proof.
  apply (cat_then_split
           [constant S32 [2; 1] [1; 2]; constant S32 [2; 2] [3; 4; 5; 6]]
           [mkLiteral (mkShape S32 [2; 1]) [1; 2];
            mkLiteral (mkShape S32 [2; 2]) [3; 4; 5; 6]] 1
           (mkLiteral (mkShape S32 [2; 3]) [1; 3; 4; 2; 5; 6])
           empty_builder);
    [repeat constructor | reflexivity].
Defined.

(** ** BuildStack *)

Lemma Evaluate_unsqueezed (input : XlaOp) (x : Literal) (d : nat) :
  Evaluate input = Ok x ->
  Evaluate (OpReshape input
              (take d (dimensions (shape x)) ++
               1 :: drop d (dimensions (shape x)))) =
    Ok (mkLiteral
          (mkShape (element_type (shape x))
             (take d (dimensions (shape x)) ++
              1 :: drop d (dimensions (shape x))))
          (data x)).
Proof.
  intros Hx. destruct (Evaluate_wf _ _ Hx) as [Hnn _].
  apply Evaluate_Reshape; [done| |apply Multiply_unsqueeze].
  apply Forall_app. split; [by apply Forall_take|].
  constructor; [lia | by apply Forall_drop].
Qed.

Lemma stack_loop_run (s : Shape) (dim : Z) (inputs : list XlaOp)
    (ls : list Literal) (reshaped_inputs : list XlaOp) (b : XlaBuilder) :
  0 <= dim <= Z.of_nat (rank s) ->
  Forall2 (fun x l => Evaluate x = Ok l /\ shape l = s) inputs ls ->
  let unsqueezed :=
    take (Z.to_nat dim) (dimensions s) ++
    1 :: drop (Z.to_nat dim) (dimensions s) in
  stack_loop inputs dim reshaped_inputs b =
    (Ok (reshaped_inputs ++ map (fun x => OpReshape x unsqueezed) inputs),
     mkBuilder
       (instructions b ++ map (fun x => OpReshape x unsqueezed) inputs)
       (first_error b)).
Proof.
  intros Hdim Hls unsqueezed. revert reshaped_inputs b.
  induction Hls as [|x l inputs ls [Hx Hs] _ IH]; intros acc b.
  - cbn [stack_loop map]. unfold_monad. rewrite !app_nil_r.
    by destruct b.
  - cbn [stack_loop map].
    unfold XlaHelpers.SizesOfXlaOp, XlaHelpers.ShapeOfXlaOp, xla.Reshape,
      vector_insert.
    unfold_monad. rewrite (GetShape_Evaluate _ _ Hx), Hs.
    unfold rank in Hdim.
    destruct (Z.ltb_spec dim 0); [lia|].
    destruct (Z.ltb_spec (Z.of_nat (length (dimensions s))) dim); [lia|].
    cbn [orb]. fold unsqueezed.
    pose proof (Evaluate_unsqueezed x l (Z.to_nat dim) Hx) as Hv.
    rewrite Hs in Hv. fold unsqueezed in Hv.
    rewrite (AddInstruction_accepted _ _ b Hv), IH.
    cbn [instructions first_error]. by rewrite <- !app_assoc.
Qed.

Lemma unsqueeze_set (d : nat) (dims : list Z) (v : Z) :
  (d <= length dims)%nat ->
  <[d := v]> (take d dims ++ 1 :: drop d dims) =
    take d dims ++ v :: drop d dims.
Proof.
  intros Hd. rewrite insert_app_r_alt by (rewrite length_take; lia).
  rewrite length_take, Nat.min_l, Nat.sub_diag by done. reflexivity.
Qed.

Lemma unsqueeze_lookup (d : nat) (dims : list Z) (v : Z) :
  (d <= length dims)%nat ->
  (take d dims ++ v :: drop d dims) !! d = Some v.
Proof.
  intros Hd. rewrite lookup_app_r by (rewrite length_take; lia).
  rewrite length_take, Nat.min_l, Nat.sub_diag by done. reflexivity.
Qed.

(** What the concatenation emitted by BuildStack evaluates to. *)
Lemma Evaluate_stack (s : Shape) (dim : Z) (inputs : list XlaOp)
    (ls : list Literal) :
  0 <= dim <= Z.of_nat (rank s) -> inputs <> [] ->
  Forall2 (fun x l => Evaluate x = Ok l /\ shape l = s) inputs ls ->
  let unsqueezed :=
    take (Z.to_nat dim) (dimensions s) ++
    1 :: drop (Z.to_nat dim) (dimensions s) in
  Evaluate
    (OpConcatInDim (map (fun x => OpReshape x unsqueezed) inputs) dim) =
    Ok (mkLiteral
          (mkShape (element_type s)
             (take (Z.to_nat dim) (dimensions s) ++
              Z.of_nat (length inputs) ::
              drop (Z.to_nat dim) (dimensions s)))
          (concat_data (Z.to_nat dim)
             (map (fun l => (unsqueezed, data l)) ls))).
Proof.
  intros Hdim Hne Hls unsqueezed.
  set (d := Z.to_nat dim) in *.
  assert (Hd : (d <= length (dimensions s))%nat)
    by (unfold rank in Hdim; lia).
  assert (Hcollect :
    Forall2 (fun c l => Evaluate c = Ok l)
      (map (fun x => OpReshape x unsqueezed) inputs)
      (map (fun l => mkLiteral (mkShape (element_type s) unsqueezed) (data l))
           ls)).
  { clear Hne. induction Hls as [|x l inputs ls [Hx Hs] _ IH];
      cbn [map]; constructor; [|done].
    pose proof (Evaluate_unsqueezed x l d Hx) as Hv.
    rewrite Hs in Hv. exact Hv. }
  cbn [Evaluate]. rewrite (collect_Forall2 _ _ _ Hcollect). unfold_monad.
  pose proof (Forall2_length _ _ _ Hls) as Hlen.
  destruct Hls as [|x l inputs ls [Hx Hs] Hls]; [done|].
  cbn [map]. rewrite EvalConcatInDim_Ok; cbn [shape dimensions element_type].
  - fold d. f_equal. f_equal.
    + f_equal.
      replace (foldr Z.add 0 _) with (Z.of_nat (length (x :: inputs))).
      { by apply unsqueeze_set. }
      rewrite Hlen.
      change (mkLiteral (mkShape (element_type s) unsqueezed) (data l)
                :: map (fun l0 => mkLiteral (mkShape (element_type s)
                                               unsqueezed) (data l0)) ls)
        with (map (fun l0 => mkLiteral (mkShape (element_type s) unsqueezed)
                               (data l0)) (l :: ls)).
      generalize (l :: ls) as ls'. clear -Hd.
      induction ls' as [|l' ls' IH]; [done|].
      cbn [map foldr length]. unfold dimension_at at 1, extent_at.
      cbn [shape dimensions]. unfold unsqueezed at 1.
      rewrite unsqueeze_lookup by done.
      change (default 0 (Some 1)) with 1. rewrite <- IH. lia.
    + cbn [map]. do 2 f_equal. rewrite map_map. reflexivity.
  - unfold rank. cbn [dimensions]. unfold unsqueezed.
    rewrite length_app, length_take. cbn [length]. rewrite length_drop.
    unfold rank in Hdim. lia.
  - rewrite map_map. cbn [shape].
    clear. induction ls as [|l ls IH]; [done|]. cbn [map forallb].
    rewrite IH, andb_true_r. unfold concat_compatible.
    by rewrite !bool_decide_eq_true_2.
Qed.

(** X13. BuildStack over a non-empty list of inputs of one shape, at a
    position up to the rank, emits one accepted reshape per input and one
    accepted concatenation; its value has the inputs' extents with the
    number of inputs inserted at the position.  Stacked at position 0 the
    elements are the inputs' elements one input after the other, and a
    single input keeps its elements at every position. *)
Theorem BuildStack_value (s : Shape) (dim : Z) (inputs : list XlaOp)
    (ls : list Literal) (b : XlaBuilder) :
  inputs <> [] ->
  0 <= dim <= Z.of_nat (rank s) ->
  Forall2 (fun x l => Evaluate x = Ok l /\ shape l = s) inputs ls ->
  exists r b' y,
    BuildStack inputs dim b = (Ok r, b') /\
    first_error b' = first_error b /\
    length (instructions b') =
      (length (instructions b) + length inputs + 1)%nat /\
    Evaluate r = Ok y /\
    shape y =
      mkShape (element_type s)
        (take (Z.to_nat dim) (dimensions s) ++
         Z.of_nat (length inputs) :: drop (Z.to_nat dim) (dimensions s)) /\
    (dim = 0 -> data y = concat (map data ls)) /\
    (forall l, ls = [l] -> data y = data l).
Proof.
  intros Hne Hdim Hls.
  pose proof (Evaluate_stack s dim inputs ls Hdim Hne Hls) as Hv.
  cbv zeta in Hv.
  set (unsqueezed := take (Z.to_nat dim) (dimensions s) ++
                     1 :: drop (Z.to_nat dim) (dimensions s)) in *.
  eexists _, _, _. split; [|split; [|split; [|split; [exact Hv|]]]].
  - unfold BuildStack, xla.ConcatInDim. unfold_monad.
    rewrite bool_decide_eq_true_2 by (destruct inputs; [done | simpl; lia]).
    rewrite (stack_loop_run s dim inputs ls [] b Hdim Hls).
    fold unsqueezed. cbn [app].
    rewrite (AddInstruction_accepted _ _ _ Hv). reflexivity.
  - reflexivity.
  - cbn [instructions]. rewrite !length_app, length_map. reflexivity.
  - cbn [shape data]. split; [done|]. split.
    + intros E. rewrite E. change (Z.to_nat 0) with 0%nat.
      cbn [concat_data]. by rewrite map_map.
    + intros l ->. inversion Hls as [|x ? ? ? [Hx Hs] Hnil]; subst.
      destruct (Evaluate_wf _ _ Hx) as [Hnn Hlen].
      assert (Hd : (Z.to_nat dim <= length (dimensions (shape l)))%nat)
        by (unfold rank in Hdim; lia).
      cbn [map]. apply (concat_data_single _ _ _ 1).
      * split; cbn [fst snd].
        -- apply Forall_app. split; [by apply Forall_take|].
           constructor; [lia | by apply Forall_drop].
        -- unfold unsqueezed. by rewrite Multiply_unsqueeze.
      * by apply unsqueeze_lookup.
Qed.

Lemma BuildStack_value_witness :
  exists r b' y,
    BuildStack [constant S32 [2] [1; 2]; constant S32 [2] [3; 4]] 1
      empty_builder = (Ok r, b') /\
    Evaluate r = Ok y /\ shape y = mkShape S32 [2; 2].
Proof.
  destruct (BuildStack_value (mkShape S32 [2]) 1
              [constant S32 [2] [1; 2]; constant S32 [2] [3; 4]]
              [mkLiteral (mkShape S32 [2]) [1; 2];
               mkLiteral (mkShape S32 [2]) [3; 4]] empty_builder)
    as (r & b' & y & Hrun & _ & _ & Hy & Hshape & _).
  - discriminate.
  - unfold rank; simpl; lia.
  - repeat constructor.
  - exists r, b', y. repeat split; assumption.
Defined.

(** ** BuildRepeat *)

(** Concatenating [k] copies of one node along a dimension of its rank. *)
Lemma Evaluate_Concat_replicate (x : XlaOp) (l : Literal) (k : nat)
    (dim : Z) :
  Evaluate x = Ok l -> (0 < k)%nat ->
  0 <= dim < Z.of_nat (rank (shape l)) ->
  Evaluate (OpConcatInDim (replicate k x) dim) =
    Ok (mkLiteral
          (mkShape (element_type (shape l))
             (<[Z.to_nat dim :=
                  Z.of_nat k * dimension_at (Z.to_nat dim) (shape l)]>
                (dimensions (shape l))))
          (concat_data (Z.to_nat dim)
             (replicate k (dimensions (shape l), data l)))).
Proof.
  intros Hx Hk Hdim. destruct k as [|k]; [lia|].
  cbn [Evaluate].
  rewrite (collect_Forall2 Evaluate (replicate (S k) x) (replicate (S k) l))
    by (by apply Forall2_replicate).
  unfold_monad. cbn [replicate]. rewrite EvalConcatInDim_Ok; [|done|].
  - f_equal. f_equal.
    + f_equal. f_equal.
      change (l :: replicate k l) with (replicate (S k) l).
      generalize (S k) as n. intros n.
      induction n as [|n IH]; [simpl; lia|].
      cbn [replicate map foldr]. rewrite IH. lia.
    + f_equal. cbn [map]. f_equal. clear Hk.
      induction k as [|k IH]; [done|]. cbn [replicate map]. by rewrite IH.
  - clear Hk. induction k as [|k IH]; [done|]. cbn [replicate map forallb].
    rewrite IH, andb_true_r. unfold concat_compatible.
    by rewrite !bool_decide_eq_true_2.
Qed.

Lemma tiled_prefix_step (i : nat) (reps dims : list Z) (c n : Z) :
  reps !! i = Some c -> dims !! i = Some n ->
  <[i := c * n]> (zip_with Z.mul (take i reps) (take i dims) ++ drop i dims) =
    zip_with Z.mul (take (S i) reps) (take (S i) dims) ++ drop (S i) dims.
Proof.
  intros Hc Hn.
  pose proof (lookup_lt_Some _ _ _ Hc). pose proof (lookup_lt_Some _ _ _ Hn).
  assert (Hlen : length (zip_with Z.mul (take i reps) (take i dims)) = i)
    by (rewrite length_zip_with, !length_take; lia).
  rewrite insert_app_r_alt by lia. rewrite Hlen, Nat.sub_diag.
  rewrite (drop_S dims n i Hn). cbn [insert list_insert].
  rewrite (take_S_r reps i c Hc), (take_S_r dims i n Hn).
  rewrite zip_with_app by (rewrite !length_take; lia).
  cbn [zip_with]. by rewrite <- app_assoc.
Qed.

Lemma tiled_prefix_lookup (i : nat) (reps dims : list Z) (n : Z) :
  (i <= length reps)%nat -> dims !! i = Some n ->
  (zip_with Z.mul (take i reps) (take i dims) ++ drop i dims) !! i = Some n.
Proof.
  intros Hi Hn. pose proof (lookup_lt_Some _ _ _ Hn).
  assert (Hlen : length (zip_with Z.mul (take i reps) (take i dims)) = i)
    by (rewrite length_zip_with, !length_take; lia).
  rewrite lookup_app_r by lia. rewrite Hlen, Nat.sub_diag.
  rewrite lookup_drop, Nat.add_0_r. done.
Qed.

(** The loop of BuildRepeat from dimension [i] on, every count being
    positive: the dimensions before [i] are tiled already. *)
Lemma repeat_loop_run (repeats dims0 : list Z) (extra : nat)
    (type : PrimitiveType) (m : nat) :
  forall (i : nat) (repeated : XlaOp) (l : Literal) (b : XlaBuilder),
    (i + m = length dims0)%nat ->
    length (drop extra repeats) = length dims0 ->
    Forall (Z.le 1) (drop extra repeats) ->
    Evaluate repeated = Ok l ->
    element_type (shape l) = type ->
    dimensions (shape l) =
      zip_with Z.mul (take i (drop extra repeats)) (take i dims0)
      ++ drop i dims0 ->
    exists r y b',
      repeat_loop repeats extra (seq i m) repeated b = (Ok r, b') /\
      first_error b' = first_error b /\
      Evaluate r = Ok y /\
      element_type (shape y) = type /\
      dimensions (shape y) = zip_with Z.mul (drop extra repeats) dims0.
Proof.
  induction m as [|m IH]; intros i repeated l b Him Hlen Hpos Hl Htype Hdims.
  - exists repeated, l, b. cbn [seq repeat_loop]. unfold_monad.
    repeat split; try done.
    rewrite Hdims, !take_ge, (drop_ge dims0) by lia. by rewrite app_nil_r.
  - cbn [seq repeat_loop]. unfold_monad.
    destruct (lookup_lt_is_Some_2 dims0 i) as [n Hn]; [lia|].
    destruct (lookup_lt_is_Some_2 (drop extra repeats) i) as [c Hc]; [lia|].
    pose proof (Forall_lookup_1 _ _ _ _ Hpos Hc) as Hc1.
    assert (Hat : vector_at repeats (Z.of_nat (extra + i)) = Ok c).
    { apply vector_at_lookup; [lia|]. rewrite Nat2Z.id.
      by rewrite lookup_drop in Hc. }
    rewrite Hat. unfold vector_fill.
    destruct (Z.ltb_spec c 0); [lia|].
    unfold xla.ConcatInDim.
    assert (Hrank : 0 <= Z.of_nat i < Z.of_nat (rank (shape l))).
    { unfold rank. rewrite Hdims, length_app, length_zip_with, !length_take,
        Hlen, length_drop. lia. }
    pose proof (Evaluate_Concat_replicate repeated l (Z.to_nat c)
                  (Z.of_nat i) Hl ltac:(lia) Hrank) as Hv.
    rewrite Nat2Z.id, Z2Nat.id in Hv by lia.
    rewrite (AddInstruction_accepted _ _ b Hv).
    edestruct (IH (S i)) as (r & y & b' & Hrun & Herr & Hy & Hty & Hdy);
      [lia | exact Hlen | exact Hpos | exact Hv | exact Htype | |].
    + cbn [shape dimensions]. unfold dimension_at, extent_at.
      rewrite Hdims, (tiled_prefix_lookup i _ dims0 n) by (done || lia).
      change (default 0 (Some n)) with n. by apply tiled_prefix_step.
    + exists r, y, b'. rewrite Hrun. repeat split; done.
Qed.

Lemma BuildRepeat_run (input : XlaOp) (x : Literal) (repeats : list Z)
    (b : XlaBuilder) :
  Evaluate input = Ok x ->
  (rank (shape x) <= length repeats)%nat ->
  let extra := (length repeats - rank (shape x))%nat in
  Forall (Z.le 0) (take extra repeats) ->
  Forall (Z.le 1) (drop extra repeats) ->
  exists r b' y,
    BuildRepeat input repeats b = (Ok r, b') /\
    first_error b' = first_error b /\
    Evaluate r = Ok y /\
    shape y =
      mkShape (element_type (shape x))
        (take extra repeats ++
         zip_with Z.mul (drop extra repeats) (dimensions (shape x))).
Proof.
  intros Hx Hrank extra Hlead Htile. unfold rank in *.
  unfold BuildRepeat, XlaHelpers.SizesOfXlaOp, XlaHelpers.ShapeOfXlaOp.
  unfold_monad. rewrite (GetShape_Evaluate _ _ Hx).
  rewrite bool_decide_eq_true_2 by done. fold extra.
  destruct (repeat_loop_run repeats (dimensions (shape x)) extra
              (element_type (shape x)) (length (dimensions (shape x)))
              0%nat input x b)
    as (r & y & b' & Hrun & Herr & Hy & Hty & Hdy); try done.
  { rewrite length_drop. unfold extra. lia. }
  rewrite Hrun. case_bool_decide as Hlt.
  - unfold xla.Broadcast.
    assert (Hv : Evaluate (OpBroadcast r (take extra repeats)) =
                 Ok (mkLiteral
                       (mkShape (element_type (shape x))
                          (take extra repeats ++
                           zip_with Z.mul (drop extra repeats)
                             (dimensions (shape x))))
                       (concat (replicate
                                  (Z.to_nat (Multiply (take extra repeats)))
                                  (data y))))).
    { cbn [Evaluate]. rewrite Hy. unfold_monad.
      unfold EvalBroadcast, InferBroadcastShape. unfold_monad.
      rewrite (proj2 (valid_dimensions_Forall _) Hlead).
      by rewrite Hty, Hdy. }
    rewrite (AddInstruction_accepted _ _ b' Hv).
    eexists _, _, _. split; [reflexivity|]. split; [done|].
    split; [exact Hv | reflexivity].
  - exists r, b', y. repeat split; try done.
    assert (E : extra = 0%nat) by (unfold extra; lia).
    rewrite E, take_0. cbn [app]. destruct y as [[ty dy] ey].
    cbn [shape element_type dimensions] in *. rewrite E in Hdy.
    by rewrite Hty, Hdy.
Qed.

(** X14. With at least as many repeat counts as the input has dimensions,
    the leading counts non-negative and the count of every dimension of the
    input positive, BuildRepeat returns a node that has a value: its extents
    are the leading counts followed by each extent of the input multiplied by
    its count, and nothing is rejected on the way. *)
Theorem BuildRepeat_shape (input : XlaOp) (x : Literal) (repeats : list Z)
    (b : XlaBuilder) :
  Evaluate input = Ok x ->
  (rank (shape x) <= length repeats)%nat ->
  Forall (Z.le 0) (take (length repeats - rank (shape x)) repeats) ->
  Forall (Z.le 1) (drop (length repeats - rank (shape x)) repeats) ->
  exists r b' y,
    BuildRepeat input repeats b = (Ok r, b') /\
    first_error b' = first_error b /\
    Evaluate r = Ok y /\
    shape y =
      mkShape (element_type (shape x))
        (take (length repeats - rank (shape x)) repeats ++
         zip_with Z.mul (drop (length repeats - rank (shape x)) repeats)
                  (dimensions (shape x))) /\
    ElementsIn (shape y) = Multiply repeats * ElementsIn (shape x).
Proof.
  intros Hx Hrank Hlead Htile.
  destruct (BuildRepeat_run input x repeats b Hx Hrank Hlead Htile)
    as (r & b' & y & Hrun & Herr & Hy & Hshape).
  exists r, b', y. repeat split; try done.
  rewrite Hshape. unfold ElementsIn. cbn [dimensions].
  replace (Multiply repeats)
    with (Multiply (take (length repeats - rank (shape x)) repeats) *
          Multiply (drop (length repeats - rank (shape x)) repeats))
    by (by rewrite <- Multiply_app, take_drop).
  rewrite Multiply_app, <- Z.mul_assoc. f_equal.
  assert (Hlen : length (drop (length repeats - rank (shape x)) repeats) =
                 length (dimensions (shape x)))
    by (rewrite length_drop; unfold rank in *; lia).
  revert Hlen. generalize (drop (length repeats - rank (shape x)) repeats).
  generalize (dimensions (shape x)). clear.
  intros dims. induction dims as [|n dims IH]; intros [|c reps] Hlen;
    try discriminate; [done|].
  cbn [zip_with]. rewrite !Multiply_cons, IH by (simpl in Hlen; lia). lia.
Qed.

Lemma BuildRepeat_shape_witness :
  exists r b' y,
    BuildRepeat (constant S32 [2; 3] [1; 2; 3; 4; 5; 6]) [3; 2; 2]
      empty_builder = (Ok r, b') /\
    Evaluate r = Ok y /\
    shape y = mkShape S32 [3; 4; 6].
Proof.
  destruct (BuildRepeat_shape (constant S32 [2; 3] [1; 2; 3; 4; 5; 6])
              (mkLiteral (mkShape S32 [2; 3]) [1; 2; 3; 4; 5; 6]) [3; 2; 2]
              empty_builder)
    as (r & b' & y & Hrun & _ & Hy & Hshape & _).
  - reflexivity.
  - unfold rank; simpl; lia.
  - unfold rank; simpl. repeat constructor; lia.
  - unfold rank; simpl. repeat constructor; lia.
  - exists r, b', y. repeat split; assumption.
Defined.

(** The loop of BuildRepeat over dimensions whose counts are all 1 keeps the
    value of the node. *)
Lemma repeat_loop_ones (repeats : list Z) (extra : nat) (m : nat) :
  forall (i : nat) (repeated : XlaOp) (l : Literal) (b : XlaBuilder),
    (forall j, (i <= j < i + m)%nat -> repeats !! (extra + j)%nat = Some 1) ->
    (i + m <= rank (shape l))%nat ->
    Evaluate repeated = Ok l ->
    exists r b',
      repeat_loop repeats extra (seq i m) repeated b = (Ok r, b') /\
      first_error b' = first_error b /\
      Evaluate r = Ok l.
Proof.
  induction m as [|m IH]; intros i repeated l b Hones Hrank Hl.
  - exists repeated, b. cbn [seq repeat_loop]. by unfold_monad.
  - cbn [seq repeat_loop]. unfold_monad.
    rewrite (vector_at_lookup repeats (Z.of_nat (extra + i)) 1)
      by (try rewrite Nat2Z.id; try apply Hones; lia).
    change (vector_fill 1 repeated) with (Ok [repeated]). cbv iota beta.
    unfold xla.ConcatInDim.
    pose proof (Evaluate_Concat_single repeated l (Z.of_nat i) Hl
                  ltac:(lia)) as Hv.
    rewrite (AddInstruction_accepted _ _ b Hv).
    destruct (IH (S i) (OpConcatInDim [repeated] (Z.of_nat i)) l
                (mkBuilder
                   (instructions b ++ [OpConcatInDim [repeated] (Z.of_nat i)])
                   (first_error b)))
      as (r & b' & Hrun & Herr & Hr); [intros j Hj; apply Hones; lia|lia|done|].
    exists r, b'. by rewrite Hrun.
Qed.

Lemma concat_replicate_mul (a c : nat) (l : list Z) :
  concat (replicate a (concat (replicate c l))) =
    concat (replicate (a * c) l).
Proof.
  induction a as [|a IH]; [done|].
  cbn [replicate concat Nat.mul]. by rewrite IH, replicate_add, concat_app.
Qed.

(** X15. Tiling the leading dimension only: with the counts [pre] for new
    leading dimensions, [k] for the first dimension of the input and 1 for
    every other one, BuildRepeat returns a node whose value holds the
    elements of the input [Multiply pre * k] times over, under the extents
    [pre] followed by the input's with the first one multiplied by [k].
    With no new dimension and [k = 1] the value is the input's. *)
Theorem BuildRepeat_leading (input : XlaOp) (x : Literal) (n : Z)
    (dims pre : list Z) (k : Z) (b : XlaBuilder) :
  Evaluate input = Ok x ->
  dimensions (shape x) = n :: dims ->
  Forall (Z.le 0) pre -> 1 <= k ->
  exists r b' y,
    BuildRepeat input (pre ++ k :: replicate (length dims) 1) b =
      (Ok r, b') /\
    first_error b' = first_error b /\
    Evaluate r = Ok y /\
    shape y = mkShape (element_type (shape x)) (pre ++ k * n :: dims) /\
    data y = concat (replicate (Z.to_nat (Multiply pre * k)) (data x)).
Proof.
  intros Hx Hdims Hpre Hk.
  set (repeats := pre ++ k :: replicate (length dims) 1).
  assert (Hlen : length repeats = (length pre + S (length dims))%nat)
    by (unfold repeats; rewrite length_app; cbn [length];
        by rewrite length_replicate).
  unfold BuildRepeat, XlaHelpers.SizesOfXlaOp, XlaHelpers.ShapeOfXlaOp.
  unfold_monad. rewrite (GetShape_Evaluate _ _ Hx), Hdims.
  cbn [length]. rewrite bool_decide_eq_true_2 by lia.
  replace (length repeats - S (length dims))%nat with (length pre) by lia.
  cbn [seq repeat_loop]. unfold_monad.
  assert (Hat : repeats !! (length pre + 0)%nat = Some k).
  { unfold repeats. rewrite lookup_app_r by lia.
    by replace (length pre + 0 - length pre)%nat with 0%nat by lia. }
  rewrite (vector_at_lookup repeats (Z.of_nat (length pre + 0)) k)
    by (try rewrite Nat2Z.id; done || lia).
  unfold vector_fill. destruct (Z.ltb_spec k 0); [lia|].
  unfold xla.ConcatInDim.
  pose proof (Evaluate_Concat_replicate input x (Z.to_nat k) 0 Hx
                ltac:(lia)) as Hv.
  unfold rank in Hv. rewrite Hdims in Hv. cbn [length] in Hv.
  specialize (Hv ltac:(lia)).
  change (Z.to_nat 0) with 0%nat in Hv. change (Z.of_nat 0) with 0.
  unfold dimension_at, extent_at in Hv. rewrite Hdims in Hv.
  cbn [lookup list_lookup insert list_insert concat_data] in Hv.
  change (default 0 (Some n)) with n in Hv.
  rewrite Z2Nat.id in Hv by lia.
  assert (Hsnd : forall m : nat,
             map snd (replicate m (n :: dims, data x)) =
               replicate m (data x)).
  { intros m. induction m as [|m IH]; [done|].
    cbn [replicate map snd]. by rewrite IH. }
  rewrite Hsnd in Hv.
  rewrite (AddInstruction_accepted _ _ b Hv).
  assert (Hones : forall j, (1 <= j < 1 + length dims)%nat ->
                            repeats !! (length pre + j)%nat = Some 1).
  { intros j Hj. unfold repeats. rewrite lookup_app_r by lia.
    replace (length pre + j - length pre)%nat with (S (j - 1)) by lia.
    cbn [lookup list_lookup]. apply lookup_replicate_2. lia. }
  match type of Hv with
  | _ = Ok ?tiled =>
      assert (Hrk : (1 + length dims <= rank (shape tiled))%nat)
        by (unfold rank; cbn [shape dimensions length]; lia)
  end.
  match goal with
  | |- context [repeat_loop _ _ _ ?node ?b0] =>
      destruct (repeat_loop_ones repeats (length pre) (length dims) 1 node
                  _ b0 Hones Hrk Hv)
        as (r & b' & Hrun & Herr & Hr)
  end.
  rewrite Hrun. cbn [first_error] in Herr.
  case_bool_decide as Hlt.
  - unfold xla.Broadcast.
    assert (Htake : take (length pre) repeats = pre)
      by (unfold repeats; by rewrite take_app_length).
    rewrite Htake.
    assert (Hb : Evaluate (OpBroadcast r pre) =
                 Ok (mkLiteral
                       (mkShape (element_type (shape x))
                          (pre ++ k * n :: dims))
                       (concat (replicate (Z.to_nat (Multiply pre * k))
                                  (data x))))).
    { cbn [Evaluate]. rewrite Hr. unfold_monad.
      unfold EvalBroadcast, InferBroadcastShape. unfold_monad.
      rewrite (proj2 (valid_dimensions_Forall _) Hpre).
      cbn [shape element_type dimensions data].
      rewrite concat_replicate_mul, <- Z2Nat_mul
        by (try apply Multiply_nonneg; done || lia).
      reflexivity. }
    rewrite (AddInstruction_accepted _ _ b' Hb).
    eexists _, _, _. split; [reflexivity|]. repeat split; done.
  - assert (E : pre = []) by (destruct pre; [done | simpl in *; lia]).
    subst pre. eexists r, b', _. split; [reflexivity|].
    split; [done|]. split; [exact Hr|]. split; [done|].
    cbn [data app]. rewrite Multiply_nil, Z.mul_1_l. reflexivity.
Qed.

Lemma BuildRepeat_leading_witness :
  exists r b' y,
    BuildRepeat (constant S32 [2; 3] [1; 2; 3; 4; 5; 6]) [2; 1]
      empty_builder = (Ok r, b') /\
    Evaluate r = Ok y /\
    data y = [1; 2; 3; 4; 5; 6; 1; 2; 3; 4; 5; 6].
Proof.
  destruct (BuildRepeat_leading (constant S32 [2; 3] [1; 2; 3; 4; 5; 6])
              (mkLiteral (mkShape S32 [2; 3]) [1; 2; 3; 4; 5; 6]) 2 [3] []
              2 empty_builder)
    as (r & b' & y & Hrun & _ & Hy & _ & Hdata).
  - reflexivity.
  - reflexivity.
  - constructor.
  - lia.
  - exists r, b', y. repeat split; assumption.
Defined.

Lemma AddInstruction_rejected (op : XlaOp) (e : Error) (b : XlaBuilder) :
  Evaluate op = Err e ->
  AddInstruction op b =
    (Ok op, mkBuilder (instructions b) (Some (default e (first_error b)))).
Proof. intros H. unfold AddInstruction. by rewrite H. Qed.

Lemma AddInstruction_keeps_error (op : XlaOp) (b : XlaBuilder) :
  is_Some (first_error b) ->
  exists b', AddInstruction op b = (Ok op, b') /\ is_Some (first_error b').
Proof.
  intros Hb. unfold AddInstruction.
  destruct (Evaluate op); eexists; (split; [reflexivity|]); cbn; eauto.
Qed.

(** Copies of a node without a value, or no copy at all, concatenate to a
    node without a value. *)
Lemma Evaluate_Concat_invalid (repeated : XlaOp) (count : nat) (dim : Z) :
  Evaluate repeated = Err InvalidArgument \/ count = 0%nat ->
  Evaluate (OpConcatInDim (replicate count repeated) dim) =
    Err InvalidArgument.
Proof.
  intros H. cbn [Evaluate]. destruct count as [|count].
  - reflexivity.
  - destruct H as [H|H]; [|discriminate].
    cbn [replicate map collect]. rewrite H. reflexivity.
Qed.

(** Once a count is zero, or the node has no value, the loop of BuildRepeat
    ends on a node without a value and the builder holds an error. *)
Lemma repeat_loop_invalid (repeats : list Z) (extra : nat)
    (dims : list nat) :
  forall (repeated : XlaOp) (b : XlaBuilder),
    Forall (Z.le 0) repeats ->
    Forall (fun j => (extra + j < length repeats)%nat) dims ->
    (Evaluate repeated = Err InvalidArgument /\ is_Some (first_error b)) \/
    (exists j, j ∈ dims /\ repeats !! (extra + j)%nat = Some 0) ->
    exists r b',
      repeat_loop repeats extra dims repeated b = (Ok r, b') /\
      Evaluate r = Err InvalidArgument /\ is_Some (first_error b').
Proof.
  induction dims as [|j dims IH]; intros repeated b Hnn Hin Hcase.
  - destruct Hcase as [[Hr Hb]|(j & Hj & _)]; [|by apply elem_of_nil in Hj].
    exists repeated, b. cbn [repeat_loop]. by unfold_monad.
  - inversion Hin as [|? ? Hj Hin']; subst.
    destruct (lookup_lt_is_Some_2 repeats (extra + j)) as [c Hc]; [done|].
    pose proof (Forall_lookup_1 _ _ _ _ Hnn Hc) as Hc0.
    cbn [repeat_loop]. unfold_monad.
    rewrite (vector_at_lookup repeats (Z.of_nat (extra + j)) c)
      by (try rewrite Nat2Z.id; done || lia).
    unfold vector_fill. destruct (Z.ltb_spec c 0); [lia|].
    unfold xla.ConcatInDim.
    set (node := OpConcatInDim (replicate (Z.to_nat c) repeated)
                   (Z.of_nat j)).
    assert (Hstep :
      (Evaluate node = Err InvalidArgument /\
       exists b1, AddInstruction node b = (Ok node, b1) /\
                  is_Some (first_error b1)) \/
      ((exists b1, AddInstruction node b = (Ok node, b1)) /\
       exists j', j' ∈ dims /\ repeats !! (extra + j')%nat = Some 0)).
    { destruct Hcase as [[Hr Hb]|(j' & Hj' & Hz)].
      - left. split; [apply Evaluate_Concat_invalid; by left|].
        by apply AddInstruction_keeps_error.
      - apply elem_of_cons in Hj' as [->|Hj'].
        + left.
          assert (Hv : Evaluate node = Err InvalidArgument).
          { apply Evaluate_Concat_invalid. right.
            rewrite Hz in Hc. injection Hc as <-. reflexivity. }
          split; [done|]. eexists. split.
          * by apply AddInstruction_rejected.
          * cbn. eauto.
        + right. split; [apply AddInstruction_run | eauto]. }
    destruct Hstep as [(Hv & b1 & Hb1 & Herr)|((b1 & Hb1) & Hz)];
      rewrite Hb1; apply IH; auto.
Qed.

(** X16. A count of zero for a dimension of the input makes BuildRepeat
    concatenate no operand: with non-negative counts, at least as many as
    the rank, it still returns a node, but the node has no value and the
    builder holds an error. *)
Theorem BuildRepeat_zero_count (input : XlaOp) (x : Literal)
    (repeats : list Z) (b : XlaBuilder) :
  Evaluate input = Ok x ->
  (rank (shape x) <= length repeats)%nat ->
  Forall (Z.le 0) repeats ->
  0 ∈ drop (length repeats - rank (shape x)) repeats ->
  exists r b',
    BuildRepeat input repeats b = (Ok r, b') /\
    Evaluate r = Err InvalidArgument /\
    is_Some (first_error b').
Proof.
  intros Hx Hrank Hnn Hzero. unfold rank in *.
  unfold BuildRepeat, XlaHelpers.SizesOfXlaOp, XlaHelpers.ShapeOfXlaOp.
  unfold_monad. rewrite (GetShape_Evaluate _ _ Hx).
  rewrite bool_decide_eq_true_2 by done.
  set (extra := (length repeats - length (dimensions (shape x)))%nat) in *.
  apply list_elem_of_lookup in Hzero as [j Hj].
  pose proof (lookup_lt_Some _ _ _ Hj) as Hjlt.
  rewrite length_drop in Hjlt. rewrite lookup_drop in Hj.
  destruct (repeat_loop_invalid repeats extra
              (seq 0 (length (dimensions (shape x)))) input b)
    as (r & b' & Hrun & Hr & Herr); [done| |right|].
  { apply Forall_forall. intros i Hi. apply elem_of_seq in Hi.
    unfold extra. lia. }
  { exists j. split; [|done]. apply elem_of_seq. unfold extra in *. lia. }
  rewrite Hrun. case_bool_decide.
  - unfold xla.Broadcast.
    assert (Hv : Evaluate (OpBroadcast r (take extra repeats)) =
                 Err InvalidArgument)
      by (cbn [Evaluate]; by rewrite Hr).
    rewrite (AddInstruction_rejected _ _ b' Hv).
    eexists _, _. split; [reflexivity|]. split; [done | cbn; eauto].
  - by exists r, b'.
Qed.

Lemma BuildRepeat_zero_count_witness :
  exists r b',
    BuildRepeat (constant S32 [2; 3] [1; 2; 3; 4; 5; 6]) [2; 0]
      empty_builder = (Ok r, b') /\
    Evaluate r = Err InvalidArgument /\
    is_Some (first_error b').
Proof.
  apply (BuildRepeat_zero_count (constant S32 [2; 3] [1; 2; 3; 4; 5; 6])
           (mkLiteral (mkShape S32 [2; 3]) [1; 2; 3; 4; 5; 6]) [2; 0]
           empty_builder).
  - reflexivity.
  - unfold rank; simpl; lia.
  - repeat constructor; lia.
  - unfold rank; simpl. apply list_elem_of_lookup. by exists 1%nat.
Defined.

(** ** BuildSplit followed by BuildCat, in general *)

(** The sizes ComputeSplitCount counts fit in the dimension together. *)
Lemma ComputeSplitCount_sum (dim_size : Z) (sizes : list Z) :
  sum_sizes (take (ComputeSplitCount dim_size sizes) sizes) <= dim_size \/
  ComputeSplitCount dim_size sizes = 0%nat.
Proof.
  revert dim_size. induction sizes as [|size rest IH]; intros dim_size;
    [by right|].
  rewrite ComputeSplitCount_cons.
  destruct (Z.gtb_spec size dim_size); [by right|]. left.
  rewrite firstn_cons, sum_sizes_cons.
  destruct (IH (dim_size - size)) as [Hle|E]; [lia|].
  rewrite E, take_0. change (sum_sizes []) with 0. lia.
Qed.

Lemma InferConcatOpShape_chunks_sum (type : PrimitiveType) (dims : list Z)
    (d : nat) (n : Z) (sizes : list Z) :
  dims !! d = Some n -> sizes <> [] ->
  InferConcatOpShape
    (map (fun size => mkShape type (<[d := size]> dims)) sizes) (Z.of_nat d) =
    Ok (mkShape type (<[d := sum_sizes sizes]> dims)).
Proof.
  intros Hn Hne. destruct sizes as [|size rest]; [done|].
  pose proof (lookup_lt_Some _ _ _ Hn) as Hlt.
  cbn [map InferConcatOpShape]. unfold_monad. unfold rank.
  cbn [dimensions element_type]. rewrite length_insert, Nat2Z.id.
  destruct (Z.leb_spec 0 (Z.of_nat d)); [|lia].
  destruct (Z.ltb_spec (Z.of_nat d) (Z.of_nat (length dims))); [|lia].
  cbn [andb].
  assert (Hcompat : forallb
            (concat_compatible d (mkShape type (<[d := size]> dims)))
            (map (fun size0 => mkShape type (<[d := size0]> dims)) rest) = true).
  { apply forallb_forall. intros s Hs.
    apply in_map_iff in Hs as (size' & <- & _).
    unfold concat_compatible, rank. cbn [dimensions element_type].
    rewrite !length_insert, !delete_insert_same.
    by rewrite !bool_decide_eq_true_2. }
  rewrite Hcompat.
  assert (Hsizes : forall l,
            foldr Z.add 0 (map (dimension_at d)
              (map (fun size0 => mkShape type (<[d := size0]> dims)) l)) =
            sum_sizes l).
  { induction l as [|a l IHl]; [done|]. simpl. rewrite IHl.
    unfold dimension_at, extent_at. cbn [dimensions].
    by rewrite list_lookup_insert_eq. }
  specialize (Hsizes (size :: rest)). cbn [map] in Hsizes.
  cbn [map]. rewrite Hsizes, list_insert_insert_eq. reflexivity.
Qed.

(** X17. Whatever the split sizes add up to, concatenating what BuildSplit
    returns gives the part of the input the chunks cover: for non-negative
    split sizes of which the first one fits (each one small enough for
    offset + size to be an [xla::int64]), BuildCat of the chunks along [dim]
    has the value of the stride-1 slice of the input from 0 to the sum of
    the sizes BuildSplit used. *)
Theorem split_then_cat_prefix (input : XlaOp) (x : Literal)
    (split_sizes : list Z) (dim n : Z) (b : XlaBuilder) :
  Evaluate input = Ok x ->
  0 <= dim -> dimensions (shape x) !! Z.to_nat dim = Some n ->
  Forall (Z.le 0) split_sizes ->
  Forall (fun size => n + size <= INT64_MAX) split_sizes ->
  (0 < ComputeSplitCount n split_sizes)%nat ->
  let covered :=
    sum_sizes (take (ComputeSplitCount n split_sizes) split_sizes) in
  exists splits b1 r b2 y,
    BuildSplit input split_sizes dim b = (Ok splits, b1) /\
    BuildCat splits dim b1 = (Ok r, b2) /\
    covered <= n /\
    Evaluate r = Ok y /\
    Evaluate (OpSliceInDim input 0 covered 1 dim) = Ok y.
Proof.
  intros Hx Hdim Hn Hsizes _ Hcount covered.
  set (taken := take (ComputeSplitCount n split_sizes) split_sizes) in *.
  assert (Htaken : Forall (Z.le 0) taken) by (by apply Forall_take).
  assert (Hne : taken <> []).
  { unfold taken. destruct split_sizes as [|s rest].
    - unfold ComputeSplitCount in Hcount. simpl in Hcount. lia.
    - destruct (ComputeSplitCount n (s :: rest)); [lia | discriminate]. }
  assert (Hcov : covered <= n).
  { destruct (ComputeSplitCount_sum n split_sizes) as [H|H]; [done | lia]. }
  pose proof (sum_sizes_nonneg _ Htaken) as Hcov0. fold covered in Hcov0.
  destruct (BuildSplit_run input (shape x) split_sizes dim n b
              (GetShape_Evaluate _ _ Hx) Hdim Hn) as [b1 Hsplit].
  fold taken in Hsplit.
  set (splits := split_chunks input dim 0 taken) in *.
  destruct (AddInstruction_run (OpConcatInDim splits dim) b1) as [b2 Hcat].
  pose proof (Evaluate_chunk input x dim n Hx Hdim Hn 0 covered
                ltac:(lia) Hcov0 ltac:(lia)) as Hslice.
  rewrite Z.add_0_l in Hslice.
  eexists splits, b1, (OpConcatInDim splits dim), b2, _.
  split; [done|]. split; [|split; [done|split; [|exact Hslice]]].
  - unfold BuildCat, xla.ConcatInDim. unfold_monad.
    rewrite bool_decide_eq_true_2; [done|].
    unfold splits. rewrite length_split_chunks.
    destruct taken; [done | simpl; lia].
  - pose proof (Evaluate_wf _ _ Hx) as Hwf.
    cbn [Evaluate]. unfold splits.
    rewrite (Evaluate_split_chunks input x dim n Hx Hdim Hn)
      by (done || fold covered; lia).
    unfold_monad. unfold EvalConcatInDim. unfold_monad.
    rewrite !map_map. cbn [shape dimensions data].
    set (arrays := chunk_arrays (Z.to_nat dim) (dimensions (shape x)) (data x)
                     0 taken).
    assert (Eshapes :
      map (fun o : list Z * list Z => mkShape (element_type (shape x)) o.1)
          arrays =
      map (fun size => mkShape (element_type (shape x))
                         (<[Z.to_nat dim := size]> (dimensions (shape x))))
          taken).
    { pose proof (chunk_arrays_extents (Z.to_nat dim) (dimensions (shape x))
                    (data x) 0 taken) as E. fold arrays in E.
      rewrite <- (map_map fst (mkShape (element_type (shape x)))), E.
      by rewrite map_map. }
    rewrite Eshapes.
    replace dim with (Z.of_nat (Z.to_nat dim)) at 1 by lia.
    rewrite (InferConcatOpShape_chunks_sum _ _ _ n) by done.
    rewrite (map_ext _ id), map_id by (by intros [? ?]).
    unfold arrays.
    rewrite (concat_chunk_arrays _ _ _ _ _ n) by (done || fold covered; lia).
    reflexivity.
Qed.

Lemma split_then_cat_prefix_witness :
  exists splits b1 r b2 y,
    BuildSplit (constant S32 [2; 3] [1; 2; 3; 4; 5; 6]) [1; 1; 2] 1
               empty_builder = (Ok splits, b1) /\
    BuildCat splits 1 b1 = (Ok r, b2) /\
    Evaluate r = Ok y /\
    Evaluate (OpSliceInDim (constant S32 [2; 3] [1; 2; 3; 4; 5; 6]) 0 2 1 1)
      = Ok y.
Proof.
  destruct (split_then_cat_prefix (constant S32 [2; 3] [1; 2; 3; 4; 5; 6])
              (mkLiteral (mkShape S32 [2; 3]) [1; 2; 3; 4; 5; 6]) [1; 1; 2]
              1 3 empty_builder)
    as (splits & b1 & r & b2 & y & Hsplit & Hcat & _ & Hr & Hs).
  - reflexivity.
  - lia.
  - reflexivity.
  - repeat constructor; lia.
  - repeat constructor; unfold INT64_MAX; lia.
  - vm_compute. lia.
  - exists splits, b1, r, b2, y. repeat split; assumption.
Defined.

(** ** BuildUnselect, general path *)

Lemma BuildUnselect_general_run (target source : XlaOp) (ts ss : Shape)
    (dim start end_ stride tn sn : Z) (b : XlaBuilder) :
  GetShape target = Ok ts -> GetShape source = Ok ss ->
  0 <= dim ->
  dimensions ts !! Z.to_nat dim = Some tn ->
  dimensions ss !! Z.to_nat dim = Some sn ->
  tn <> sn ->
  rank ss = rank ts ->
  (forall i, i <> Z.to_nat dim -> dimensions ss !! i = dimensions ts !! i) ->
  let cfg := unselect_config (rank ts) dim start stride tn sn in
  exists b',
    BuildUnselect target source dim start end_ stride b =
      (Ok (OpSelect
             (OpPad (OpBroadcast (constant PRED [] [1]) (dimensions ss))
                    (constant PRED [] [0]) cfg)
             (OpPad source (constant (element_type ts) [] [0]) cfg)
             target), b').
Proof.
  intros Ht Hs Hdim Htn Hsn Hne Hrank Hothers cfg.
  unfold BuildUnselect, XlaHelpers.ShapeOfXlaOp. unfold_monad.
  rewrite Ht, Hs.
  rewrite (vector_at_lookup _ _ _ Hdim Htn), (vector_at_lookup _ _ _ Hdim Hsn).
  destruct (Z.eqb_spec tn sn); [done|].
  unfold XlaHelpers.ScalarBroadcast, XlaHelpers.ScalarValue,
    xla.ConstantLiteral, xla.Broadcast, xla.Pad, xla.Select,
    GetDevicePrimitiveType.
  unfold_monad.
  pose proof (unselect_padding_config ts ss dim start stride tn sn 0
                (rank ts) Htn Hsn Hdim eq_refl Hrank Hothers) as Hcfg.
  change (Z.of_nat 0) with 0 in Hcfg. rewrite drop_0 in Hcfg.
  run_instructions. rewrite Hcfg. run_instructions. by eexists.
Qed.






(** *** Padding one dimension and selecting, row by row *)

Lemma padded_extent_zero (n : Z) : padded_extent n (mkPadding 0 0 0) = n.
Proof. unfold padded_extent. cbn. lia. Qed.

Lemma zip_padded_zero (dims : list Z) :
  zip_with padded_extent dims (replicate (length dims) (mkPadding 0 0 0)) =
    dims.
Proof.
  induction dims as [|n dims IH]; [done|].
  cbn [length replicate zip_with]. by rewrite padded_extent_zero, IH.
Qed.

Lemma InferPadDimensions_zero (dims : list Z) :
  Forall (Z.le 0) dims ->
  InferPadDimensions dims (replicate (length dims) (mkPadding 0 0 0)) =
    Ok dims.
Proof.
  induction 1 as [|n dims Hn _ IH]; [done|].
  cbn [length replicate InferPadDimensions]. unfold_monad.
  rewrite padded_extent_zero, IH. cbn [interior_padding].
  destruct (Z.leb_spec 0 n); [done | lia].
Qed.

Lemma pad_source_index_zero (n j : Z) :
  0 <= j < n -> pad_source_index (mkPadding 0 0 0) n j = Some j.
Proof.
  intros Hj. unfold pad_source_index. cbn [edge_padding_low interior_padding].
  rewrite Z.sub_0_r, Z.add_0_l, Z.mod_1_r, Z.div_1_r.
  destruct (Z.leb_spec 0 j); [|lia]. destruct (Z.ltb_spec j n); [|lia].
  reflexivity.
Qed.

(** Padding by nothing leaves the elements where they are. *)
Lemma pad_data_zero (dims : list Z) (fill : Z) (elems : list Z) :
  wf_array (dims, elems) ->
  pad_data dims (replicate (length dims) (mkPadding 0 0 0)) fill elems =
    elems.
Proof.
  revert elems. induction dims as [|n dims IH]; intros elems Hwf; [done|].
  cbn [length replicate pad_data]. rewrite padded_extent_zero.
  destruct Hwf as [Hf Hlen]. cbn [fst snd] in *.
  inversion Hf as [|? ? Hn Hdims]; subst.
  rewrite (map_ext_in _ (row (Z.to_nat (Multiply dims)) elems)).
  - apply concat_rows. rewrite Hlen, Multiply_cons.
    apply Z2Nat_mul; [done | by apply Multiply_nonneg].
  - intros j Hj. apply in_seq in Hj.
    rewrite pad_source_index_zero, Nat2Z.id by lia.
    apply IH. by apply (wf_row n); [split|lia].
Qed.

Lemma zip_with_concat_rows (f : Z -> Z * Z -> Z) (A B C : nat -> list Z)
    (js : list nat) (k : nat) :
  (forall j, j ∈ js ->
     length (A j) = k /\ length (B j) = k /\ length (C j) = k) ->
  zip_with f (concat (map A js))
             (zip (concat (map B js)) (concat (map C js))) =
    concat (map (fun j => zip_with f (A j) (zip (B j) (C j))) js).
Proof.
  induction js as [|j js IH]; intros H; [done|].
  destruct (H j ltac:(left)) as (Ha & Hb & Hc).
  cbn [map concat].
  rewrite (zip_with_app pair) by lia.
  rewrite zip_with_app by (rewrite length_zip_with; lia).
  rewrite IH; [done|]. intros j' Hj'. apply H. by right.
Qed.

Lemma select_row_true (k : nat) (X Y : list Z) :
  length X = k -> length Y = k ->
  zip_with (fun (p : Z) (tf : Z * Z) => if p =? 0 then tf.2 else tf.1)
           (replicate k 1) (zip X Y) = X.
Proof.
  revert X Y. induction k as [|k IH]; intros [|x X] [|y Y] HX HY;
    try discriminate; [done|].
  cbn. f_equal. apply IH; simpl in *; lia.
Qed.

Lemma select_row_false (k : nat) (X Y : list Z) :
  length X = k -> length Y = k ->
  zip_with (fun (p : Z) (tf : Z * Z) => if p =? 0 then tf.2 else tf.1)
           (replicate k 0) (zip X Y) = Y.
Proof.
  revert X Y. induction k as [|k IH]; intros [|x X] [|y Y] HX HY;
    try discriminate; [done|].
  cbn. f_equal. apply IH; simpl in *; lia.
Qed.

Lemma row_replicate (k m : nat) (v : Z) (i : nat) :
  (i < m)%nat -> row k (replicate (m * k) v) i = replicate k v.
Proof.
  intros Hi. unfold row. rewrite drop_replicate, take_replicate.
  f_equal. nia.
Qed.

Lemma concat_replicate_singleton (m : nat) (v : Z) :
  concat (replicate m [v]) = replicate m v.
Proof. induction m as [|m IH]; [done|]. cbn. by rewrite IH. Qed.

Lemma pad_source_index_Some (c : PaddingConfigDimension) (n j i : Z) :
  0 <= interior_padding c ->
  pad_source_index c n j = Some i ->
  0 <= i < n /\ j = edge_padding_low c + i * (interior_padding c + 1).
Proof.
  intros Hint. unfold pad_source_index.
  set (p := j - edge_padding_low c). set (step := interior_padding c + 1).
  destruct (Z.leb_spec 0 p); [|discriminate].
  destruct (Z.eqb_spec (p `mod` step) 0); [|discriminate].
  destruct (Z.ltb_spec (p `div` step) n); [|discriminate].
  cbn [andb]. intros [= <-].
  assert (Hstep : 0 < step) by (unfold step; lia).
  pose proof (Z.div_pos p step ltac:(lia) Hstep).
  pose proof (Z.div_mod p step ltac:(lia)). unfold p in *. split; [lia|nia].
Qed.


(** Padding the outermost dimension only: every row of the result is a row
    of the operand or a row of fill elements. *)
Lemma pad_data_outer (n : Z) (tl : list Z) (c : PaddingConfigDimension)
    (fill : Z) (elems : list Z) :
  wf_array (n :: tl, elems) -> 0 <= interior_padding c ->
  pad_data (n :: tl) (c :: replicate (length tl) (mkPadding 0 0 0)) fill elems
  = concat
      (map (fun j : nat =>
              match pad_source_index c n (Z.of_nat j) with
              | Some i => row (Z.to_nat (Multiply tl)) elems (Z.to_nat i)
              | None => replicate (Z.to_nat (Multiply tl)) fill
              end)
           (seq 0 (Z.to_nat (padded_extent n c)))).
Proof.
  intros Hwf Hint. cbn [pad_data]. rewrite zip_padded_zero.
  f_equal. apply map_ext_in. intros j _.
  destruct (pad_source_index c n (Z.of_nat j)) as [i|] eqn:Hi; [|done].
  apply pad_source_index_Some in Hi as [Hi _]; [|done].
  apply pad_data_zero. apply (wf_row n); [done | lia].
Qed.

Lemma unselect_padded_extent (tn sn start stride : Z) :
  1 <= sn ->
  padded_extent sn
    (mkPadding start (tn - (start + sn + (sn - 1) * (stride - 1)))
               (stride - 1)) = tn.
Proof.
  intros Hsn. unfold padded_extent.
  cbn [edge_padding_low edge_padding_high interior_padding].
  rewrite Z.max_l by lia. lia.
Qed.

Lemma Evaluate_pad_outer (x v : XlaOp) (l : Literal) (type : PrimitiveType)
    (fill n tn : Z) (tl : list Z) (c : PaddingConfigDimension) :
  Evaluate x = Ok l ->
  Evaluate v = Ok (mkLiteral (mkShape type []) [fill]) ->
  element_type (shape l) = type ->
  dimensions (shape l) = n :: tl ->
  0 <= interior_padding c -> padded_extent n c = tn -> 0 <= tn ->
  Evaluate (OpPad x v (c :: replicate (length tl) (mkPadding 0 0 0))) =
    Ok (mkLiteral (mkShape type (tn :: tl))
          (concat
             (map (fun j : nat =>
                     match pad_source_index c n (Z.of_nat j) with
                     | Some i =>
                         row (Z.to_nat (Multiply tl)) (data l) (Z.to_nat i)
                     | None => replicate (Z.to_nat (Multiply tl)) fill
                     end)
                  (seq 0 (Z.to_nat tn))))).
Proof.
  intros Hx Hv Htype Hdims Hint Hext Htn.
  destruct (Evaluate_wf _ _ Hx) as [Hnn Hlen].
  cbn [Evaluate]. rewrite Hx, Hv. unfold_monad.
  unfold EvalPad, InferPadShape. unfold_monad.
  cbn [shape dimensions element_type data head].
  rewrite !bool_decide_eq_true_2 by done.
  rewrite Hdims in *. inversion Hnn as [|? ? Hn Htl]; subst.
  cbn [InferPadDimensions]. unfold_monad.
  rewrite InferPadDimensions_zero by done.
  destruct (Z.leb_spec 0 (interior_padding c)); [|lia].
  destruct (Z.leb_spec 0 (padded_extent n c)); [|lia].
  change (default 0 (Some fill)) with fill.
  rewrite pad_data_outer; [done| |done].
  split; [done|]. cbn [fst snd]. unfold ElementsIn in Hlen.
  by rewrite Hdims in Hlen.
Qed.

(** The value of the select BuildUnselect returns for dimension 0, row by
    row of the outermost dimension. *)
Lemma Evaluate_unselect_outer (target source : XlaOp) (t s : Literal)
    (tn sn : Z) (tl : list Z) (start stride : Z) :
  Evaluate target = Ok t -> Evaluate source = Ok s ->
  dimensions (shape t) = tn :: tl -> dimensions (shape s) = sn :: tl ->
  element_type (shape s) = element_type (shape t) ->
  1 <= sn -> 1 <= stride ->
  let c := mkPadding start (tn - (start + sn + (sn - 1) * (stride - 1)))
                     (stride - 1) in
  let cfg := c :: replicate (length tl) (mkPadding 0 0 0) in
  let k := Z.to_nat (Multiply tl) in
  Evaluate
    (OpSelect
       (OpPad (OpBroadcast (constant PRED [] [1]) (sn :: tl))
              (constant PRED [] [0]) cfg)
       (OpPad source (constant (element_type (shape t)) [] [0]) cfg)
       target) =
    Ok (mkLiteral (shape t)
          (concat
             (map (fun j : nat =>
                     match pad_source_index c sn (Z.of_nat j) with
                     | Some i => row k (data s) (Z.to_nat i)
                     | None => row k (data t) j
                     end)
                  (seq 0 (Z.to_nat tn))))).
Proof.
  intros Ht Hs Hdt Hds Htype Hsn Hstride c cfg k.
  destruct (Evaluate_wf _ _ Ht) as [Hnnt Hlent].
  destruct (Evaluate_wf _ _ Hs) as [Hnns Hlens].
  unfold ElementsIn in Hlent, Hlens. rewrite Hdt in Hnnt, Hlent.
  rewrite Hds in Hnns, Hlens.
  inversion Hnnt as [|? ? Htn Htl]; subst.
  rewrite Multiply_cons, Z2Nat_mul in Hlent, Hlens
    by (try apply Multiply_nonneg; done || lia).
  fold k in Hlent, Hlens.
  assert (Hint : 0 <= interior_padding c) by (cbn; lia).
  assert (Hext : padded_extent sn c = tn) by (by apply unselect_padded_extent).
  (* the mask *)
  assert (Hones : Evaluate (OpBroadcast (constant PRED [] [1]) (sn :: tl)) =
                  Ok (mkLiteral (mkShape PRED (sn :: tl))
                        (replicate (Z.to_nat sn * k) 1))).
  { cbn [Evaluate]. change (Evaluate (constant PRED [] [1]))
      with (Ok (mkLiteral (mkShape PRED []) [1])).
    unfold_monad. unfold EvalBroadcast, InferBroadcastShape. unfold_monad.
    rewrite (proj2 (valid_dimensions_Forall (sn :: tl)))
      by (constructor; [lia | done]).
    cbn [shape dimensions element_type data]. rewrite app_nil_r.
    rewrite concat_replicate_singleton, Multiply_cons, Z2Nat_mul
      by (try apply Multiply_nonneg; done || lia).
    reflexivity. }
  pose proof (Evaluate_pad_outer _ (constant PRED [] [0]) _ PRED 0 sn tn tl c
                Hones eq_refl eq_refl eq_refl Hint Hext Htn) as Hmask.
  cbn [data] in Hmask.
  (* the padded source *)
  pose proof (Evaluate_pad_outer source
                (constant (element_type (shape t)) [] [0]) s
                (element_type (shape t)) 0 sn tn tl c
                Hs eq_refl Htype Hds Hint Hext Htn) as Hpadded.
  fold cfg in Hmask, Hpadded. fold k in Hmask, Hpadded.
  remember (OpPad (OpBroadcast (constant PRED [] [1]) (sn :: tl))
                  (constant PRED [] [0]) cfg) as mask eqn:Emask.
  remember (OpPad source (constant (element_type (shape t)) [] [0]) cfg)
    as padded eqn:Epadded.
  cbn [Evaluate]. rewrite Hmask, Hpadded, Ht. unfold_monad.
  unfold EvalSelect, InferSelectShape. unfold_monad.
  assert (Eshape : mkShape (element_type (shape t)) (tn :: tl) = shape t)
    by (rewrite <- Hdt; by destruct (shape t)).
  cbn [shape dimensions element_type data]. rewrite Eshape.
  rewrite !bool_decide_eq_true_2 by (done || by rewrite Hdt).
  cbn [orb]. f_equal. f_equal.
  unfold select_data. cbn [shape dimensions data].
  rewrite bool_decide_eq_true_2 by (by rewrite Hdt).
  rewrite <- (concat_rows (Z.to_nat tn) k (data t)) at 1 by done.
  rewrite (zip_with_concat_rows _ _ _ _ _ k).
  - f_equal. apply map_ext_in. intros j Hj. apply in_seq in Hj.
    assert (Hrow : length (row k (data t) j) = k)
      by (apply length_row; rewrite Hlent; nia).
    destruct (pad_source_index c sn (Z.of_nat j)) as [i|] eqn:Hi.
    + apply pad_source_index_Some in Hi as [Hi _]; [|done].
      rewrite row_replicate by lia.
      apply select_row_true; [|done].
      apply length_row. rewrite Hlens. nia.
    + by apply select_row_false; [rewrite length_replicate|].
  - intros j Hj. apply elem_of_seq in Hj.
    assert (Hrow : length (row k (data t) j) = k)
      by (apply length_row; rewrite Hlent; nia).
    destruct (pad_source_index c sn (Z.of_nat j)) as [i|] eqn:Hi.
    + apply pad_source_index_Some in Hi as [Hi _]; [|done].
      rewrite row_replicate by lia. rewrite length_replicate.
      split; [done|]. split; [|done].
      apply length_row. rewrite Hlens. nia.
    + by rewrite !length_replicate.
Qed.

Lemma BuildUnselect_outer_run (target source : XlaOp) (t s : Literal)
    (tn sn : Z) (tl : list Z) (start end_ stride : Z) (b : XlaBuilder) :
  Evaluate target = Ok t -> Evaluate source = Ok s ->
  dimensions (shape t) = tn :: tl -> dimensions (shape s) = sn :: tl ->
  element_type (shape s) = element_type (shape t) ->
  tn <> sn -> 1 <= sn -> 1 <= stride ->
  let c := mkPadding start (tn - (start + sn + (sn - 1) * (stride - 1)))
                     (stride - 1) in
  let k := Z.to_nat (Multiply tl) in
  exists r,
    (BuildUnselect target source 0 start end_ stride b).1 = Ok r /\
    Evaluate r =
      Ok (mkLiteral (shape t)
            (concat
               (map (fun j : nat =>
                       match pad_source_index c sn (Z.of_nat j) with
                       | Some i => row k (data s) (Z.to_nat i)
                       | None => row k (data t) j
                       end)
                    (seq 0 (Z.to_nat tn))))).
Proof.
  intros Ht Hs Hdt Hds Htype Hne Hsn Hstride c k.
  destruct (BuildUnselect_general_run target source (shape t) (shape s) 0
              start end_ stride tn sn b (GetShape_Evaluate _ _ Ht)
              (GetShape_Evaluate _ _ Hs)) as [b' Hrun]; try done.
  - by rewrite Hdt.
  - by rewrite Hds.
  - unfold rank. by rewrite Hdt, Hds.
  - intros [|i] Hi; [done|]. by rewrite Hdt, Hds.
  - rewrite Hrun. cbn [fst]. eexists. split; [reflexivity|].
    unfold unselect_config, rank. rewrite Hdt, Hds.
    cbn [length replicate Z.to_nat insert list_insert].
    by apply Evaluate_unselect_outer.
Qed.



Lemma slice_extent_last (start limit stride i : Z) :
  1 <= stride -> 0 <= i < slice_extent start limit stride ->
  start + i * stride < limit.
Proof.
  intros Hstride [Hi Hlt]. unfold slice_extent in Hlt.
  pose proof (Z.mul_div_le (limit - start + stride - 1) stride ltac:(lia)).
  nia.
Qed.

Lemma slice_extent_pos (start limit stride : Z) :
  1 <= stride -> start < limit -> 1 <= slice_extent start limit stride.
Proof.
  intros Hstride Hlt. unfold slice_extent.
  apply Z.div_le_lower_bound; lia.
Qed.

Lemma Evaluate_SliceInDim_outer (input : XlaOp) (x : Literal) (n : Z)
    (tl : list Z) (start limit stride : Z) :
  Evaluate input = Ok x -> dimensions (shape x) = n :: tl ->
  0 <= start <= limit -> limit <= n -> 1 <= stride ->
  Evaluate (OpSliceInDim input start limit stride 0) =
    Ok (mkLiteral
          (mkShape (element_type (shape x))
             (slice_extent start limit stride :: tl))
          (concat
             (map (fun j : nat =>
                     row (Z.to_nat (Multiply tl)) (data x)
                         (Z.to_nat (start + Z.of_nat j * stride)))
                  (seq 0 (Z.to_nat (slice_extent start limit stride)))))).
Proof.
  intros Hx Hdims Hstart Hlimit Hstride. cbn [Evaluate]. rewrite Hx.
  unfold_monad. unfold EvalSliceInDim, InferSliceInDimShape. unfold_monad.
  rewrite Hdims. change (Z.to_nat 0) with 0%nat.
  cbn [lookup list_lookup insert list_insert slice_data].
  destruct (Z.leb_spec 0 0); [|lia].
  destruct (Z.leb_spec 0 start); [|lia].
  destruct (Z.leb_spec start limit); [|lia].
  destruct (Z.leb_spec limit n); [|lia].
  destruct (Z.ltb_spec 0 stride); [|lia].
  reflexivity.
Qed.

(** X20. Select then unselect: putting the strided slice
    [start, end) of a target along dimension 0 back into the target with
    BuildUnselect, on the general path, gives a node whose value is the
    target's. *)
Theorem slice_then_unselect (target : XlaOp) (t : Literal) (tn : Z)
    (tl : list Z) (start end_ stride : Z) (b : XlaBuilder) :
  Evaluate target = Ok t ->
  dimensions (shape t) = tn :: tl ->
  0 <= start < end_ -> end_ <= tn -> 1 <= stride ->
  slice_extent start end_ stride <> tn ->
  exists r,
    (BuildUnselect target (OpSliceInDim target start end_ stride 0) 0
       start end_ stride b).1 = Ok r /\
    Evaluate r = Ok t.
Proof.
  intros Ht Hdt Hstart Hend Hstride Hne.
  set (sn := slice_extent start end_ stride) in *.
  assert (Hsn : 1 <= sn) by (apply slice_extent_pos; lia).
  pose proof (Evaluate_SliceInDim_outer target t tn tl start end_ stride
                Ht Hdt ltac:(lia) Hend Hstride) as Hs.
  fold sn in Hs.
  set (k := Z.to_nat (Multiply tl)) in *.
  destruct (Evaluate_wf _ _ Ht) as [Hnnt Hlent].
  unfold ElementsIn in Hlent. rewrite Hdt in Hnnt, Hlent.
  inversion Hnnt as [|? ? Htn Htl]; subst.
  rewrite Multiply_cons, Z2Nat_mul in Hlent
    by (try apply Multiply_nonneg; done || lia).
  fold k in Hlent.
  destruct (BuildUnselect_outer_run target
              (OpSliceInDim target start end_ stride 0) t _ tn sn tl
              start end_ stride b Ht Hs Hdt eq_refl eq_refl
              ltac:(congruence) Hsn Hstride) as (r & Hrun & Hr).
  exists r. split; [done|]. rewrite Hr. f_equal.
  destruct t as [sh elems]. cbn [shape data] in *. f_equal.
  fold k.
  set (c := mkPadding start (tn - (start + sn + (sn - 1) * (stride - 1)))
                      (stride - 1)).
  etransitivity; [|by apply (concat_rows (Z.to_nat tn) k elems)].
  f_equal. apply map_ext_in. intros j Hj. apply in_seq in Hj.
  destruct (pad_source_index c sn (Z.of_nat j)) as [i|] eqn:Hi; [|done].
  apply pad_source_index_Some in Hi as [Hi Hj']; [|cbn; lia].
  unfold c in Hj'. cbn [edge_padding_low interior_padding] in Hj'.
  replace (stride - 1 + 1) with stride in Hj' by lia.
  rewrite (row_concat_map
             (fun j0 : nat =>
                row k elems (Z.to_nat (start + Z.of_nat j0 * stride)))
             k (Z.to_nat sn)).
  - f_equal. lia.
  - intros j' Hj''. apply length_row. rewrite Hlent.
    pose proof (slice_extent_last start end_ stride (Z.of_nat j') Hstride
                  ltac:(fold sn; lia)).
    nia.
  - lia.
Qed.

Lemma slice_then_unselect_witness :
  exists r,
    (BuildUnselect (constant S32 [5] [1; 2; 3; 4; 5])
       (OpSliceInDim (constant S32 [5] [1; 2; 3; 4; 5]) 1 5 2 0) 0 1 5 2
       empty_builder).1 = Ok r /\
    Evaluate r = Ok (mkLiteral (mkShape S32 [5]) [1; 2; 3; 4; 5]).
Proof.
  apply (slice_then_unselect (constant S32 [5] [1; 2; 3; 4; 5])
           (mkLiteral (mkShape S32 [5]) [1; 2; 3; 4; 5]) 5 [] 1 5 2
           empty_builder); try reflexivity; try lia.
  vm_compute. discriminate.
Defined.

(** ** BuildStack undone by BuildSplit and SqueezeTrivialDimension *)

Lemma Forall2_map_r {A B C} (P : A -> C -> Prop) (f : B -> C)
    (xs : list A) (ys : list B) :
  Forall2 P xs (map f ys) -> Forall2 (fun x y => P x (f y)) xs ys.
Proof.
  revert xs. induction ys as [|y ys IH]; intros xs H; cbn [map] in H.
  - inversion H; subst. constructor.
  - inversion H; subst. constructor; [done | by apply IH].
Qed.

Lemma Forall2_and_r {A B} (P : A -> B -> Prop) (Q : B -> Prop)
    (xs : list A) (ys : list B) :
  Forall2 P xs ys -> Forall Q ys -> Forall2 (fun x y => P x y /\ Q y) xs ys.
Proof.
  induction 1 as [|x y xs ys Hxy _ IH]; intros HQ; [constructor|].
  inversion HQ; subst. constructor; [done | by apply IH].
Qed.

(** X21. BuildStack is undone by a split into unit chunks: BuildSplit of the
    stacked node along [dim] with one split size 1 per input returns one
    chunk per input, and SqueezeTrivialDimension of each chunk at [dim]
    returns a node that has the value of the corresponding input. *)
Theorem stack_then_unbind (s : Shape) (dim : Z) (inputs : list XlaOp)
    (ls : list Literal) (b : XlaBuilder) :
  inputs <> [] ->
  0 <= dim <= Z.of_nat (rank s) ->
  Forall2 (fun x l => Evaluate x = Ok l /\ shape l = s) inputs ls ->
  exists stacked b1 chunks b2,
    BuildStack inputs dim b = (Ok stacked, b1) /\
    BuildSplit stacked (replicate (length inputs) 1) dim b1 =
      (Ok chunks, b2) /\
    Forall2
      (fun chunk l =>
         forall b3, exists r b4,
           SqueezeTrivialDimension chunk (Z.to_nat dim) b3 = (Ok r, b4) /\
           Evaluate r = Ok l)
      chunks ls.
Proof.
  intros Hne Hdim Hls.
  pose proof (Evaluate_stack s dim inputs ls Hdim Hne Hls) as Hv.
  cbv zeta in Hv.
  set (d := Z.to_nat dim) in *.
  set (unsqueezed := take d (dimensions s) ++ 1 :: drop d (dimensions s))
    in *.
  set (stacked := OpConcatInDim
                    (map (fun x => OpReshape x unsqueezed) inputs) dim) in *.
  assert (Hd : (d <= length (dimensions s))%nat)
    by (unfold rank in Hdim; lia).
  assert (Hlen : length ls = length inputs)
    by (symmetry; apply (Forall2_length _ _ _ Hls)).
  set (ls' := map (fun l => mkLiteral (mkShape (element_type s) unsqueezed)
                              (data l)) ls).
  assert (Hunsq : Forall (Z.le 0) unsqueezed).
  { destruct Hls as [|x l ? ? [Hx Hs] _]; [done|].
    destruct (Evaluate_wf _ _ Hx) as [Hnn _]. rewrite Hs in Hnn.
    apply Forall_app. split; [by apply Forall_take|].
    constructor; [lia | by apply Forall_drop]. }
  assert (Hsizes : map (fun l => dimension_at d (shape l)) ls' =
                   replicate (length inputs) 1).
  { rewrite <- Hlen. unfold ls'. rewrite map_map. clear -Hd.
    induction ls as [|l ls IH]; [done|]. cbn [map length replicate].
    rewrite IH. f_equal. unfold dimension_at, extent_at.
    cbn [shape dimensions]. unfold unsqueezed.
    by rewrite unsqueeze_lookup. }
  (* the stack *)
  set (b1 := mkBuilder
               ((instructions b ++
                 map (fun x => OpReshape x unsqueezed) inputs) ++ [stacked])
               (first_error b)).
  assert (Hstack : BuildStack inputs dim b = (Ok stacked, b1)).
  { unfold BuildStack, xla.ConcatInDim. unfold_monad.
    rewrite bool_decide_eq_true_2 by (destruct inputs; [done | simpl; lia]).
    rewrite (stack_loop_run s dim inputs ls [] b Hdim Hls).
    fold d unsqueezed. cbn [app]. fold stacked.
    rewrite (AddInstruction_accepted _ _ _ Hv). reflexivity. }
  (* the split *)
  destruct (BuildSplit_run stacked _ (replicate (length inputs) 1) dim
              (Z.of_nat (length inputs)) b1 (GetShape_Evaluate _ _ Hv))
    as [b2 Hsplit].
  { lia. }
  { cbn [shape dimensions]. fold d. by apply unsqueeze_lookup. }
  assert (Hsum : sum_sizes (replicate (length inputs) 1) =
                 Z.of_nat (length inputs)).
  { clear. induction (length inputs) as [|n IH]; [done|].
    cbn [replicate]. rewrite sum_sizes_cons, IH. lia. }
  rewrite ComputeSplitCount_all in Hsplit
    by (try apply Forall_replicate; lia).
  rewrite length_replicate, firstn_all2 in Hsplit
    by (rewrite length_replicate; lia).
  exists stacked, b1, (split_chunks stacked dim 0
                         (replicate (length inputs) 1)), b2.
  split; [exact Hstack|]. split; [exact Hsplit|].
  (* the chunks *)
  pose proof (Evaluate_concat_chunks stacked dim (element_type s) unsqueezed
                ls' [] ls') as Hchunks.
  fold d in Hchunks. cbn [map foldr] in Hchunks. rewrite Hsizes in Hchunks.
  assert (Harr : map (fun l => (dimensions (shape l), data l)) ls' =
                 map (fun l => (unsqueezed, data l)) ls)
    by (unfold ls'; by rewrite map_map).
  rewrite Harr in Hchunks.
  assert (Hwf : Forall wf_array (map (fun l => (unsqueezed, data l)) ls)).
  { clear -Hls Hunsq Hd. induction Hls as [|x l ? ? [Hx Hs] _ IH];
      cbn [map]; constructor; [|done].
    destruct (Evaluate_wf _ _ Hx) as [_ Hl]. split; [done|].
    cbn [fst snd]. unfold unsqueezed. rewrite Multiply_unsqueeze.
    unfold ElementsIn in Hl. by rewrite Hs in Hl. }
  assert (Hext : foldr Z.add 0
                   (map (fun o : list Z * list Z => extent_at d o.1)
                        (map (fun l => (unsqueezed, data l)) ls)) =
                 Z.of_nat (length inputs)).
  { rewrite <- Hlen, map_map. cbn [fst]. clear -Hd.
    induction ls as [|l ls IH]; [done|]. cbn [map foldr length].
    rewrite IH. unfold extent_at, unsqueezed.
    rewrite unsqueeze_lookup by done. cbn. lia. }
  rewrite Hext in Hchunks.
  assert (Hset : <[d := Z.of_nat (length inputs)]> unsqueezed =
                 take d (dimensions s) ++
                 Z.of_nat (length inputs) :: drop d (dimensions s))
    by (by apply unsqueeze_set).
  rewrite Hset in Hchunks.
  assert (Hdlt : (d < length unsqueezed)%nat).
  { unfold unsqueezed. rewrite length_app, length_take. cbn [length].
    rewrite length_drop. lia. }
  specialize (Hchunks ltac:(lia) Hdlt Hwf).
  assert (Hops : Forall (concat_operand d unsqueezed)
                   (map (fun l => (unsqueezed, data l)) ls)).
  { apply Forall_forall. intros o Ho. apply list_elem_of_fmap in Ho
      as (l & -> & _). apply concat_operand_refl. }
  assert (Htypes : Forall (fun l => element_type (shape l) = element_type s)
                     ls').
  { apply Forall_forall. intros l' Hl'. apply list_elem_of_fmap in Hl'
      as (l & -> & _). reflexivity. }
  specialize (Hchunks Hops Htypes Hv eq_refl).
  apply Forall2_map_r in Hchunks.
  assert (Hshapes : Forall (fun l => shape l = s) ls).
  { clear -Hls. induction Hls as [|x l ? ? [_ Hs] _ IH]; by constructor. }
  eapply Forall2_impl; [exact (Forall2_and_r _ _ _ _ Hchunks Hshapes)|].
  intros chunk l [Hchunk Hl] b3. cbv beta in Hchunk.
  destruct (SqueezeTrivialDimension_run chunk _ d 1 b3 Hchunk)
    as (r & b4 & y & Hrun & Hy & Hty & Hdata & Hdims).
  { cbn [shape dimensions]. by apply unsqueeze_lookup. }
  exists r, b4. split; [done|]. rewrite Hy. f_equal.
  rewrite decide_True in Hdims by done.
  cbn [shape dimensions element_type data] in *.
  unfold unsqueezed in Hdims. rewrite delete_unsqueeze in Hdims by done.
  destruct y as [[ty dy] ey], l as [sl el]. cbn in *. subst. by destruct s.
Qed.

Lemma stack_then_unbind_witness :
  exists stacked b1 chunks b2,
    BuildStack [constant S32 [2] [1; 2]; constant S32 [2] [3; 4]] 1
      empty_builder = (Ok stacked, b1) /\
    BuildSplit stacked [1; 1] 1 b1 = (Ok chunks, b2) /\
    length chunks = 2%nat.
Proof.
  destruct (stack_then_unbind (mkShape S32 [2]) 1
              [constant S32 [2] [1; 2]; constant S32 [2] [3; 4]]
              [mkLiteral (mkShape S32 [2]) [1; 2];
               mkLiteral (mkShape S32 [2]) [3; 4]] empty_builder)
    as (stacked & b1 & chunks & b2 & Hstack & Hsplit & Hchunks).
  - discriminate.
  - unfold rank; simpl; lia.
  - repeat constructor.
  - exists stacked, b1, chunks, b2. split; [exact Hstack|].
    split; [exact Hsplit|]. exact (Forall2_length _ _ _ Hchunks).
Defined.
